(** * github_stats.py: the statistics aggregator and its transport

    A shallow embedding of [Queries] and [Stats] from [github_stats.py].

    Values.  Everything the program handles comes out of [json.loads], so the
    Python values of the model are JSON values: [None], booleans, integers,
    strings, lists and string-keyed dicts.  Two restrictions are made on that
    domain: JSON numbers are integers (the GitHub fields read by the program
    are all integral), and strings are byte strings, the UTF-8 text of
    Python's strings.  The floats that the program computes itself are
    IEEE 754 binary64 numbers, with the operations of the Standard
    Library's [SpecFloat].

    Effects.  A method is a function on the state of the [Stats] object and of
    the outside world (remote service, standard output); an exception leaves
    the state as it was when it was raised, as in Python.  [await] points are
    transparent in the sequential semantics; module [Async] makes those of
    [get_stats] explicit.

    Progress messages written with [print] are not modelled; warnings, error
    reports, requests and sleeps are recorded in the trace of the world. *)

From Stdlib Require Import ZArith List String Ascii Bool Lia QArith Qfield.
From Stdlib Require Import Qabs Qpower DecimalString SpecFloat.
Import ListNotations.

Set Warnings "-register-all".

Local Open Scope Z_scope.
Local Open Scope list_scope.
Local Open Scope string_scope.

(* ================================================================= *)
(** ** Python values and the operations the program applies to them *)

Module Py.

Inductive json : Type :=
| JNull
| JBool (b : bool)
| JNum (n : Z)
| JStr (s : string)
| JArr (items : list json)
| JObj (fields : list (string * json)).

(** The exceptions that can arise; [IOError] stands for whatever the HTTP
    clients raise (connection errors, undecodable bodies). *)
Inductive exn : Type :=
| AttributeError
| TypeError
| KeyError
| ValueError
| AssertionError
| ZeroDivisionError
| OverflowError
| IOError.

(** How an evaluation ends: with a value, with an exception, or not within
    the number of loop iterations it was allowed ([Unfinished]; operations
    without loops never end so). *)
Inductive res (A : Type) : Type :=
| Ok (a : A)
| Raise (e : exn)
| Unfinished.
Arguments Ok {A} a.
Arguments Raise {A} e.
Arguments Unfinished {A}.

(** One evaluation after another. *)
Definition and_then {A B} (r : res A) (k : A -> res B) : res B :=
  match r with
  | Ok a => k a
  | Raise e => Raise e
  | Unfinished => Unfinished
  end.

(** [dict()] *)
Definition empty_dict : json := JObj [].

(** A dict is an association list read from the left: the first binding of
    a key is the binding, later ones are dead. *)
Fixpoint lookup (k : string) (fields : list (string * json)) : option json :=
  match fields with
  | [] => None
  | (k', v) :: rest => if String.eqb k k' then Some v else lookup k rest
  end.

Fixpoint live (seen : list string) (fields : list (string * json))
  : list (string * json) :=
  match fields with
  | [] => []
  | (k, v) :: rest =>
      if existsb (String.eqb k) seen then live seen rest
      else (k, v) :: live (k :: seen) rest
  end.

(** [d.keys()], [d.values()] *)
Definition dict_keys (fields : list (string * json)) : list string :=
  map fst (live [] fields).
Definition dict_values (fields : list (string * json)) : list json :=
  map snd (live [] fields).

(** [v is None] *)
Definition is_None (v : json) : bool :=
  match v with JNull => true | _ => false end.

(** [bool(v)] *)
Definition truthy (v : json) : bool :=
  match v with
  | JNull => false
  | JBool b => b
  | JNum n => negb (Z.eqb n 0)
  | JStr EmptyString => false
  | JStr _ => true
  | JArr [] => false
  | JArr _ => true
  | JObj [] => false
  | JObj _ => true
  end.

(** [isinstance(v, dict)], [isinstance(v, list)] *)
Definition is_dict (v : json) : bool :=
  match v with JObj _ => true | _ => false end.
Definition is_list (v : json) : bool :=
  match v with JArr _ => true | _ => false end.

(** [d.get(k, dflt)]: only dicts have a [get]. *)
Definition get (d : json) (k : string) (dflt : json) : res json :=
  match d with
  | JObj fields =>
      Ok (match lookup k fields with Some v => v | None => dflt end)
  | _ => Raise AttributeError
  end.

(** [d[k]] for a string [k]. *)
Definition getitem (d : json) (k : string) : res json :=
  match d with
  | JObj fields =>
      match lookup k fields with Some v => Ok v | None => Raise KeyError end
  | _ => Raise TypeError
  end.

(** The integer a value denotes in arithmetic: [bool] is a subclass of
    [int]. *)
Definition int_of (v : json) : option Z :=
  match v with
  | JNum n => Some n
  | JBool b => Some (Z.b2z b)
  | _ => None
  end.

(** [acc += v] for an integer [acc]. *)
Definition int_iadd (acc : Z) (v : json) : res Z :=
  match int_of v with
  | Some n => Ok (acc + n)
  | None => Raise TypeError
  end.

(** [iter(v)]: lists yield their items, strings their characters, dicts
    their keys. *)
Definition chars (s : string) : list json :=
  map (fun c => JStr (String c EmptyString)) (list_ascii_of_string s).

Definition iter (v : json) : res (list json) :=
  match v with
  | JArr items => Ok items
  | JStr s => Ok (chars s)
  | JObj fields => Ok (map JStr (dict_keys fields))
  | _ => Raise TypeError
  end.

(** [x += y] on arbitrary values: [list.__iadd__] extends by any iterable,
    strings concatenate with strings, numbers add. *)
Definition iadd (x y : json) : res json :=
  match x with
  | JArr a =>
      match iter y with
      | Ok b => Ok (JArr (a ++ b))
      | Raise e => Raise e
      | Unfinished => Unfinished
      end
  | JStr a =>
      match y with
      | JStr b => Ok (JStr (a ++ b))
      | _ => Raise TypeError
      end
  | JNum _ | JBool _ =>
      match int_of x, int_of y with
      | Some a, Some b => Ok (JNum (a + b))
      | _, _ => Raise TypeError
      end
  | JNull | JObj _ => Raise TypeError
  end.

(** Hashable values, and [==] on them ([True == 1]). *)
Definition hashable (v : json) : bool :=
  match v with JArr _ | JObj _ => false | _ => true end.

Definition key_eqb (a b : json) : bool :=
  match a, b with
  | JNull, JNull => true
  | JStr s, JStr t => String.eqb s t
  | JNum m, JNum n => Z.eqb m n
  | JNum m, JBool c => Z.eqb m (Z.b2z c)
  | JBool b, JNum n => Z.eqb (Z.b2z b) n
  | JBool b, JBool c => Bool.eqb b c
  | _, _ => false
  end.

(** A [set] of hashable values, in insertion order. *)
Definition pyset := list json.

(** [v in s] for a set [s]: hashing [v] comes first. *)
Definition set_contains (v : json) (s : pyset) : res bool :=
  if hashable v then Ok (existsb (key_eqb v) s) else Raise TypeError.

(** [v in s] for a set [s] of strings, [v] already hashed. *)
Definition in_strings (v : json) (s : list string) : bool :=
  match v with
  | JStr n => existsb (String.eqb n) s
  | _ => false
  end.

(** The whitespace of ASCII, and a list of characters without the
    whitespace at its two ends. *)
Definition is_space (c : ascii) : bool :=
  let n := nat_of_ascii c in
  (((9 <=? n) && (n <=? 13)) || ((28 <=? n) && (n <=? 32)))%nat.

Fixpoint lstrip (cs : list ascii) : list ascii :=
  match cs with
  | c :: rest => if is_space c then lstrip rest else cs
  | [] => []
  end.

Definition strip (cs : list ascii) : list ascii :=
  rev (lstrip (rev (lstrip cs))).

(** [s.lower()] and [s.strip()] for a string of ASCII characters. *)
Definition lower_ascii (c : ascii) : ascii :=
  let n := nat_of_ascii c in
  if ((65 <=? n) && (n <=? 90))%nat then ascii_of_nat (n + 32) else c.

Fixpoint ascii_lower (s : string) : string :=
  match s with
  | EmptyString => EmptyString
  | String c rest => String (lower_ascii c) (ascii_lower rest)
  end.

Definition ascii_strip (s : string) : string :=
  string_of_list_ascii (strip (list_ascii_of_string s)).

(** Whether a string holds ASCII characters only. *)
Definition is_ascii (s : string) : bool :=
  forallb (fun c => (nat_of_ascii c <? 128)%nat) (list_ascii_of_string s).

(** [s.lower()] and [s.strip()] follow the Unicode tables of the interpreter
    (case mappings, the whitespace property), which are no part of the
    program: they are parameters.  A string is the UTF-8 text of a [str].
    What is taken for granted of the two methods: on ASCII text they are
    the ASCII ones, and [strip] returns a part of its argument that it
    leaves alone when applied again. *)
Class Unicode : Type := {
  lower : string -> string;
  str_strip : string -> string;
  lower_of_ascii : forall s, is_ascii s = true -> lower s = ascii_lower s;
  strip_of_ascii : forall s, is_ascii s = true -> str_strip s = ascii_strip s;
  strip_part : forall s, exists a b, s = a ++ str_strip s ++ b;
  strip_again : forall s, str_strip (str_strip s) = str_strip s
}.

(** An interpreter that knows ASCII only. *)
Definition ascii_only : Unicode.
Proof.
  assert (Happ : forall x y,
             string_of_list_ascii (x ++ y)%list
             = string_of_list_ascii x ++ string_of_list_ascii y).
  { induction x as [|c x IH]; intros y; cbn; [reflexivity|].
    now rewrite IH. }
  assert (Hsuffix : forall cs, exists blanks, cs = (blanks ++ lstrip cs)%list).
  { induction cs as [|c cs [blanks E]]; cbn [lstrip].
    - now exists [].
    - destruct (is_space c).
      + exists (c :: blanks). cbn. now f_equal.
      + now exists []. }
  assert (Hhead : forall cs,
             match lstrip cs with
             | [] => True
             | c :: _ => is_space c = false
             end).
  { induction cs as [|c cs IH]; cbn [lstrip]; [exact I|].
    destruct (is_space c) eqn:E; [exact IH|exact E]. }
  assert (Hfixed : forall cs,
             match cs with [] => True | c :: _ => is_space c = false end ->
             lstrip cs = cs).
  { intros [|c cs]; cbn; [reflexivity|]. now intros ->. }
  refine {| lower := ascii_lower;
            str_strip := ascii_strip;
            lower_of_ascii := fun _ _ => eq_refl;
            strip_of_ascii := fun _ _ => eq_refl;
            strip_part := _;
            strip_again := _ |}.
  - intros s. unfold ascii_strip, strip.
    destruct (Hsuffix (list_ascii_of_string s)) as [b1 E1].
    destruct (Hsuffix (rev (lstrip (list_ascii_of_string s)))) as [b2 E2].
    exists (string_of_list_ascii b1), (string_of_list_ascii (rev b2)).
    rewrite <- !Happ. rewrite <- (string_of_list_ascii_of_string s) at 1.
    f_equal. rewrite <- rev_app_distr, <- E2, rev_involutive. exact E1.
  - intros s. unfold ascii_strip.
    rewrite list_ascii_of_string_of_list_ascii. f_equal.
    generalize (list_ascii_of_string s) as cs. intros cs.
    assert (H1 : match strip cs with
                 | [] => True
                 | c :: _ => is_space c = false
                 end).
    { unfold strip.
      pose proof (Hhead cs) as H.
      destruct (Hsuffix (rev (lstrip cs))) as [blanks E].
      apply (f_equal (@rev ascii)) in E.
      rewrite rev_involutive, rev_app_distr in E.
      destruct (rev (lstrip (rev (lstrip cs)))) as [|c r]; [exact I|].
      rewrite E in H. exact H. }
    assert (H2 : match rev (strip cs) with
                 | [] => True
                 | c :: _ => is_space c = false
                 end).
    { unfold strip. rewrite rev_involutive. apply Hhead. }
    unfold strip at 1. rewrite (Hfixed _ H1), (Hfixed _ H2).
    apply rev_involutive.
Defined.

(** Where no interpreter is named, as in the instances computed at the
    end, it is this one. *)
#[export] Existing Instance ascii_only | 100.

Definition str_lower {U : Unicode} (v : json) : res string :=
  match v with
  | JStr s => Ok (lower s)
  | _ => Raise AttributeError
  end.

(** [sub in s] for strings. *)
Fixpoint is_substring (sub s : string) : bool :=
  String.prefix sub s
  || match s with
     | EmptyString => false
     | String _ rest => is_substring sub rest
     end.

(** [k in c] for a string [k]. *)
Definition contains_str (k : string) (c : json) : res bool :=
  match c with
  | JObj fields =>
      Ok (match lookup k fields with Some _ => true | None => false end)
  | JArr items => Ok (existsb (key_eqb (JStr k)) items)
  | JStr s => Ok (is_substring k s)
  | _ => Raise TypeError
  end.

(** [str(n)] for an integer. *)
Definition str_of_Z (n : Z) : string := NilZero.string_of_int (Z.to_int n).

(** [str(v)] for a hashable value, as an f-string renders it. *)
Definition str_of (v : json) : string :=
  match v with
  | JNull => "None"
  | JBool true => "True"
  | JBool false => "False"
  | JNum n => str_of_Z n
  | JStr s => s
  | _ => ""
  end.

(** [int(v)]: integers and booleans as they are, strings parsed as
    Python parses decimal literals (surrounding whitespace, an optional
    sign, digits with single underscores between them). *)
Definition digit_of (c : ascii) : option Z :=
  let n := nat_of_ascii c in
  if ((48 <=? n) && (n <=? 57))%nat then Some (Z.of_nat (n - 48)) else None.

(** Digits after the first: [after_digit] tells whether the previous
    character was a digit (an underscore needs one on both sides). *)
Fixpoint digits (acc : Z) (after_digit : bool) (cs : list ascii) : option Z :=
  match cs with
  | [] => if after_digit then Some acc else None
  | c :: rest =>
      match digit_of c with
      | Some d => digits (10 * acc + d) true rest
      | None =>
          if (Ascii.eqb c "_" && after_digit)%bool then digits acc false rest
          else None
      end
  end.

Definition unsigned (cs : list ascii) : option Z :=
  match cs with
  | c :: _ =>
      match digit_of c with
      | Some _ => digits 0 false cs
      | None => None
      end
  | [] => None
  end.

Definition int_of_string (s : string) : option Z :=
  match strip (list_ascii_of_string s) with
  | "-"%char :: rest => option_map Z.opp (unsigned rest)
  | "+"%char :: rest => unsigned rest
  | cs => unsigned cs
  end.

Definition int (v : json) : res Z :=
  match v with
  | JNum n => Ok n
  | JBool b => Ok (Z.b2z b)
  | JStr s =>
      match int_of_string s with
      | Some n => Ok n
      | None => Raise ValueError
      end
  | _ => Raise TypeError
  end.

(** [d.values()] of a value. *)
Definition values (d : json) : res (list json) :=
  match d with
  | JObj fields => Ok (dict_values fields)
  | _ => Raise AttributeError
  end.

(** A number that arithmetic yields: an [int] or a [float].  A [float] is
    an IEEE 754 binary64 number: 53 bits of precision, exponents below
    1024. *)
Inductive number : Type :=
| Int (n : Z)
| Float (x : spec_float).

(** An integer as the operand of a division, not rounded. *)
Definition operand (n : Z) : spec_float :=
  match n with
  | Z0 => S754_zero false
  | Zpos p => S754_finite false p 0
  | Zneg p => S754_finite true p 0
  end.

(** [a / b] for integers: the float nearest to the quotient (the quotient
    is rounded once, whatever the size of [a] and [b]); a quotient beyond
    the floats raises. *)
Definition int_truediv (a b : Z) : res spec_float :=
  if Z.eqb b 0 then Raise ZeroDivisionError
  else
    match SFdiv 53 1024 (operand a) (operand b) with
    | S754_infinity _ => Raise OverflowError
    | q => Ok q
    end.

(** [float(n)]: the float nearest to the integer. *)
Definition float_of_int (n : Z) : res spec_float :=
  match binary_normalize 53 1024 n 0 false with
  | S754_infinity _ => Raise OverflowError
  | x => Ok x
  end.

(** [n * x] for an integer and a float. *)
Definition int_mul_float (n : Z) (x : spec_float) : res spec_float :=
  and_then (float_of_int n) (fun f => Ok (SFmul 53 1024 f x)).

(** The double quote character. *)
Definition dq : string := String (ascii_of_nat 34) EmptyString.

(** [x + y]: numbers add, strings and lists concatenate with their like. *)
Definition add (x y : json) : res json :=
  match x, y with
  | JStr a, JStr b => Ok (JStr (a ++ b))
  | JArr a, JArr b => Ok (JArr (a ++ b))
  | _, _ =>
      match int_of x, int_of y with
      | Some a, Some b => Ok (JNum (a + b))
      | _, _ => Raise TypeError
      end
  end.

(** [s.split(sep)] for a separator of one character. *)
Fixpoint split (sep : ascii) (s : string) : list string :=
  match s with
  | EmptyString => [EmptyString]
  | String c rest =>
      if Ascii.eqb c sep then EmptyString :: split sep rest
      else
        match split sep rest with
        | piece :: pieces => String c piece :: pieces
        | [] => [String c EmptyString]
        end
  end.

(** The elements of [{f(x) for x in xs}], each once, in the order of their
    first occurrence (the order in which Python iterates over a set of
    strings varies from run to run). *)
Fixpoint set_of (xs : list string) : list string :=
  match xs with
  | [] => []
  | x :: rest =>
      x :: filter (fun y => negb (String.eqb y x)) (set_of rest)
  end.

End Py.
Import Py.

(* ================================================================= *)
(** ** Methods as state transformers *)

Definition M (W A : Type) : Type := W -> res A * W.

Definition ret {W A} (a : A) : M W A := fun w => (Ok a, w).
Definition raise {W A} (e : exn) : M W A := fun w => (Raise e, w).
Definition bind {W A B} (m : M W A) (k : A -> M W B) : M W B :=
  fun w =>
    match m w with
    | (Ok a, w') => k a w'
    | (Raise e, w') => (Raise e, w')
    | (Unfinished, w') => (Unfinished, w')
    end.
Definition unfinished {W A} : M W A := fun w => (Unfinished, w).
Definition lift {W A} (r : res A) : M W A := fun w => (r, w).
Definition gets {W A} (f : W -> A) : M W A := fun w => (Ok (f w), w).
Definition modify {W} (f : W -> W) : M W unit := fun w => (Ok tt, f w).

(** [try: m except Exception: h] *)
Definition try_except {W A} (m : M W A) (h : exn -> M W A) : M W A :=
  fun w =>
    match m w with
    | (Ok a, w') => (Ok a, w')
    | (Raise e, w') => h e w'
    | (Unfinished, w') => (Unfinished, w')
    end.

(** [try: m finally: f] *)
Definition try_finally {W A} (m : M W A) (f : W -> W) : M W A :=
  fun w =>
    match m w with
    | (Ok a, w') => (Ok a, f w')
    | (Raise e, w') => (Raise e, f w')
    | (Unfinished, w') => (Unfinished, w')
    end.

Declare Scope monad_scope.
Delimit Scope monad_scope with monad.
Notation "x <- m ;; k" := (bind m (fun x => k))
  (at level 61, m at next level, right associativity) : monad_scope.
Notation "m ;;; k" := (bind m (fun _ => k))
  (at level 61, right associativity) : monad_scope.
Notation "x <~ r ;; k" := (and_then r (fun x => k))
  (at level 61, r at next level, right associativity) : monad_scope.
Local Open Scope monad_scope.

(** [for x in xs: body x] *)
Fixpoint for_each {W A} (xs : list A) (body : A -> M W unit) : M W unit :=
  match xs with
  | [] => ret tt
  | x :: rest => body x ;;; for_each rest body
  end.

(** A method that ends, with a value or an exception, from any state. *)
Definition finishes {W A} (m : M W A) : Prop :=
  forall st, fst (m st) <> Unfinished.

(* ================================================================= *)
(** ** The outside world *)

(** What one HTTP exchange can come to.  For a POST to the GraphQL endpoint
    the client call and the decoding of the body stand under the same
    [try], so the exchange either fails or yields the decoded body ([JNull]
    for the body [null]).  For a GET the status is inspected before the body
    is decoded; [body = None] is a body whose decoding raises. *)
Inductive post_outcome : Type :=
| PostFailed
| PostDecoded (result : json).

Inductive get_outcome : Type :=
| GetFailed
| GetResponse (status : Z) (body : option json).

(** The two HTTP clients: the aiohttp session and the blocking [requests]
    module.  [Net] is the state of the network and of the remote service;
    a GET carries its path, whether the commit-search [Accept] header is
    set, and its query parameters. *)
Class Transport : Type := {
  Net : Type;
  session_post : string -> Net -> post_outcome * Net;
  requests_post : string -> Net -> post_outcome * Net;
  session_get :
    string -> bool -> list (string * json) -> Net -> get_outcome * Net;
  requests_get :
    string -> bool -> list (string * json) -> Net -> get_outcome * Net
}.

(** Lines written to standard output that the properties below refer to. *)
Inductive message : Type :=
| AiohttpFailedGraphQL
| Rest202 (path : string) (attempt : Z)
| Rest403 (path : string) (attempt : Z)
| Rest404 (path : string)
| AiohttpFailedRest (path : string)
| Fallback202 (path : string) (attempt : Z)
| Fallback403 (path : string) (attempt : Z)
| Fallback404 (path : string)
| BothFailed (path : string)
| TooManyRetries (path : string)
| NoContributionYears
| CommitsErrorEmail (email : string) (response : json)
| CommitsErrorUsername (username : string) (response : json)
| InvalidResponse (repo : json)
| ErrorProcessing (repo : json)
| ErrorProcessingViews (repo : json).

Inductive event : Type :=
| Post (document : string)
| PostSync (document : string)
| Get (path : string) (cloak : bool)
| GetSync (path : string) (cloak : bool)
| Sleep (seconds : Z)
| Print (line : message).

(** A transport that plays a script: each call takes the next outcome of
    its kind, whatever was asked; a client whose script has run out fails. *)
Record Script : Type := mkScript {
  async_posts : list post_outcome;
  sync_posts : list post_outcome;
  async_gets : list get_outcome;
  sync_gets : list get_outcome
}.

Definition next_post (l : list post_outcome) : post_outcome * list post_outcome :=
  match l with
  | [] => (PostFailed, [])
  | o :: rest => (o, rest)
  end.

Definition next_get (l : list get_outcome) : get_outcome * list get_outcome :=
  match l with
  | [] => (GetFailed, [])
  | o :: rest => (o, rest)
  end.

Definition scripted : Transport := {|
  Net := Script;
  session_post := fun _ n =>
    let '(o, rest) := next_post (async_posts n) in
    (o, mkScript rest (sync_posts n) (async_gets n) (sync_gets n));
  requests_post := fun _ n =>
    let '(o, rest) := next_post (sync_posts n) in
    (o, mkScript (async_posts n) rest (async_gets n) (sync_gets n));
  session_get := fun _ _ _ n =>
    let '(o, rest) := next_get (async_gets n) in
    (o, mkScript (async_posts n) (sync_posts n) rest (sync_gets n));
  requests_get := fun _ _ _ n =>
    let '(o, rest) := next_get (sync_gets n) in
    (o, mkScript (async_posts n) (sync_posts n) (async_gets n) rest)
|}.

(** A transport without state or failures: the answer is a function of
    the document or path. *)
Definition oracle (answer : string -> json) (resource : string -> get_outcome)
  : Transport := {|
  Net := unit;
  session_post := fun document n => (PostDecoded (answer document), n);
  requests_post := fun document n => (PostDecoded (answer document), n);
  session_get := fun path _ _ n => (resource path, n);
  requests_get := fun path _ _ n => (resource path, n)
|}.

Section TheWorld.

Context {T : Transport}.

(** The world: the network and the events so far, oldest first. *)
Record World : Type := mkWorld {
  net : Net;
  trace : list event
}.

Definition emit (e : event) (w : World) : World :=
  mkWorld (net w) (trace w ++ [e]).

Definition exchange {A} (e : event) (call : Net -> A * Net) (w : World)
  : A * World :=
  let '(a, n) := call (net w) in (a, mkWorld n (trace w ++ [e])).

End TheWorld.

(* ================================================================= *)
(** ** class Queries *)

Module Queries.
Section WithTransport.

Context {T : Transport}.

(** [Queries.query]: one GraphQL request.  The semaphore bounds the number
    of requests in flight and has no bearing on the result. *)
Definition query (generated_query : string) : M World json :=
  fun w =>
    match exchange (Post generated_query) (session_post generated_query) w with
    | (PostDecoded result, w1) =>
        if is_None result then (Ok empty_dict, w1) else (Ok result, w1)
    | (PostFailed, w1) =>
        let w2 := emit (Print AiohttpFailedGraphQL) w1 in
        match
          exchange (PostSync generated_query) (requests_post generated_query) w2
        with
        | (PostDecoded result, w3) =>
            if is_None result then (Ok empty_dict, w3) else (Ok result, w3)
        | (PostFailed, w3) => (Raise IOError, w3)
        end
    end.

(** One turn of the retry loop of [Queries.query_rest]: [Some v] when the
    turn returns [v], [None] when the loop goes on ([continue], or the end
    of the loop body).  [attempt] is the loop variable, [path] the path as
    already rewritten by this turn. *)
Definition rest_fallback (attempt : Z) (path : string) (cloak : bool)
    (params : list (string * json)) (w1 : World) : option json * World :=
  let w2 := emit (Print (AiohttpFailedRest path)) w1 in
  match exchange (GetSync path cloak) (requests_get path cloak params) w2 with
  | (GetResponse status body, w3) =>
      if Z.eqb status 202 then
        (None, emit (Sleep 2) (emit (Print (Fallback202 path (attempt + 1))) w3))
      else if Z.eqb status 403 then
        (None, emit (Sleep 5) (emit (Print (Fallback403 path (attempt + 1))) w3))
      else if Z.eqb status 404 then
        (Some empty_dict, emit (Print (Fallback404 path)) w3)
      else if Z.eqb status 200 then
        match body with
        | Some result_json =>
            if is_None result_json then (None, w3) else (Some result_json, w3)
        | None => (None, emit (Print (BothFailed path)) w3)
        end
      else (None, w3)
  | (GetFailed, w3) => (None, emit (Print (BothFailed path)) w3)
  end.

Definition rest_attempt (attempt : Z) (path : string) (cloak : bool)
    (params : list (string * json)) (w : World) : option json * World :=
  match exchange (Get path cloak) (session_get path cloak params) w with
  | (GetResponse status body, w1) =>
      if Z.eqb status 202 then
        (None, emit (Sleep 2) (emit (Print (Rest202 path (attempt + 1))) w1))
      else if Z.eqb status 403 then
        (None, emit (Sleep 5) (emit (Print (Rest403 path (attempt + 1))) w1))
      else if Z.eqb status 404 then
        (Some empty_dict, emit (Print (Rest404 path)) w1)
      else
        match body with
        | Some result =>
            if is_None result then (None, w1) else (Some result, w1)
        | None => rest_fallback attempt path cloak params w1
        end
  | (GetFailed, w1) => rest_fallback attempt path cloak params w1
  end.

(** [path[1:]] when [path.startswith("/")] *)
Definition strip_slash (path : string) : string :=
  match path with
  | String "/" rest => rest
  | _ => path
  end.

(** The loop [for attempt in range(60)], [remaining] turns before its end.
    Each turn tests the path for the commit-search header and strips one
    leading slash before it sends. *)
Fixpoint query_rest_loop (remaining : nat) (attempt : Z) (path : string)
    (params : list (string * json)) (w : World) : res json * World :=
  match remaining with
  | O => (Ok empty_dict, emit (Print (TooManyRetries path)) w)
  | S remaining' =>
      let cloak := is_substring "/search/commits" path in
      let path := strip_slash path in
      match rest_attempt attempt path cloak params w with
      | (Some result, w') => (Ok result, w')
      | (None, w') => query_rest_loop remaining' (attempt + 1) path params w'
      end
  end.

(** [Queries.query_rest] *)
Definition query_rest (path : string) (params : option (list (string * json)))
  : M World json :=
  query_rest_loop 60 0 path
    (match params with Some p => p | None => [] end).

(** [Queries.summary_query] *)
Definition summary_query : string :=
"query {
  viewer {
    login
    name
    repositories(first: 100, ownerAffiliations: OWNER, isFork: false) {
      totalCount
      edges {
        node {
          stargazers {
            totalCount
          }
          forkCount
        }
      }
    }
    pullRequests(first: 1) {
      totalCount
    }
    issues(first: 1) {
        totalCount
    }
    contributionsCollection {
      totalCommitContributions
      restrictedContributionsCount
    }
  }
}
".

(** ["null" if cursor is None else '"' + cursor + '"'] *)
Definition after_arg (cursor : json) : res string :=
  match cursor with
  | JNull => Ok "null"
  | JStr c => Ok (dq ++ c ++ dq)
  | _ => Raise TypeError
  end.

Definition overview_fields : string :=
"      pageInfo {
        hasNextPage
        endCursor
      }
      nodes {
        nameWithOwner
        stargazers {
          totalCount
        }
        forkCount
        languages(first: 10, orderBy: {field: SIZE, direction: DESC}) {
          edges {
            size
            node {
              name
              color
            }
          }
        }
      }
    }
".

(** [Queries.repos_overview] *)
Definition repos_overview (contrib_cursor owned_cursor : json) : res string :=
  match after_arg owned_cursor with
  | Ok owned =>
      match after_arg contrib_cursor with
      | Ok contrib =>
          Ok ("{
  viewer {
    login
    name
    repositories(
        first: 100,
        orderBy: {
            field: UPDATED_AT,
            direction: DESC
        },
        isFork: false,
        after: " ++ owned ++ "
    ) {
" ++ overview_fields ++ "    repositoriesContributedTo(
        first: 100,
        includeUserRepositories: false,
        orderBy: {
            field: UPDATED_AT,
            direction: DESC
        },
        contributionTypes: [
            COMMIT,
            PULL_REQUEST,
            REPOSITORY,
            PULL_REQUEST_REVIEW
        ]
        after: " ++ contrib ++ "
    ) {
" ++ overview_fields ++ "  }
}
")
      | Raise e => Raise e
      | Unfinished => Unfinished
      end
  | Raise e => Raise e
  | Unfinished => Unfinished
  end.

(** [Queries.contrib_years] *)
Definition contrib_years : string :=
"
query {
  viewer {
    contributionsCollection {
      contributionYears
    }
  }
}
".

(** [Queries.contribs_by_year] *)
Definition contribs_by_year (year : json) : res string :=
  match int year with
  | Ok n =>
      Ok ("
    year" ++ str_of year ++ ": contributionsCollection(
        from: " ++ dq ++ str_of year ++ "-01-01T00:00:00Z" ++ dq ++ ",
        to: " ++ dq ++ str_of_Z (n + 1) ++ "-01-01T00:00:00Z" ++ dq ++ "
    ) {
      contributionCalendar {
        totalContributions
      }
    }
")
  | Raise e => Raise e
  | Unfinished => Unfinished
  end.

(** [map(f, xs)] for an [f] that may raise. *)
Fixpoint map_res {A B} (f : A -> res B) (xs : list A) : res (list B) :=
  match xs with
  | [] => Ok []
  | x :: rest =>
      match f x with
      | Ok y =>
          match map_res f rest with
          | Ok ys => Ok (y :: ys)
          | Raise e => Raise e
          | Unfinished => Unfinished
          end
      | Raise e => Raise e
      | Unfinished => Unfinished
      end
  end.

(** [sep.join(parts)] *)
Fixpoint join (sep : string) (parts : list string) : string :=
  match parts with
  | [] => ""
  | [p] => p
  | p :: rest => p ++ sep ++ join sep rest
  end.

Definition newline : string := "
".

(** [Queries.all_contribs] *)
Definition all_contribs (years : json) : res string :=
  match iter years with
  | Ok ys =>
      match map_res contribs_by_year ys with
      | Ok parts =>
          Ok ("
query {
  viewer {
    " ++ join newline parts ++ "
  }
}
")
      | Raise e => Raise e
      | Unfinished => Unfinished
      end
  | Raise e => Raise e
  | Unfinished => Unfinished
  end.

End WithTransport.
End Queries.

(* ================================================================= *)
(** ** class Stats *)

Module Stats.

(** One value of the [_languages] dict.  [size] holds whatever the first
    edge of the language carried, later edges are added to it with [+=];
    [prop] is absent until the proportions are computed. *)
Record lang_entry : Type := mkLang {
  size : json;
  occurrences : Z;
  color : json;
  prop : option number
}.

(** The attributes of a [Stats] object.  [_name], [_forks_made], [_prs] and
    [_issues] hold values taken from responses as they are, [JNull] being
    [None]; the lock is [None] until [get_stats] creates it, then
    [Some locked]. *)
Record Self : Type := mkSelf {
  username : string;
  _ignore_forked_repos : bool;
  _exclude_repos : list string;
  _exclude_langs : list string;
  _emails : option (list string);
  _name : json;
  _stargazers : option Z;
  _forks : option Z;
  _forks_made : json;
  _total_contributions : option Z;
  _total_commits : option Z;
  _prs : json;
  _issues : json;
  _languages : option (list (string * lang_entry));
  _repos : option pyset;
  _lines_changed : option (Z * Z);
  _views : option Z;
  _stats_lock : option bool;
  _stats_fetched : bool
}.

(** [Stats.__init__] *)
Definition init (username : string) (exclude_repos exclude_langs : option (list string))
    (ignore_forked_repos : bool) (emails : option (list string)) : Self :=
  {| username := username;
     _ignore_forked_repos := ignore_forked_repos;
     _exclude_repos := match exclude_repos with Some s => s | None => [] end;
     _exclude_langs := match exclude_langs with Some s => s | None => [] end;
     _emails := emails;
     _name := JNull;
     _stargazers := None;
     _forks := None;
     _forks_made := JNull;
     _total_contributions := None;
     _total_commits := None;
     _prs := JNull;
     _issues := JNull;
     _languages := None;
     _repos := None;
     _lines_changed := None;
     _views := None;
     _stats_lock := None;
     _stats_fetched := false |}.

(** Attribute assignment. *)
Definition set_name (v : json) (s : Self) : Self :=
  mkSelf (username s) (_ignore_forked_repos s) (_exclude_repos s)
    (_exclude_langs s) (_emails s) v (_stargazers s) (_forks s)
    (_forks_made s) (_total_contributions s) (_total_commits s) (_prs s)
    (_issues s) (_languages s) (_repos s) (_lines_changed s) (_views s)
    (_stats_lock s) (_stats_fetched s).
Definition set_stargazers (v : option Z) (s : Self) : Self :=
  mkSelf (username s) (_ignore_forked_repos s) (_exclude_repos s)
    (_exclude_langs s) (_emails s) (_name s) v (_forks s)
    (_forks_made s) (_total_contributions s) (_total_commits s) (_prs s)
    (_issues s) (_languages s) (_repos s) (_lines_changed s) (_views s)
    (_stats_lock s) (_stats_fetched s).
Definition set_forks (v : option Z) (s : Self) : Self :=
  mkSelf (username s) (_ignore_forked_repos s) (_exclude_repos s)
    (_exclude_langs s) (_emails s) (_name s) (_stargazers s) v
    (_forks_made s) (_total_contributions s) (_total_commits s) (_prs s)
    (_issues s) (_languages s) (_repos s) (_lines_changed s) (_views s)
    (_stats_lock s) (_stats_fetched s).
Definition set_forks_made (v : json) (s : Self) : Self :=
  mkSelf (username s) (_ignore_forked_repos s) (_exclude_repos s)
    (_exclude_langs s) (_emails s) (_name s) (_stargazers s) (_forks s)
    v (_total_contributions s) (_total_commits s) (_prs s)
    (_issues s) (_languages s) (_repos s) (_lines_changed s) (_views s)
    (_stats_lock s) (_stats_fetched s).
Definition set_total_contributions (v : option Z) (s : Self) : Self :=
  mkSelf (username s) (_ignore_forked_repos s) (_exclude_repos s)
    (_exclude_langs s) (_emails s) (_name s) (_stargazers s) (_forks s)
    (_forks_made s) v (_total_commits s) (_prs s)
    (_issues s) (_languages s) (_repos s) (_lines_changed s) (_views s)
    (_stats_lock s) (_stats_fetched s).
Definition set_total_commits (v : option Z) (s : Self) : Self :=
  mkSelf (username s) (_ignore_forked_repos s) (_exclude_repos s)
    (_exclude_langs s) (_emails s) (_name s) (_stargazers s) (_forks s)
    (_forks_made s) (_total_contributions s) v (_prs s)
    (_issues s) (_languages s) (_repos s) (_lines_changed s) (_views s)
    (_stats_lock s) (_stats_fetched s).
Definition set_prs (v : json) (s : Self) : Self :=
  mkSelf (username s) (_ignore_forked_repos s) (_exclude_repos s)
    (_exclude_langs s) (_emails s) (_name s) (_stargazers s) (_forks s)
    (_forks_made s) (_total_contributions s) (_total_commits s) v
    (_issues s) (_languages s) (_repos s) (_lines_changed s) (_views s)
    (_stats_lock s) (_stats_fetched s).
Definition set_issues (v : json) (s : Self) : Self :=
  mkSelf (username s) (_ignore_forked_repos s) (_exclude_repos s)
    (_exclude_langs s) (_emails s) (_name s) (_stargazers s) (_forks s)
    (_forks_made s) (_total_contributions s) (_total_commits s) (_prs s)
    v (_languages s) (_repos s) (_lines_changed s) (_views s)
    (_stats_lock s) (_stats_fetched s).
Definition set_languages (v : option (list (string * lang_entry))) (s : Self)
  : Self :=
  mkSelf (username s) (_ignore_forked_repos s) (_exclude_repos s)
    (_exclude_langs s) (_emails s) (_name s) (_stargazers s) (_forks s)
    (_forks_made s) (_total_contributions s) (_total_commits s) (_prs s)
    (_issues s) v (_repos s) (_lines_changed s) (_views s)
    (_stats_lock s) (_stats_fetched s).
Definition set_repos (v : option pyset) (s : Self) : Self :=
  mkSelf (username s) (_ignore_forked_repos s) (_exclude_repos s)
    (_exclude_langs s) (_emails s) (_name s) (_stargazers s) (_forks s)
    (_forks_made s) (_total_contributions s) (_total_commits s) (_prs s)
    (_issues s) (_languages s) v (_lines_changed s) (_views s)
    (_stats_lock s) (_stats_fetched s).
Definition set_lines_changed (v : option (Z * Z)) (s : Self) : Self :=
  mkSelf (username s) (_ignore_forked_repos s) (_exclude_repos s)
    (_exclude_langs s) (_emails s) (_name s) (_stargazers s) (_forks s)
    (_forks_made s) (_total_contributions s) (_total_commits s) (_prs s)
    (_issues s) (_languages s) (_repos s) v (_views s)
    (_stats_lock s) (_stats_fetched s).
Definition set_views (v : option Z) (s : Self) : Self :=
  mkSelf (username s) (_ignore_forked_repos s) (_exclude_repos s)
    (_exclude_langs s) (_emails s) (_name s) (_stargazers s) (_forks s)
    (_forks_made s) (_total_contributions s) (_total_commits s) (_prs s)
    (_issues s) (_languages s) (_repos s) (_lines_changed s) v
    (_stats_lock s) (_stats_fetched s).
Definition set_stats_lock (v : option bool) (s : Self) : Self :=
  mkSelf (username s) (_ignore_forked_repos s) (_exclude_repos s)
    (_exclude_langs s) (_emails s) (_name s) (_stargazers s) (_forks s)
    (_forks_made s) (_total_contributions s) (_total_commits s) (_prs s)
    (_issues s) (_languages s) (_repos s) (_lines_changed s) (_views s)
    v (_stats_fetched s).
Definition set_stats_fetched (v : bool) (s : Self) : Self :=
  mkSelf (username s) (_ignore_forked_repos s) (_exclude_repos s)
    (_exclude_langs s) (_emails s) (_name s) (_stargazers s) (_forks s)
    (_forks_made s) (_total_contributions s) (_total_commits s) (_prs s)
    (_issues s) (_languages s) (_repos s) (_lines_changed s) (_views s)
    (_stats_lock s) v.

Section WithTransport.

Context {T : Transport} {U : Unicode}.

(** The state a method runs in: the object and the world. *)
Definition St : Type := (Self * World)%type.

Definition attr {A} (f : Self -> A) : M St A := fun st => (Ok (f (fst st)), st).
Definition assign (f : Self -> Self) : M St unit :=
  fun st => (Ok tt, (f (fst st), snd st)).
(** A call into [self.queries]. *)
Definition io {A} (m : M World A) : M St A :=
  fun st => let '(r, w) := m (snd st) in (r, (fst st, w)).
Definition say (line : message) : M St unit :=
  fun st => (Ok tt, (fst st, emit (Print line) (snd st))).

(** [assert c] *)
Definition assert (c : bool) : M St unit :=
  if c then ret tt else raise AssertionError.

(** A value that has to be there ([None] where a set or dict is used). *)
Definition the {A} (o : option A) : M St A :=
  match o with Some a => ret a | None => raise TypeError end.

(** [raw_results.get("data", {}).get("viewer", {})] *)
Definition viewer_of (raw_results : json) : res json :=
  match get raw_results "data" empty_dict with
  | Ok data => get data "viewer" empty_dict
  | other => other
  end.

(** The [_languages] dict: lookup, in-place update and insertion of a new
    key (at the end, as dicts keep insertion order). *)
Fixpoint lang_find (k : string) (d : list (string * lang_entry))
  : option lang_entry :=
  match d with
  | [] => None
  | (k', e) :: rest => if String.eqb k k' then Some e else lang_find k rest
  end.

Fixpoint lang_store (k : string) (e : lang_entry)
    (d : list (string * lang_entry)) : list (string * lang_entry) :=
  match d with
  | [] => [(k, e)]
  | (k', e') :: rest =>
      if String.eqb k k' then (k', e) :: rest
      else (k', e') :: lang_store k e rest
  end.

(** The body of [for lang in repo_langs]. *)
Definition add_language (exclude_langs_lower : list string) (lang : json)
  : M St unit :=
  node <- lift (get lang "node" empty_dict) ;;
  lang_name <- lift (get node "name" (JStr "Other")) ;;
  lang_size <- lift (get lang "size" (JNum 0)) ;;
  match lang_name with
  | JStr n =>
      if existsb (String.eqb (lower n)) exclude_langs_lower then ret tt
      else
        o <- attr _languages ;;
        languages <- the o ;;
        match lang_find n languages with
        | Some e =>
            sz <- lift (iadd (size e) lang_size) ;;
            assign (set_languages (Some (lang_store n
              (mkLang sz (occurrences e + 1) (color e) (prop e)) languages)))
        | None =>
            node' <- lift (get lang "node" empty_dict) ;;
            c <- lift (get node' "color" JNull) ;;
            assign (set_languages (Some (lang_store n
              (mkLang lang_size 1 c None) languages)))
        end
  | _ => raise AttributeError
  end.

(** The list comprehension [lang_names], evaluated for its exceptions. *)
Definition lang_names_entry (entry : json) : M St unit :=
  node <- lift (get entry "node" empty_dict) ;;
  _ <- lift (get node "name" (JStr "?")) ;;
  ret tt.

(** The body of [for repo in repos]. *)
Definition add_repo (exclude_langs_lower : list string) (repo : json)
  : M St unit :=
  if is_None repo then ret tt
  else
    name <- lift (get repo "nameWithOwner" JNull) ;;
    o <- attr _repos ;;
    repos <- the o ;;
    seen <- lift (set_contains name repos) ;;
    excluded <- attr _exclude_repos ;;
    if seen || in_strings name excluded then ret tt
    else
      assign (set_repos (Some (repos ++ [name])%list)) ;;;
      o <- attr _stargazers ;;
      stars <- the o ;;
      sg <- lift (get repo "stargazers" empty_dict) ;;
      count <- lift (get sg "totalCount" (JNum 0)) ;;
      stars' <- lift (int_iadd stars count) ;;
      assign (set_stargazers (Some stars')) ;;;
      o <- attr _forks ;;
      forks <- the o ;;
      fc <- lift (get repo "forkCount" (JNum 0)) ;;
      forks' <- lift (int_iadd forks fc) ;;
      assign (set_forks (Some forks')) ;;;
      ls <- lift (get repo "languages" empty_dict) ;;
      repo_langs <- lift (get ls "edges" (JArr [])) ;;
      (if truthy repo_langs then
         entries <- lift (iter repo_langs) ;;
         for_each entries lang_names_entry
       else ret tt) ;;;
      edges <- lift (iter repo_langs) ;;
      for_each edges (add_language exclude_langs_lower).

(** One turn of [while True], from the response on: [Some] of the next
    cursors when the loop goes on, [None] at [break]. *)
Definition read_page (exclude_langs_lower : list string)
    (raw_results next_owned next_contrib : json)
  : M St (option (json * json)) :=
  let raw_results := if is_None raw_results then empty_dict else raw_results in
  v <- lift (viewer_of raw_results) ;;
  n <- lift (get v "name" JNull) ;;
  assign (set_name n) ;;;
  (if is_None n then
     v <- lift (viewer_of raw_results) ;;
     l <- lift (get v "login" (JStr "No Name")) ;;
     assign (set_name l)
   else ret tt) ;;;
  v <- lift (viewer_of raw_results) ;;
  contrib_repos <- lift (get v "repositoriesContributedTo" empty_dict) ;;
  v <- lift (viewer_of raw_results) ;;
  owned_repos <- lift (get v "repositories" empty_dict) ;;
  repos <- lift (get owned_repos "nodes" (JArr [])) ;;
  ignore <- attr _ignore_forked_repos ;;
  repos <- (if negb ignore then
              more <- lift (get contrib_repos "nodes" (JArr [])) ;;
              lift (iadd repos more)
            else ret repos) ;;
  items <- lift (iter repos) ;;
  for_each items (add_repo exclude_langs_lower) ;;;
  pi <- lift (get owned_repos "pageInfo" empty_dict) ;;
  h <- lift (get pi "hasNextPage" (JBool false)) ;;
  more <- (if truthy h then ret true
           else
             pi <- lift (get contrib_repos "pageInfo" empty_dict) ;;
             h <- lift (get pi "hasNextPage" (JBool false)) ;;
             ret (truthy h)) ;;
  if (more : bool) then
    pi <- lift (get owned_repos "pageInfo" empty_dict) ;;
    next_owned <- lift (get pi "endCursor" next_owned) ;;
    pi <- lift (get contrib_repos "pageInfo" empty_dict) ;;
    next_contrib <- lift (get pi "endCursor" next_contrib) ;;
    ret (Some (next_owned, next_contrib))
  else ret None.

(** [while True], at most [fuel] turns of it. *)
Fixpoint fetch_pages (fuel : nat) (exclude_langs_lower : list string)
    (next_owned next_contrib : json) : M St unit :=
  match fuel with
  | O => unfinished
  | S fuel' =>
      document <- lift (Queries.repos_overview next_contrib next_owned) ;;
      raw_results <- io (Queries.query document) ;;
      r <- read_page exclude_langs_lower raw_results next_owned next_contrib ;;
      match r with
      | Some (next_owned, next_contrib) =>
          fetch_pages fuel' exclude_langs_lower next_owned next_contrib
      | None => ret tt
      end
  end.

(** [sum(values)] *)
Fixpoint py_sum (acc : Z) (values : list json) : res Z :=
  match values with
  | [] => Ok acc
  | v :: rest =>
      match int_iadd acc v with
      | Ok acc' => py_sum acc' rest
      | other => other
      end
  end.

(** [100 * (size / langs_total) if langs_total > 0 else 0] *)
Definition proportion (sz : json) (langs_total : Z) : res number :=
  if Z.ltb 0 langs_total then
    match int_of sz with
    | Some n =>
        and_then (int_truediv n langs_total) (fun q =>
        and_then (int_mul_float 100 q) (fun p => Ok (Float p)))
    | None => Raise TypeError
    end
  else Ok (Int 0).

(** The loop that stores ["prop"] in every entry. *)
Fixpoint set_props (langs_total : Z) (done todo : list (string * lang_entry))
  : M St unit :=
  match todo with
  | [] => ret tt
  | (k, v) :: rest =>
      p <- lift (proportion (size v) langs_total) ;;
      let v' := mkLang (size v) (occurrences v) (color v) (Some p) in
      assign (set_languages (Some (done ++ (k, v') :: rest)%list)) ;;;
      set_props langs_total (done ++ [(k, v')])%list rest
  end.

(** The part of [get_stats] after the loop. *)
Definition finish : M St unit :=
  o <- attr _languages ;;
  languages <- the o ;;
  langs_total <- lift (py_sum 0 (map (fun kv => size (snd kv)) languages)) ;;
  set_props langs_total [] languages ;;;
  assign (set_stats_fetched true).

(** The part of [get_stats] before the loop. *)
Definition start : M St (list string) :=
  assign (set_stargazers (Some 0)) ;;;
  assign (set_forks (Some 0)) ;;;
  assign (set_languages (Some [])) ;;;
  assign (set_repos (Some [])) ;;;
  excluded <- attr _exclude_langs ;;
  ret (map lower excluded).

(** The block under [async with self._stats_lock]. *)
Definition locked_block (fuel : nat) : M St unit :=
  fetched <- attr _stats_fetched ;;
  if (fetched : bool) then ret tt
  else
    exclude_langs_lower <- start ;;
    fetch_pages fuel exclude_langs_lower JNull JNull ;;;
    finish.

(** [Stats.get_stats].  Run on its own, a call that finds the lock taken
    waits for a release that nothing is there to perform. *)
Definition get_stats (fuel : nat) : M St unit :=
  lock <- attr _stats_lock ;;
  (match lock with
   | None => assign (set_stats_lock (Some false))
   | Some _ => ret tt
   end) ;;;
  lock <- attr _stats_lock ;;
  match lock with
  | Some true => unfinished
  | _ =>
      assign (set_stats_lock (Some true)) ;;;
      try_finally (locked_block fuel)
        (fun st => (set_stats_lock (Some false) (fst st), snd st))
  end.

(** The accessors that [get_stats] backs. *)
Definition name (fuel : nat) : M St json :=
  n <- attr _name ;;
  if negb (is_None n) then ret n
  else
    get_stats fuel ;;;
    n <- attr _name ;;
    assert (negb (is_None n)) ;;;
    ret n.

Definition stargazers (fuel : nat) : M St Z :=
  o <- attr _stargazers ;;
  match o with
  | Some n => ret n
  | None =>
      get_stats fuel ;;;
      o <- attr _stargazers ;;
      match o with
      | Some n => ret n
      | None => raise AssertionError
      end
  end.

Definition languages (fuel : nat) : M St (list (string * lang_entry)) :=
  o <- attr _languages ;;
  match o with
  | Some d => ret d
  | None =>
      get_stats fuel ;;;
      o <- attr _languages ;;
      match o with
      | Some d => ret d
      | None => raise AssertionError
      end
  end.

(** [v.get("prop", 0)] *)
Definition prop_or_0 (v : lang_entry) : number :=
  match prop v with Some p => p | None => Int 0 end.

Definition languages_proportional (fuel : nat)
  : M St (list (string * number)) :=
  o <- attr _languages ;;
  (match o with
   | Some _ => ret tt
   | None =>
       get_stats fuel ;;;
       o <- attr _languages ;;
       match o with
       | Some _ => ret tt
       | None => raise AssertionError
       end
   end) ;;;
  o <- attr _languages ;;
  d <- the o ;;
  ret (map (fun kv => (fst kv, prop_or_0 (snd kv))) d).

Definition repos (fuel : nat) : M St pyset :=
  o <- attr _repos ;;
  match o with
  | Some r => ret r
  | None =>
      get_stats fuel ;;;
      o <- attr _repos ;;
      match o with
      | Some r => ret r
      | None => raise AssertionError
      end
  end.

(** [Stats.get_summary_stats] *)
Definition get_summary_stats : M St unit :=
  raw_results <- io (Queries.query Queries.summary_query) ;;
  if is_None raw_results then ret tt
  else
    viewer <- lift (viewer_of raw_results) ;;
    if negb (truthy viewer) then ret tt
    else
      n <- attr _name ;;
      (if is_None n then
         v <- lift (get viewer "name" JNull) ;;
         if truthy v then assign (set_name v)
         else
           l <- lift (get viewer "login" (JStr "No Name")) ;;
           assign (set_name l)
       else ret tt) ;;;
      pr <- lift (get viewer "pullRequests" empty_dict) ;;
      c <- lift (get pr "totalCount" (JNum 0)) ;;
      assign (set_prs c) ;;;
      iss <- lift (get viewer "issues" empty_dict) ;;
      c <- lift (get iss "totalCount" (JNum 0)) ;;
      assign (set_issues c).

Definition prs : M St json :=
  v <- attr _prs ;;
  if negb (is_None v) then ret v
  else
    get_summary_stats ;;;
    v <- attr _prs ;;
    assert (negb (is_None v)) ;;;
    ret v.

Definition issues : M St json :=
  v <- attr _issues ;;
  if negb (is_None v) then ret v
  else
    get_summary_stats ;;;
    v <- attr _issues ;;
    assert (negb (is_None v)) ;;;
    ret v.

(** The query of [get_user_forks]. *)
Definition forks_query (cursor : json) : res string :=
  match Queries.after_arg cursor with
  | Ok after =>
      Ok ("
query {
  viewer {
    repositories(first: 100, isFork: true, ownerAffiliations: OWNER, after: "
 ++ after ++ ") {
      totalCount
      pageInfo {
        hasNextPage
        endCursor
      }
      nodes {
        nameWithOwner
        parent {
          nameWithOwner
        }
      }
    }
  }
}
")
  | Raise e => Raise e
  | Unfinished => Unfinished
  end.

(** [while True] of [get_user_forks]: [Some total] at [break], [None] when
    the method returned from inside the loop. *)
Fixpoint forks_pages (fuel : nat) (total_forks cursor : json)
  : M St (option json) :=
  match fuel with
  | O => unfinished
  | S fuel' =>
      document <- lift (forks_query cursor) ;;
      raw_results <- io (Queries.query document) ;;
      if is_None raw_results then
        assign (set_forks_made (JNum 0)) ;;; ret None
      else
        viewer <- lift (viewer_of raw_results) ;;
        if negb (truthy viewer) then
          assign (set_forks_made (JNum 0)) ;;; ret None
        else
          repositories <- lift (get viewer "repositories" empty_dict) ;;
          total_forks <- (if is_None cursor
                          then lift (get repositories "totalCount" (JNum 0))
                          else ret total_forks) ;;
          page_info <- lift (get repositories "pageInfo" empty_dict) ;;
          h <- lift (get page_info "hasNextPage" JNull) ;;
          if truthy h then
            cursor <- lift (get page_info "endCursor" JNull) ;;
            forks_pages fuel' total_forks cursor
          else ret (Some total_forks)
  end.

(** [Stats.get_user_forks] *)
Definition get_user_forks (fuel : nat) : M St unit :=
  made <- attr _forks_made ;;
  if negb (is_None made) then ret tt
  else
    r <- forks_pages fuel (JNum 0) JNull ;;
    match r with
    | Some total_forks => assign (set_forks_made total_forks)
    | None => ret tt
    end.

Definition forks_made (fuel : nat) : M St json :=
  made <- attr _forks_made ;;
  if negb (is_None made) then ret made
  else
    get_user_forks fuel ;;;
    made <- attr _forks_made ;;
    assert (negb (is_None made)) ;;;
    ret made.

Definition forks (fuel : nat) : M St Z :=
  o <- attr _forks ;;
  (match o with
   | None => get_stats fuel
   | Some _ => ret tt
   end) ;;;
  o <- attr _forks ;;
  match o with
  | None => raise AssertionError
  | Some forks_received =>
      made <- forks_made fuel ;;
      lift (int_iadd forks_received made)
  end.

(** [Stats.total_contributions] *)
Definition total_contributions : M St Z :=
  o <- attr _total_contributions ;;
  match o with
  | Some n => ret n
  | None =>
      assign (set_total_contributions (Some 0)) ;;;
      r <- io (Queries.query Queries.contrib_years) ;;
      v <- lift (viewer_of r) ;;
      cc <- lift (get v "contributionsCollection" empty_dict) ;;
      years <- lift (get cc "contributionYears" (JArr [])) ;;
      if negb (truthy years) then
        say NoContributionYears ;;; ret 0
      else
        document <- lift (Queries.all_contribs years) ;;
        r <- io (Queries.query document) ;;
        v <- lift (viewer_of r) ;;
        by_year <- lift (values v) ;;
        for_each by_year (fun year =>
          cal <- lift (get year "contributionCalendar" empty_dict) ;;
          contrib <- lift (get cal "totalContributions" (JNum 0)) ;;
          o <- attr _total_contributions ;;
          total <- the o ;;
          total' <- lift (int_iadd total contrib) ;;
          assign (set_total_contributions (Some total'))) ;;;
        o <- attr _total_contributions ;;
        the o
  end.

(** *** Lines changed and views

    The running totals are local variables; what a repository added to them
    before an exception stays added.  The processing of one response is
    therefore a computation on the totals alone. *)

(** [additions += week.get("a", 0); deletions += week.get("d", 0)] *)
Definition add_week (week : json) : M (Z * Z) unit :=
  if is_dict week then
    a <- lift (get week "a" (JNum 0)) ;;
    additions <- gets fst ;;
    additions' <- lift (int_iadd additions a) ;;
    modify (fun t => (additions', snd t)) ;;;
    d <- lift (get week "d" (JNum 0)) ;;
    deletions <- gets snd ;;
    deletions' <- lift (int_iadd deletions d) ;;
    modify (fun t => (fst t, deletions'))
  else ret tt.

(** The body of [for author_obj in r]. *)
Definition add_author (username : string) (author_obj : json)
  : M (Z * Z) unit :=
  if negb (is_dict author_obj) then ret tt
  else
    a <- lift (get author_obj "author" empty_dict) ;;
    if negb (is_dict a) then ret tt
    else
      a <- lift (get author_obj "author" empty_dict) ;;
      login <- lift (get a "login" (JStr "")) ;;
      author <- lift (str_lower login) ;;
      if negb (String.eqb author (lower username)) then ret tt
      else
        weeks <- lift (get author_obj "weeks" (JArr [])) ;;
        match weeks with
        | JArr ws => for_each ws add_week
        | _ => ret tt
        end.

(** The body of [for i, repo in enumerate(repos)] in [lines_changed]. *)
Definition lines_of_repo (repo : json) (totals : Z * Z) : M St (Z * Z) :=
  username <- attr username ;;
  r <- io (Queries.query_rest
             ("/repos/" ++ str_of repo ++ "/stats/contributors") None) ;;
  match r with
  | JArr ((_ :: _) as authors) =>
      match for_each authors (add_author username) totals with
      | (Ok _, totals') => ret totals'
      | (Raise _, totals') => say (ErrorProcessing repo) ;;; ret totals'
      | (Unfinished, _) => unfinished
      end
  | _ => say (InvalidResponse repo) ;;; ret totals
  end.

Fixpoint lines_loop (repos : list json) (totals : Z * Z) : M St (Z * Z) :=
  match repos with
  | [] => ret totals
  | repo :: rest =>
      totals' <- lines_of_repo repo totals ;;
      lines_loop rest totals'
  end.

(** [Stats.lines_changed] *)
Definition lines_changed (fuel : nat) : M St (Z * Z) :=
  o <- attr _lines_changed ;;
  match o with
  | Some t => ret t
  | None =>
      rs <- repos fuel ;;
      totals <- lines_loop rs (0, 0) ;;
      assign (set_lines_changed (Some totals)) ;;;
      ret totals
  end.

(** [total += view.get("count", 0)] *)
Definition add_view (view : json) : M Z unit :=
  if is_dict view then
    c <- lift (get view "count" (JNum 0)) ;;
    total <- gets id ;;
    total' <- lift (int_iadd total c) ;;
    modify (fun _ => total')
  else ret tt.

(** The body of [for i, repo in enumerate(repos)] in [views]. *)
Definition views_of_repo (repo : json) (total : Z) : M St Z :=
  r <- io (Queries.query_rest
             ("/repos/" ++ str_of repo ++ "/traffic/views") None) ;;
  match r with
  | JObj (_ :: _) =>
      match
        (views_data <- lift (get r "views" (JArr [])) ;;
         match views_data with
         | JArr vs => for_each vs add_view
         | _ => ret tt
         end) total
      with
      | (Ok _, total') => ret total'
      | (Raise _, total') => say (ErrorProcessingViews repo) ;;; ret total'
      | (Unfinished, _) => unfinished
      end
  | _ => say (InvalidResponse repo) ;;; ret total
  end.

Fixpoint views_loop (repos : list json) (total : Z) : M St Z :=
  match repos with
  | [] => ret total
  | repo :: rest =>
      total' <- views_of_repo repo total ;;
      views_loop rest total'
  end.

(** [Stats.views] *)
Definition views (fuel : nat) : M St Z :=
  o <- attr _views ;;
  match o with
  | Some t => ret t
  | None =>
      rs <- repos fuel ;;
      total <- views_loop rs 0 ;;
      assign (set_views (Some total)) ;;;
      ret total
  end.

(** *** Total commits *)

(** The document built inside [for email in self._emails]. *)
Definition commits_query_email (username : string) : string :=
"
                query {
                  user(login: " ++ dq ++ username ++ dq ++ ") {
                    contributionsCollection {
                      totalCommitContributions
                    }
                  }
                }
                ".

(** The document built when no emails were given. *)
Definition commits_query_username (username : string) : string :=
"
            query {
              user(login: " ++ dq ++ username ++ dq ++ ") {
                contributionsCollection {
                  totalCommitContributions
                }
              }
            }
            ".

(** ["data" in response and "user" in response["data"]] *)
Definition has_user (response : json) : res bool :=
  match contains_str "data" response with
  | Ok true =>
      match getitem response "data" with
      | Ok data => contains_str "user" data
      | Raise e => Raise e
      | Unfinished => Unfinished
      end
  | other => other
  end.

(** [response["data"]["user"]["contributionsCollection"]["totalCommitContributions"]] *)
Definition commit_count (response : json) : res json :=
  match getitem response "data" with
  | Ok data =>
      match getitem data "user" with
      | Ok user =>
          match getitem user "contributionsCollection" with
          | Ok cc => getitem cc "totalCommitContributions"
          | other => other
          end
      | other => other
      end
  | other => other
  end.

(** [for email in self._emails] *)
Fixpoint commits_loop (emails : list string) (total_commits : Z) : M St Z :=
  match emails with
  | [] => ret total_commits
  | email :: rest =>
      username <- attr username ;;
      response <- io (Queries.query (commits_query_email username)) ;;
      ok <- lift (has_user response) ;;
      if (ok : bool) then
        total_commit <- lift (commit_count response) ;;
        total_commits' <- lift (int_iadd total_commits total_commit) ;;
        commits_loop rest total_commits'
      else
        say (CommitsErrorEmail email response) ;;;
        commits_loop rest total_commits
  end.

(** [Stats.total_commits] *)
Definition total_commits : M St json :=
  emails <- attr _emails ;;
  match emails with
  | Some ((_ :: _) as es) =>
      n <- commits_loop es 0 ;;
      ret (JNum n)
  | _ =>
      username <- attr username ;;
      response <- io (Queries.query (commits_query_username username)) ;;
      ok <- lift (has_user response) ;;
      if (ok : bool) then lift (commit_count response)
      else
        say (CommitsErrorUsername username response) ;;;
        ret (JNum 0)
  end.

(** *** Commits of all years *)

(** The document built inside [for year in years]. *)
Definition year_commits_query (year : json) : res string :=
  match int year with
  | Ok n =>
      Ok ("
query {
  viewer {
    contributionsCollection(from: " ++ dq ++ str_of year
          ++ "-01-01T00:00:00Z" ++ dq ++ ", to: " ++ dq ++ str_of_Z (n + 1)
          ++ "-01-01T00:00:00Z" ++ dq ++ ") {
      totalCommitContributions
      restrictedContributionsCount
    }
  }
}
")
  | Raise e => Raise e
  | Unfinished => Unfinished
  end.

(** [for year in years] of [get_all_time_commits]. *)
Fixpoint all_time_loop (years : list json) (total_commits : Z) : M St Z :=
  match years with
  | [] => ret total_commits
  | year :: rest =>
      query <- lift (year_commits_query year) ;;
      result <- io (Queries.query query) ;;
      ok <- (if truthy result then lift (contains_str "data" result)
             else ret false) ;;
      if (ok : bool) then
        data <- lift (get result "data" empty_dict) ;;
        viewer <- lift (get data "viewer" empty_dict) ;;
        contrib <- lift (get viewer "contributionsCollection" empty_dict) ;;
        counted <- lift (get contrib "totalCommitContributions" (JNum 0)) ;;
        restricted <-
          lift (get contrib "restrictedContributionsCount" (JNum 0)) ;;
        year_commits <- lift (add counted restricted) ;;
        total_commits' <- lift (int_iadd total_commits year_commits) ;;
        all_time_loop rest total_commits'
      else all_time_loop rest total_commits
  end.

(** [Stats.get_all_time_commits] *)
Definition get_all_time_commits : M St unit :=
  r <- io (Queries.query Queries.contrib_years) ;;
  v <- lift (viewer_of r) ;;
  cc <- lift (get v "contributionsCollection" empty_dict) ;;
  years <- lift (get cc "contributionYears" (JArr [])) ;;
  ys <- lift (iter years) ;;
  total_commits <- all_time_loop ys 0 ;;
  assign (set_total_commits (Some total_commits)).

End WithTransport.
End Stats.

(* ================================================================= *)
(** ** Cooperative scheduling

    Several coroutines share one [Stats] object.  A coroutine runs until it
    awaits something that is not ready: the lock, when it is taken, or the
    answer to a request.  Between two such points it runs alone.

    The lock of the model is free for any coroutine that finds it free;
    [asyncio.Lock] hands it to the longest-waiting one.  The schedules of
    asyncio are therefore among the schedules of the model. *)

Module Async.
Import Stats.
Section WithTransport.

Context {T : Transport} {U : Unicode}.

(** What a coroutine awaits: [get_stats] itself or one of the accessors it
    backs. *)
Inductive request : Type :=
| GetStats
| Name
| Stargazers
| Languages
| Repos.

Inductive value : Type :=
| VNone
| VJson (v : json)
| VInt (n : Z)
| VLangs (d : list (string * lang_entry))
| VSet (s : pyset).

(** Where a coroutine stands: not yet started, suspended in
    [lock.acquire()], suspended in [query] inside the loop (with the local
    variables of [get_stats]), or done. *)
Inductive task : Type :=
| Created (r : request)
| Acquiring (r : request)
| Fetching (r : request) (exclude_langs_lower : list string)
    (document : string) (next_owned next_contrib : json)
| Finished (r : request) (outcome : res value).

(** The attribute an accessor returns when it is not [None]. *)
Definition memo (r : request) (s : Self) : option value :=
  match r with
  | GetStats => None
  | Name => if is_None (_name s) then None else Some (VJson (_name s))
  | Stargazers => option_map VInt (_stargazers s)
  | Languages => option_map VLangs (_languages s)
  | Repos => option_map VSet (_repos s)
  end.

(** The accessor's code after [await self.get_stats()]. *)
Definition after_get_stats (r : request) (s : Self) : res value :=
  match r with
  | GetStats => Ok VNone
  | _ =>
      match memo r s with
      | Some v => Ok v
      | None => Raise AssertionError
      end
  end.

(** Leaving [async with self._stats_lock]: the lock is released, then the
    accessor carries on or the exception travels up. *)
Definition leave (r : request) (o : res unit) (st : St) : task * St :=
  let st' := (set_stats_lock (Some false) (fst st), snd st) in
  match o with
  | Ok _ => (Finished r (after_get_stats r (fst st')), st')
  | Raise e => (Finished r (Raise e), st')
  | Unfinished => (Finished r Unfinished, st')
  end.

(** The head of a loop turn: the document is built, the request sent. *)
Definition ask (r : request) (exclude_langs_lower : list string)
    (next_owned next_contrib : json) (st : St) : task * St :=
  match Queries.repos_overview next_contrib next_owned with
  | Ok document =>
      (Fetching r exclude_langs_lower document next_owned next_contrib, st)
  | Raise e => leave r (Raise e) st
  | Unfinished => leave r Unfinished st
  end.

(** Taking the free lock and running the block up to its first request. *)
Definition enter (r : request) (st : St) : task * St :=
  let st := (set_stats_lock (Some true) (fst st), snd st) in
  if _stats_fetched (fst st) then leave r (Ok tt) st
  else
    match start st with
    | (Ok exclude_langs_lower, st') => ask r exclude_langs_lower JNull JNull st'
    | (Raise e, st') => leave r (Raise e) st'
    | (Unfinished, st') => leave r Unfinished st'
    end.

(** [get_stats] from its first line to the lock. *)
Definition call_get_stats (r : request) (st : St) : task * St :=
  let st :=
    match _stats_lock (fst st) with
    | None => (set_stats_lock (Some false) (fst st), snd st)
    | Some _ => st
    end in
  match _stats_lock (fst st) with
  | Some true => (Acquiring r, st)
  | _ => enter r st
  end.

(** The rest of a loop turn, once the answer is there. *)
Definition answered (r : request) (exclude_langs_lower : list string)
    (document : string) (next_owned next_contrib : json) (st : St)
  : task * St :=
  match io (Queries.query document) st with
  | (Ok raw_results, st1) =>
      match read_page exclude_langs_lower raw_results next_owned next_contrib st1 with
      | (Ok (Some (next_owned', next_contrib')), st2) =>
          ask r exclude_langs_lower next_owned' next_contrib' st2
      | (Ok None, st2) => let '(o, st3) := finish st2 in leave r o st3
      | (Raise e, st2) => leave r (Raise e) st2
      | (Unfinished, st2) => leave r Unfinished st2
      end
  | (Raise e, st1) => leave r (Raise e) st1
  | (Unfinished, st1) => leave r Unfinished st1
  end.

(** Whether a coroutine can run. *)
Definition runnable (t : task) (s : Self) : bool :=
  match t with
  | Created _ => true
  | Acquiring _ =>
      match _stats_lock s with Some true => false | _ => true end
  | Fetching _ _ _ _ _ => true
  | Finished _ _ => false
  end.

(** One run of a coroutine, up to its next suspension. *)
Definition resume (t : task) (st : St) : task * St :=
  match t with
  | Created r =>
      match memo r (fst st) with
      | Some v => (Finished r (Ok v), st)
      | None => call_get_stats r st
      end
  | Acquiring r => enter r st
  | Fetching r exclude_langs_lower document next_owned next_contrib =>
      answered r exclude_langs_lower document next_owned next_contrib st
  | Finished _ _ => (t, st)
  end.

(** Whether this run begins the fetch: it gets into the block and finds
    [_stats_fetched] false. *)
Definition begins_fetch (t : task) (s : Self) : bool :=
  match t with
  | Created r =>
      match memo r s with
      | Some _ => false
      | None =>
          match _stats_lock s with
          | Some true => false
          | _ => negb (_stats_fetched s)
          end
      end
  | Acquiring _ => negb (_stats_fetched s)
  | _ => false
  end.

(** The coroutines and what they share. *)
Record system : Type := mkSystem {
  shared : St;
  tasks : list task
}.

Fixpoint replace_nth {A} (i : nat) (x : A) (l : list A) : list A :=
  match l, i with
  | [], _ => []
  | _ :: rest, O => x :: rest
  | y :: rest, S i' => y :: replace_nth i' x rest
  end.

(** The scheduler picks coroutine [i]; picking one that cannot run changes
    nothing. *)
Definition step (i : nat) (sys : system) : system :=
  match nth_error (tasks sys) i with
  | Some t =>
      if runnable t (fst (shared sys)) then
        let '(t', st') := resume t (shared sys) in
        mkSystem st' (replace_nth i t' (tasks sys))
      else sys
  | None => sys
  end.

Fixpoint exec (schedule : list nat) (sys : system) : system :=
  match schedule with
  | [] => sys
  | i :: rest => exec rest (step i sys)
  end.

(** How many times the fetch was begun along a schedule. *)
Definition begins (i : nat) (sys : system) : nat :=
  match nth_error (tasks sys) i with
  | Some t =>
      if runnable t (fst (shared sys)) && begins_fetch t (fst (shared sys))
      then 1%nat else 0%nat
  | None => 0%nat
  end.

Fixpoint fetches_begun (schedule : list nat) (sys : system) : nat :=
  match schedule with
  | [] => 0%nat
  | i :: rest => (begins i sys + fetches_begun rest (step i sys))%nat
  end.

Definition is_fetching (t : task) : bool :=
  match t with Fetching _ _ _ _ _ => true | _ => false end.

Definition has_raised (t : task) : bool :=
  match t with Finished _ (Raise _) => true | _ => false end.

Definition count (p : task -> bool) (ts : list task) : nat :=
  List.length (filter p ts).

(** The lock and the flag that guard the fetch. *)
Definition guard (s : Self) : option bool * bool :=
  (_stats_lock s, _stats_fetched s).

(** At most one coroutine is inside the block, and while one is, the lock is
    taken and the flag is down. *)
Definition exclusive (sys : system) : Prop :=
  (count is_fetching (tasks sys) <= 1)%nat
  /\ (count is_fetching (tasks sys) = 1%nat ->
      guard (fst (shared sys)) = (Some true, false)).

(** What a begun fetch leaves behind: a coroutine inside the block, the flag
    up, or a coroutine that ended with an exception. *)
Definition accounted (sys : system) : nat :=
  (count is_fetching (tasks sys)
   + Nat.b2n (_stats_fetched (fst (shared sys)))
   + count has_raised (tasks sys))%nat.

(** How a run that gets into the block, or goes on inside it, can leave
    its coroutine. *)
Inductive settled (t : task) (s : Self) : Prop :=
| StillFetching :
    is_fetching t = true -> has_raised t = false ->
    guard s = (Some true, false) -> settled t s
| Raised : is_fetching t = false -> has_raised t = true -> settled t s
| Fetched :
    is_fetching t = false -> has_raised t = false ->
    _stats_fetched s = true -> settled t s.

End WithTransport.
End Async.

(* ================================================================= *)
(** ** Vocabulary of the properties *)

Module Spec.
Import Stats.

Section WithUnicode.

Context {U : Unicode}.

(** The contribution years an answer lists. *)
Definition years_of (answer : json) : res json :=
  match viewer_of answer with
  | Ok v =>
      match get v "contributionsCollection" empty_dict with
      | Ok cc => get cc "contributionYears" (JArr [])
      | other => other
      end
  | other => other
  end.

(** The total one year reports. *)
Definition contribution_of (year : json) : res json :=
  match get year "contributionCalendar" empty_dict with
  | Ok cal => get cal "totalContributions" (JNum 0)
  | other => other
  end.

(** The value [get_stats] works on: the answer, or [{}] for [None]. *)
Definition page_of (raw_results : json) : json :=
  if is_None raw_results then empty_dict else raw_results.

(** One of the two connections of an overview answer, ["repositories"] or
    ["repositoriesContributedTo"]. *)
Definition connection_of (page : json) (connection : string) : res json :=
  v <~ viewer_of page ;;
  get v connection empty_dict.

(** Whether a connection reports a next page. *)
Definition has_next_page (page : json) (connection : string) : res bool :=
  c <~ connection_of page connection ;;
  pi <~ get c "pageInfo" empty_dict ;;
  h <~ get pi "hasNextPage" (JBool false) ;;
  Ok (truthy h).

(** A page on which both connections report no further page. *)
Definition last_page (page : json) : Prop :=
  has_next_page page "repositories" = Ok false
  /\ has_next_page page "repositoriesContributedTo" = Ok false.

(** A page on which a connection reports a further page. *)
Definition more_pages (page : json) : Prop :=
  has_next_page page "repositories" = Ok true
  \/ has_next_page page "repositoriesContributedTo" = Ok true.

(** The repository nodes of a page, in the order the loop visits them: the
    owned ones, then the contributed-to ones unless forks are ignored. *)
Definition page_nodes (ignore_forked_repos : bool) (page : json)
  : res (list json) :=
  contrib_repos <~ connection_of page "repositoriesContributedTo" ;;
  owned_repos <~ connection_of page "repositories" ;;
  repos <~ get owned_repos "nodes" (JArr []) ;;
  repos <~ (if negb ignore_forked_repos then
              more <~ get contrib_repos "nodes" (JArr []) ;;
              iadd repos more
            else Ok repos) ;;
  iter repos.

(** The cursor a connection hands on, [dflt] when it names none. *)
Definition end_cursor (page : json) (connection : string) (dflt : json)
  : res json :=
  c <~ connection_of page connection ;;
  pi <~ get c "pageInfo" empty_dict ;;
  get pi "endCursor" dflt.

(** The nodes of a sequence of answers, page after page. *)
Definition all_nodes (ignore_forked_repos : bool) (answers : list json)
  : list json :=
  flat_map (fun raw =>
              match page_nodes ignore_forked_repos (page_of raw) with
              | Ok nodes => nodes
              | _ => []
              end) answers.

(** What a repository node says: its identifier, its stargazers, its
    forks, its language edges. *)
Definition name_of (repo : json) : json :=
  match get repo "nameWithOwner" JNull with
  | Ok name => name
  | _ => JNull
  end.

Definition count_of (r : res json) : Z :=
  match r with
  | Ok v => match int_of v with Some n => n | None => 0 end
  | _ => 0
  end.

Definition stars_of (repo : json) : Z :=
  count_of (sg <~ get repo "stargazers" empty_dict ;;
            get sg "totalCount" (JNum 0)).

Definition forks_of (repo : json) : Z :=
  count_of (get repo "forkCount" (JNum 0)).

Definition edges_of (repo : json) : list json :=
  match (ls <~ get repo "languages" empty_dict ;;
         edges <~ get ls "edges" (JArr []) ;;
         iter edges) with
  | Ok edges => edges
  | _ => []
  end.

(** What a language edge says: the name of the language, its size. *)
Definition edge_name (lang : json) : option string :=
  match (node <~ get lang "node" empty_dict ;;
         get node "name" (JStr "Other")) with
  | Ok (JStr n) => Some n
  | _ => None
  end.

Definition edge_size (lang : json) : json :=
  match get lang "size" (JNum 0) with
  | Ok v => v
  | _ => JNum 0
  end.

(** The repositories that count among a sequence of nodes: a node counts
    when it is not [None] and its identifier is neither excluded nor that
    of a node that counted before; [seen] holds the identifiers that
    counted so far. *)
Fixpoint counted (excluded : list string) (seen : pyset) (nodes : list json)
  : list json :=
  match nodes with
  | [] => []
  | repo :: rest =>
      if is_None repo then counted excluded seen rest
      else if existsb (key_eqb (name_of repo)) seen
              || in_strings (name_of repo) excluded
      then counted excluded seen rest
      else repo :: counted excluded (seen ++ [name_of repo])%list rest
  end.

(** No two identifiers of a list are equal. *)
Fixpoint distinct (names : pyset) : Prop :=
  match names with
  | [] => True
  | x :: rest => existsb (key_eqb x) rest = false /\ distinct rest
  end.

(** The sizes that the edges of language [n] carry, among the edges of the
    given repositories whose language is not excluded. *)
Definition kept (exclude_langs_lower : list string) (lang : json) : bool :=
  match edge_name lang with
  | Some n => negb (existsb (String.eqb (lower n)) exclude_langs_lower)
  | None => false
  end.

Definition named (n : string) (lang : json) : bool :=
  match edge_name lang with
  | Some m => String.eqb m n
  | None => false
  end.

Definition sizes_in (exclude_langs_lower : list string) (n : string)
    (edges : list json) : list json :=
  map edge_size (filter (named n) (filter (kept exclude_langs_lower) edges)).

Definition sizes_of (exclude_langs_lower : list string) (n : string)
    (repos : list json) : list json :=
  sizes_in exclude_langs_lower n (flat_map edges_of repos).

(** Sizes added up the way [+=] adds them, from the first on. *)
Definition add_up (first : json) (others : list json) : res json :=
  fold_left (fun acc v => a <~ acc ;; iadd a v) others (Ok first).

(** What the language map holds for language [n] when the given sizes were
    accumulated for it: nothing when there are none, else their sum and
    their number. *)
Definition tallied (entry : option lang_entry) (sizes : list json) : Prop :=
  match entry with
  | None => sizes = []
  | Some e =>
      exists first others,
        sizes = first :: others
        /\ add_up first others = Ok (size e)
        /\ occurrences e = Z.of_nat (List.length sizes)
  end.

(** The sum of a list of integers and of a list of rationals. *)
Definition total (sizes : list Z) : Z := fold_right Z.add 0 sizes.
Definition qsum (ps : list Q) : Q := fold_right Qplus 0%Q ps.

(** The language map accounts for the given edges. *)
Definition langs_ok (exclude_langs_lower : list string)
    (d : list (string * lang_entry)) (edges : list json) : Prop :=
  forall n, tallied (lang_find n d) (sizes_in exclude_langs_lower n edges).

(** The running totals of the object are those of the repositories [cs]. *)
Definition ledger (exclude_langs_lower : list string) (s : Self)
    (cs : list json) : Prop :=
  _repos s = Some (map name_of cs)
  /\ _stargazers s = Some (total (map stars_of cs))
  /\ _forks s = Some (total (map forks_of cs))
  /\ exists d,
       _languages s = Some d
       /\ langs_ok exclude_langs_lower d (flat_map edges_of cs).

(** Two objects with the same configuration. *)
Definition same_config (s s' : Self) : Prop :=
  _exclude_repos s' = _exclude_repos s
  /\ _exclude_langs s' = _exclude_langs s
  /\ _ignore_forked_repos s' = _ignore_forked_repos s.

(** Two entries of the language map that differ in the proportion at
    most. *)
Definition same_tally (a b : string * lang_entry) : Prop :=
  fst a = fst b
  /\ size (snd a) = size (snd b)
  /\ occurrences (snd a) = occurrences (snd b).

(** The share of [n] in [all], in percent: the exact one. *)
Definition percent (n all : Z) : Q :=
  if Z.ltb 0 all then (inject_Z 100 * (inject_Z n / inject_Z all))%Q else 0%Q.

(** 100.0 *)
Definition hundred : spec_float := S754_finite false 7036874417766400 (-46).

(** The share of [n] in [all] as floats give it: the quotient rounded, its
    product with 100.0 rounded. *)
Definition share (n all : Z) : number :=
  if Z.ltb 0 all then
    Float (SFmul 53 1024 hundred (SFdiv 53 1024 (operand n) (operand all)))
  else Int 0.

(** The rational a number is; the infinities and NaN count as 0. *)
Definition float_value (x : spec_float) : Q :=
  match x with
  | S754_finite s m e => (inject_Z (cond_Zopp s (Zpos m)) * 2 ^ e)%Q
  | _ => 0%Q
  end.

Definition value (x : number) : Q :=
  match x with
  | Int n => inject_Z n
  | Float f => float_value f
  end.

(** How far two roundings may take a positive number, relative to it:
    [(1 + 2^-53)^2 - 1], a little above [2.2e-16]. *)
Definition tolerance : Q := (inject_Z (2 ^ 54 + 1) / inject_Z (2 ^ 106))%Q.

(** A record of [SpecFloat]'s shifts stands for the rational [N / D]: its
    mantissa is the integer part, the round bit tells whether the rest
    reaches one half, the sticky bit whether the rest is neither nothing
    nor one half. *)
Definition stands_for (mrs : shr_record) (N D : Z) : Prop :=
  0 <= shr_m mrs
  /\ shr_m mrs * D <= N < (shr_m mrs + 1) * D
  /\ (shr_r mrs = true <-> (2 * shr_m mrs + 1) * D <= 2 * N)
  /\ (shr_s mrs = true
      <-> N <> shr_m mrs * D /\ 2 * N <> (2 * shr_m mrs + 1) * D).

(** An entry with its proportion stored. *)
Definition with_prop (all : Z) (kv : string * lang_entry) : string * lang_entry :=
  (fst kv,
   mkLang (size (snd kv)) (occurrences (snd kv)) (color (snd kv))
     (match int_of (size (snd kv)) with
      | Some n => Some (share n all)
      | None => None
      end)).

End WithUnicode.

End Spec.

(* ================================================================= *)
(** ** What a trace holds *)

Module Wire.

Definition is_post (e : event) : bool :=
  match e with Post _ => true | _ => false end.
Definition is_post_sync (e : event) : bool :=
  match e with PostSync _ => true | _ => false end.
Definition is_get (e : event) : bool :=
  match e with Get _ _ => true | _ => false end.
Definition is_get_sync (e : event) : bool :=
  match e with GetSync _ _ => true | _ => false end.

(** How many events of a kind. *)
Definition sent (kind : event -> bool) (events : list event) : nat :=
  List.length (filter kind events).

(** The seconds spent in [asyncio.sleep]. *)
Definition slept (events : list event) : Z :=
  fold_right Z.add 0
    (map (fun e => match e with Sleep n => n | _ => 0 end) events).

(** One turn of the retry loop of [query_rest]: one GET on the session, at most one on the
    fallback client, at most five seconds of sleep. *)
Definition one_turn (added : list event) : Prop :=
  sent is_get added = 1%nat
  /\ (sent is_get_sync added <= 1)%nat
  /\ sent is_post added = 0%nat
  /\ sent is_post_sync added = 0%nat
  /\ 0 <= slept added <= 5.

(** A response to the session's GET that sends [query_rest] to the fallback
    client: no response at all, or one whose status is none of 202, 403
    and 404 and whose body does not decode. *)
Definition session_failed (o : get_outcome) : Prop :=
  match o with
  | GetFailed => True
  | GetResponse status body =>
      body = None /\ status <> 202 /\ status <> 403 /\ status <> 404
  end.

(** The request for [path] is answered 404 on the turn that starts in [w]:
    by the session, or, the session having failed, by the fallback client.
    [w404] is the world after the turn. *)
Definition not_found {T : Transport} (path : string)
    (params : list (string * json)) (w w404 : World) : Prop :=
  let sent_path := Queries.strip_slash path in
  let cloak := is_substring "/search/commits" path in
  (exists body n,
     session_get sent_path cloak params (net w) = (GetResponse 404 body, n)
     /\ w404
        = mkWorld n
            (trace w ++ [Get sent_path cloak; Print (Rest404 sent_path)]))
  \/ (exists o n body n',
        session_get sent_path cloak params (net w) = (o, n)
        /\ session_failed o
        /\ requests_get sent_path cloak params n = (GetResponse 404 body, n')
        /\ w404
           = mkWorld n'
               (trace w ++ [Get sent_path cloak;
                            Print (AiohttpFailedRest sent_path);
                            GetSync sent_path cloak;
                            Print (Fallback404 sent_path)])).

End Wire.

(* ================================================================= *)
(** ** What the accessors amount to *)

Module Tally.
Import Stats Spec.

Section WithUnicode.

Context {U : Unicode}.

(** The totals that [get_stats] resets are there. *)
Definition totals_set (s : Self) : Prop :=
  _stargazers s <> None /\ _forks s <> None
  /\ _languages s <> None /\ _repos s <> None.

(** The document [total_commits] sends first. *)
Definition first_commits_query (s : Self) : string :=
  match _emails s with
  | Some (_ :: _) => commits_query_email (username s)
  | _ => commits_query_username (username s)
  end.

(** What [get_user_forks] reads on a page that has a viewer: the total
    count, whether there is a next page, and the cursor to it. *)
Definition forks_page (page : json) : option (json * bool * json) :=
  match viewer_of page with
  | Ok viewer =>
      if truthy viewer then
        match get viewer "repositories" empty_dict with
        | Ok repositories =>
            match get repositories "totalCount" (JNum 0),
                  get repositories "pageInfo" empty_dict with
            | Ok total, Ok page_info =>
                match get page_info "hasNextPage" JNull,
                      get page_info "endCursor" JNull with
                | Ok h, Ok c => Some (total, truthy h, c)
                | _, _ => None
                end
            | _, _ => None
            end
        | _ => None
        end
      else None
  | _ => None
  end.

(** A page that leads to a next one, under a cursor that is a string. *)
Definition leads_on (page : json) : Prop :=
  exists total cursor,
    forks_page (page_of page) = Some (total, true, JStr cursor).

(** A page without a viewer. *)
Definition no_viewer (page : json) : Prop :=
  exists viewer,
    viewer_of (page_of page) = Ok viewer /\ truthy viewer = false.

(** The login an entry of the contributors statistics carries, if the entry
    and its [author] are dicts. *)
Definition author_login (author_obj : json) : option json :=
  match author_obj with
  | JObj fields =>
      match
        match lookup "author" fields with Some a => a | None => empty_dict end
      with
      | JObj author =>
          Some (match lookup "login" author with
                | Some login => login
                | None => JStr ""
                end)
      | _ => None
      end
  | _ => None
  end.

(** The entries of the user, the case of the login set aside. *)
Definition written_by (username : string) (author_obj : json) : bool :=
  match author_login author_obj with
  | Some (JStr login) => String.eqb (lower login) (lower username)
  | _ => false
  end.

(** The weeks of an entry. *)
Definition weeks_of (author_obj : json) : list json :=
  match author_obj with
  | JObj fields =>
      match lookup "weeks" fields with
      | Some (JArr weeks) => weeks
      | _ => []
      end
  | _ => []
  end.

(** The integer under a key of a dict, 0 when the key is missing or the
    value is no dict; [None] when what is there is no integer. *)
Definition int_field (key : string) (v : json) : option Z :=
  match v with
  | JObj fields =>
      match lookup key fields with
      | Some n => int_of n
      | None => Some 0
      end
  | _ => Some 0
  end.

Definition int_field_or_0 (key : string) (v : json) : Z :=
  match int_field key v with Some n => n | None => 0 end.

(** The lines under [key] (["a"] or ["d"]) that an answer credits the user
    with. *)
Definition lines (key username : string) (answer : json) : Z :=
  match answer with
  | JArr authors =>
      total (map (int_field_or_0 key)
               (flat_map weeks_of (filter (written_by username) authors)))
  | _ => 0
  end.

(** An answer on which the loop of [lines_changed] raises nothing: logins
    are strings and the weeks of the user carry integers. *)
Definition tidy_lines (username : string) (answer : json) : Prop :=
  match answer with
  | JArr authors =>
      Forall (fun author_obj =>
                match author_login author_obj with
                | Some (JStr _) =>
                    written_by username author_obj = true ->
                    Forall (fun week =>
                              int_field "a" week <> None
                              /\ int_field "d" week <> None)
                           (weeks_of author_obj)
                | Some _ => False
                | None => True
                end) authors
  | _ => True
  end.

(** The views an answer reports. *)
Definition views_in (answer : json) : Z :=
  match answer with
  | JObj fields =>
      match lookup "views" fields with
      | Some (JArr days) => total (map (int_field_or_0 "count") days)
      | _ => 0
      end
  | _ => 0
  end.

Definition tidy_views (answer : json) : Prop :=
  match answer with
  | JObj fields =>
      match lookup "views" fields with
      | Some (JArr days) => Forall (fun day => int_field "count" day <> None) days
      | _ => True
      end
  | _ => True
  end.

(** The dict under a key, [{}] when the key is missing. *)
Definition sub (key : string) (fields : list (string * json)) : json :=
  match lookup key fields with Some v => v | None => empty_dict end.

(** The commits an answer of [get_all_time_commits] reports for its year:
    those counted and those restricted, 0 when the answer has no [data]. *)
Definition year_commits (answer : json) : Z :=
  match answer with
  | JObj fields =>
      match lookup "data" fields with
      | Some (JObj data) =>
          match sub "viewer" data with
          | JObj viewer =>
              let contrib := sub "contributionsCollection" viewer in
              int_field_or_0 "totalCommitContributions" contrib
              + int_field_or_0 "restrictedContributionsCount" contrib
          | _ => 0
          end
      | _ => 0
      end
  | _ => 0
  end.

(** An answer on which the loop raises nothing. *)
Definition tidy_year (answer : json) : Prop :=
  match answer with
  | JObj fields =>
      match lookup "data" fields with
      | Some (JObj data) =>
          match sub "viewer" data with
          | JObj viewer =>
              match sub "contributionsCollection" viewer with
              | JObj contrib =>
                  int_field "totalCommitContributions" (JObj contrib) <> None
                  /\ int_field "restrictedContributionsCount" (JObj contrib)
                     <> None
              | _ => False
              end
          | _ => False
          end
      | Some _ => False
      | None => True
      end
  | _ => False
  end.

(** The name a page gives the user: the name, the login when the name is
    [null] or missing, ["No Name"] when the login is missing too. *)
Definition display_name (page : json) : res json :=
  v <~ viewer_of page ;;
  n <~ get v "name" JNull ;;
  if is_None n then get v "login" (JStr "No Name") else Ok n.

(** A cursor that can be written into the next query. *)
Definition cursor_ok (c : json) : Prop := c = JNull \/ exists text, c = JStr text.

(** A page without repositories that reports a next page and hands on
    cursors that can be sent. *)
Definition empty_page_with_next (page : json) : Prop :=
  (forall ignore, page_nodes ignore page = Ok [])
  /\ (exists owned_more contrib_more,
        has_next_page page "repositories" = Ok owned_more
        /\ has_next_page page "repositoriesContributedTo" = Ok contrib_more
        /\ owned_more || contrib_more = true)
  /\ (forall dflt,
        cursor_ok dflt ->
        exists c, end_cursor page "repositories" dflt = Ok c /\ cursor_ok c)
  /\ (forall dflt,
        cursor_ok dflt ->
        exists c,
          end_cursor page "repositoriesContributedTo" dflt = Ok c
          /\ cursor_ok c).

End WithUnicode.

End Tally.

(** A method that leaves the world alone. *)
Definition keeps_world {T : Transport} {A} (m : M Stats.St A) : Prop :=
  forall st, snd (snd (m st)) = snd st.

(** A method that leaves alone what [f] reads of the object. *)
Definition leaves {T : Transport} {X A} (f : Stats.Self -> X)
    (m : M Stats.St A) : Prop :=
  forall st, f (fst (snd (m st))) = f (fst st).

(** A method whose value, once returned, is returned again by the next call,
    which changes nothing and sends nothing. *)
Definition memoized {T : Transport} {A} (m : M Stats.St A) : Prop :=
  forall st v st', m st = (Ok v, st') -> m st' = (Ok v, st').

(** A method that keeps a property of the object, however it ends. *)
Definition preserves {T : Transport} {A} (P : Stats.Self -> Prop)
    (m : M Stats.St A) : Prop :=
  forall st, P (fst st) -> P (fst (snd (m st))).

(* ================================================================= *)
(** ** generate_images.py: the configuration read by [main]

    [main] reads its configuration from the environment, builds the
    [Stats] object and hands it to the two generators.  What follows is the
    part up to the object; the generators work on files and are not
    modelled. *)

Module Images.

Section WithUnicode.

Context {U : Unicode}.

(** Why [main] gives up before it builds the object: no token ([Exception])
    or no user name ([RuntimeError]). *)
Inductive refusal : Type :=
| NoToken
| NoActor.

(** [{x.strip() for x in raw.split(",")} if raw else None] *)
Definition stripped_set (raw : option string) : option (list string) :=
  match raw with
  | Some (String _ _ as text) =>
      Some (set_of (map str_strip (split "," text)))
  | _ => None
  end.

(** What such a set holds for the value [raw] of a variable: the pieces
    between its commas, stripped, each once. *)
Definition trimmed_pieces (raw : option string) (names : list string) : Prop :=
  NoDup names
  /\ forall x,
       In x names
       <-> exists text piece,
             raw = Some text /\ text <> ""
             /\ In piece (split "," text) /\ x = str_strip piece.

(** [not not raw and raw.strip().lower() != "false"] *)
Definition flag (raw : option string) : bool :=
  match raw with
  | Some (String _ _ as text) =>
      negb (String.eqb (lower (str_strip text)) "false")
  | _ => false
  end.

(** [main], from the environment to the [Stats] object. *)
Definition configure (getenv : string -> option string)
  : refusal + Stats.Self :=
  match getenv "ACCESS_TOKEN" with
  | Some (String _ _) =>
      match getenv "GITHUB_ACTOR" with
      | Some user =>
          inr (Stats.init user
                 (stripped_set (getenv "EXCLUDED"))
                 (stripped_set (getenv "EXCLUDED_LANGS"))
                 (flag (getenv "EXCLUDE_FORKED_REPOS"))
                 (stripped_set (getenv "GIT_EMAILS")))
      | None => inl NoActor
      end
  | _ => inl NoToken
  end.

End WithUnicode.

End Images.

(* ================================================================= *)
(** ** Concrete responses and objects *)

Module Examples.

Definition page_info (has_next : bool) (cursor : json) : json :=
  JObj [("hasNextPage", JBool has_next); ("endCursor", cursor)].

Definition edge (language : string) (bytes : Z) : json :=
  JObj [("size", JNum bytes);
        ("node", JObj [("name", JStr language); ("color", JNull)])].

Definition repo (id : string) (stars forks : Z) (edges : list json) : json :=
  JObj [("nameWithOwner", JStr id);
        ("stargazers", JObj [("totalCount", JNum stars)]);
        ("forkCount", JNum forks);
        ("languages", JObj [("edges", JArr edges)])].

Definition overview (login : string) (owned contributed : json) : json :=
  JObj [("data", JObj [("viewer", JObj [
    ("login", JStr login);
    ("name", JNull);
    ("repositories", owned);
    ("repositoriesContributedTo", contributed)])])].

Definition connection (has_next : bool) (cursor : json) (nodes : list json)
  : json :=
  JObj [("pageInfo", page_info has_next cursor); ("nodes", JArr nodes)].

(** One page: one repository with five stars, written in HTML and Python. *)
Definition one_page : json :=
  overview "octocat"
    (connection false JNull
       [repo "octocat/hello" 5 2 [edge "html" 100; edge "Python" 300]])
    (connection false JNull []).

(** One page that lists a repository twice, with different counts, and a
    repository that the object below excludes. *)
Definition crowded_page : json :=
  overview "octocat"
    (connection false JNull
       [repo "octocat/hello" 5 2 [edge "Python" 300];
        repo "octocat/secret" 100 50 [edge "C" 1000]])
    (connection false JNull
       [repo "octocat/hello" 7 3 [edge "Python" 400];
        repo "torvalds/linux" 9 4 [edge "C" 50]]).

(** The answer to the commit-count query. *)
Definition commits (n : Z) : json :=
  JObj [("data", JObj [("user", JObj [("contributionsCollection",
    JObj [("totalCommitContributions", JNum n)])])])].

(** The answers to the two queries of [total_contributions]. *)
Definition years_answer (years : list json) : json :=
  JObj [("data", JObj [("viewer", JObj [("contributionsCollection",
    JObj [("contributionYears", JArr years)])])])].

Definition calendar (n : Z) : json :=
  JObj [("contributionCalendar", JObj [("totalContributions", JNum n)])].

Definition by_year_answer (totals : list (string * Z)) : json :=
  JObj [("data", JObj [("viewer",
    JObj (map (fun t => (fst t, calendar (snd t))) totals))])].

(** A world whose asynchronous client gets the given answers in turn and
    whose fallback client is down. *)
Definition answers (posts : list json) : World (T:=scripted) :=
  mkWorld (T:=scripted) (mkScript (map PostDecoded posts) [] [] []) [].

(** A world in which no request gets through. *)
Definition offline : World (T:=scripted) :=
  mkWorld (T:=scripted) (mkScript [] [] [] []) [].

Definition octocat : Stats.Self := Stats.init "octocat" None None false None.

Definition octocat_with_secret : Stats.Self :=
  Stats.init "octocat" (Some ["octocat/secret"]) None false None.

Definition octocat_no_html : Stats.Self :=
  Stats.init "octocat" None (Some ["HTML"]) false None.

(** Two coroutines on one object: the first awaits [languages], the second
    [stargazers]. *)
Definition two_readers : Async.system (T:=scripted) :=
  Async.mkSystem (T:=scripted) (octocat, answers [one_page])
    [Async.Created Async.Languages; Async.Created Async.Stargazers].

(** A page of the user's forks. *)
Definition forks_answer (total : json) (has_next : bool) (cursor : json)
  : json :=
  JObj [("data", JObj [("viewer", JObj [("repositories", JObj [
    ("totalCount", total);
    ("pageInfo", page_info has_next cursor);
    ("nodes", JArr [])])])])].

(** The answer to the summary query. *)
Definition summary (prs issues : json) : json :=
  JObj [("data", JObj [("viewer", JObj [
    ("login", JStr "octocat");
    ("name", JStr "The Octocat");
    ("pullRequests", JObj [("totalCount", prs)]);
    ("issues", JObj [("totalCount", issues)])])])].

(** A page whose second repository has [null] for its stargazers. *)
Definition broken_page : json :=
  overview "octocat"
    (connection false JNull
       [repo "octocat/hello" 5 2 [edge "Python" 300];
        JObj [("nameWithOwner", JStr "octocat/odd"); ("stargazers", JNull)]])
    (connection false JNull []).

(** The answer for a user the service does not know. *)
Definition unknown_user : json := JObj [("data", JObj [("user", JNull)])].

(** The contributors statistics of a repository: two weeks of the user,
    under a login in other case, and one week of somebody else. *)
Definition contributors : json :=
  JArr [JObj [("author", JObj [("login", JStr "OctoCat")]);
              ("weeks", JArr [JObj [("a", JNum 10); ("d", JNum 4)];
                              JObj [("a", JNum 1); ("d", JNum 2)]])];
        JObj [("author", JObj [("login", JStr "hubot")]);
              ("weeks", JArr [JObj [("a", JNum 100); ("d", JNum 100)]])]].

(** The traffic of a repository. *)
Definition traffic : json :=
  JObj [("count", JNum 12);
        ("views", JArr [JObj [("count", JNum 5)]; JObj [("count", JNum 7)]])].

(** A service that answers every GET with the same body. *)
Definition rest_service (body : json) : Transport :=
  oracle (fun _ => JNull) (fun _ => GetResponse 200 (Some body)).

(** A service that is still computing, whatever is asked. *)
Definition busy_service : Transport :=
  oracle (fun _ => JNull) (fun _ => GetResponse 202 None).

(** The object once [get_stats] has found one repository. *)
Definition octocat_with_repo : Stats.Self :=
  Stats.set_repos (Some [JStr "octocat/hello"]) octocat.

(** The commits of one year. *)
Definition year_answer (counted restricted : Z) : json :=
  JObj [("data", JObj [("viewer", JObj [("contributionsCollection",
    JObj [("totalCommitContributions", JNum counted);
          ("restrictedContributionsCount", JNum restricted)])])])].

(** A service that knows two years. *)
Definition yearly_service : Transport :=
  oracle (fun document =>
            if String.eqb document Queries.contrib_years
            then years_answer [JNum 2020; JNum 2021]
            else year_answer 30 4)
         (fun _ => GetFailed).

(** An environment of [main]. *)
Definition environment (variable : string) : option string :=
  if String.eqb variable "ACCESS_TOKEN" then Some "token"
  else if String.eqb variable "GITHUB_ACTOR" then Some "octocat"
  else if String.eqb variable "EXCLUDED" then Some " octocat/secret ,a/b"
  else if String.eqb variable "GIT_EMAILS" then Some "a@b.c, a@b.c"
  else None.

(** A page without repositories that reports a next page. *)
Definition idle_page : json :=
  overview "octocat" (connection true (JStr "c1") []) (connection false JNull []).

(** A service that answers every query with that page. *)
Definition idle_service : Transport :=
  oracle (fun _ => idle_page) (fun _ => GetFailed).

(** Two coroutines on one object that both await [get_stats]. *)
Definition two_callers : Async.system (T:=scripted) :=
  Async.mkSystem (T:=scripted) (octocat, answers [one_page])
    [Async.Created Async.GetStats; Async.Created Async.GetStats].

End Examples.

(* ================================================================= *)
(** * Properties *)

(** ** The transport *)

Section QueryFacts.

Context {T : Transport} {U : Unicode}.

Lemma query_both_fail (document : string) (w : World) :
  fst (session_post document (net w)) = PostFailed ->
  fst (requests_post document
         (snd (session_post document (net w)))) = PostFailed ->
  fst (Queries.query document w) = Raise IOError.
Proof.
  intros H1 H2. unfold Queries.query, exchange.
  destruct (session_post document (net w)) as [o n]. simpl in *. subst o.
  simpl. destruct (requests_post document n) as [o' n']. simpl in *.
  now subst o'.
Qed.

End QueryFacts.

(** C5.  A fault that hits both HTTP clients reaches the caller of [query]:
    with the asynchronous client and the fallback client failing, the call
    ends with the fallback's exception after one attempt on each client,
    not with an empty object. *)
Theorem query_raises_when_fallback_fails :
  Queries.query (T:=scripted) Queries.contrib_years Examples.offline
  = (Raise IOError,
     mkWorld (T:=scripted) (mkScript [] [] [] [])
       [Post Queries.contrib_years;
        Print AiohttpFailedGraphQL;
        PostSync Queries.contrib_years]).
Proof. reflexivity. Qed.

(** C3.  [total_commits] keeps nothing: read twice in a row on a fresh
    object, it sends its query twice, returns what each answer says (here 3,
    then 4), and [_total_commits] stays [None]. *)
Theorem total_commits_asks_again :
  let first := Stats.total_commits (T:=scripted)
                 (Examples.octocat,
                  Examples.answers [Examples.commits 3; Examples.commits 4]) in
  let second := Stats.total_commits (T:=scripted) (snd first) in
  fst first = Ok (JNum 3)
  /\ fst second = Ok (JNum 4)
  /\ Stats._total_commits (fst (snd second)) = None
  /\ trace (snd (snd second))
     = [Post (Stats.commits_query_username "octocat");
        Post (Stats.commits_query_username "octocat")].
Proof. vm_compute. repeat split. Qed.

(** C1.  A coroutine that awaits [stargazers] while another one is inside
    the fetch does not wait for it.  The first coroutine takes the lock,
    resets the totals and suspends on its request; the second finds
    [_stargazers] set, to the 0 of the reset, and returns it at once; the
    fetch then ends with 5 stargazers. *)
Theorem stargazers_read_during_fetch :
  let during := Async.exec (T:=scripted) (U:=ascii_only) [0; 1]%nat Examples.two_readers in
  let after := Async.exec (T:=scripted) (U:=ascii_only) [0]%nat during in
  option_map Async.is_fetching (nth_error (Async.tasks during) 0) = Some true
  /\ nth_error (Async.tasks during) 1
     = Some (Async.Finished Async.Stargazers (Ok (Async.VInt 0)))
  /\ Stats._stats_fetched (fst (Async.shared during)) = false
  /\ Stats._stats_fetched (fst (Async.shared after)) = true
  /\ Stats._stargazers (fst (Async.shared after)) = Some 5.
Proof. vm_compute. repeat split. Qed.

(** ** Running a method by hand *)

Section MonadLaws.
Context {W : Type}.

Lemma bind_bind {A B C} (m : M W A) (f : A -> M W B) (g : B -> M W C) st :
  bind (bind m f) g st = bind m (fun a => bind (f a) g) st.
Proof. unfold bind. now destruct (m st) as [[a| |] st']. Qed.

Lemma bind_ret {A B} (a : A) (k : A -> M W B) st : bind (ret a) k st = k a st.
Proof. reflexivity. Qed.

Lemma bind_lift_Ok {A B} (a : A) (k : A -> M W B) st :
  bind (lift (Ok a)) k st = k a st.
Proof. reflexivity. Qed.

Lemma bind_lift_Raise {A B} e (k : A -> M W B) st :
  bind (lift (Raise e)) k st = (Raise e, st).
Proof. reflexivity. Qed.

Lemma bind_lift_Unfinished {A B} (k : A -> M W B) st :
  bind (lift Unfinished) k st = (Unfinished, st).
Proof. reflexivity. Qed.

Lemma bind_Unfinished {A B} (m : M W A) (k : A -> M W B) st st' :
  m st = (Unfinished, st') -> bind m k st = (Unfinished, st').
Proof. intros H. unfold bind. now rewrite H. Qed.

Lemma bind_raise {A B} e (k : A -> M W B) st :
  bind (raise e) k st = (Raise e, st).
Proof. reflexivity. Qed.

Lemma bind_gets {A B} (f : W -> A) (k : A -> M W B) st :
  bind (gets f) k st = k (f st) st.
Proof. reflexivity. Qed.

Lemma bind_modify {B} (f : W -> W) (k : unit -> M W B) st :
  bind (modify f) k st = k tt (f st).
Proof. reflexivity. Qed.

Lemma bind_Ok {A B} (m : M W A) (k : A -> M W B) st a st' :
  m st = (Ok a, st') -> bind m k st = k a st'.
Proof. intros H. unfold bind. now rewrite H. Qed.

Lemma bind_Raise {A B} (m : M W A) (k : A -> M W B) st e st' :
  m st = (Raise e, st') -> bind m k st = (Raise e, st').
Proof. intros H. unfold bind. now rewrite H. Qed.

End MonadLaws.

Section StatsLaws.
Import Stats.
Context {T : Transport} {U : Unicode}.

Lemma bind_attr {A B} (f : Self -> A) (k : A -> M St B) st :
  bind (attr f) k st = k (f (fst st)) st.
Proof. reflexivity. Qed.

Lemma bind_assign {B} (f : Self -> Self) (k : unit -> M St B) st :
  bind (assign f) k st = k tt (f (fst st), snd st).
Proof. reflexivity. Qed.

Lemma bind_say {B} line (k : unit -> M St B) st :
  bind (say line) k st = k tt (fst st, emit (Print line) (snd st)).
Proof. reflexivity. Qed.

Lemma bind_the {A B} (a : A) (k : A -> M St B) st :
  bind (the (Some a)) k st = k a st.
Proof. reflexivity. Qed.

Lemma bind_io_Ok {A B} (m : M World A) (k : A -> M St B) st a w' :
  m (snd st) = (Ok a, w') -> bind (io m) k st = k a (fst st, w').
Proof. intros H. unfold bind, io. now rewrite H. Qed.

Lemma bind_io_Raise {A B} (m : M World A) (k : A -> M St B) st e w' :
  m (snd st) = (Raise e, w') -> bind (io m) k st = (Raise e, (fst st, w')).
Proof. intros H. unfold bind, io. now rewrite H. Qed.

End StatsLaws.

Ltac fields :=
  cbn beta iota delta
    [fst snd
     Stats.username Stats._ignore_forked_repos Stats._exclude_repos
     Stats._exclude_langs Stats._emails Stats._name Stats._stargazers
     Stats._forks Stats._forks_made Stats._total_contributions
     Stats._total_commits Stats._prs Stats._issues Stats._languages
     Stats._repos Stats._lines_changed Stats._views Stats._stats_lock
     Stats._stats_fetched
     Stats.set_name Stats.set_stargazers Stats.set_forks Stats.set_forks_made
     Stats.set_total_contributions Stats.set_total_commits Stats.set_prs
     Stats.set_issues Stats.set_languages Stats.set_repos
     Stats.set_lines_changed Stats.set_views Stats.set_stats_lock
     Stats.set_stats_fetched].

Tactic Notation "fields" "in" hyp(H) :=
  cbn beta iota delta
    [fst snd
     Stats.username Stats._ignore_forked_repos Stats._exclude_repos
     Stats._exclude_langs Stats._emails Stats._name Stats._stargazers
     Stats._forks Stats._forks_made Stats._total_contributions
     Stats._total_commits Stats._prs Stats._issues Stats._languages
     Stats._repos Stats._lines_changed Stats._views Stats._stats_lock
     Stats._stats_fetched
     Stats.set_name Stats.set_stargazers Stats.set_forks Stats.set_forks_made
     Stats.set_total_contributions Stats.set_total_commits Stats.set_prs
     Stats.set_issues Stats.set_languages Stats.set_repos
     Stats.set_lines_changed Stats.set_views Stats.set_stats_lock
     Stats.set_stats_fetched] in H.

Ltac mstep :=
  repeat (progress (rewrite ?bind_bind, ?bind_ret, ?bind_lift_Ok,
                      ?bind_lift_Raise, ?bind_lift_Unfinished, ?bind_raise,
                      ?bind_gets, ?bind_modify, ?bind_attr, ?bind_assign,
                      ?bind_say, ?bind_the;
                    fields)).


Ltac mred :=
  cbn [bind lift ret raise unfinished gets modify fst snd
       Stats.attr Stats.assign Stats.the Stats.io Stats.say Stats.assert].

Lemma get_ok_dict (d : json) (k : string) (dflt v : json) :
  get d k dflt = Ok v -> exists fields, d = JObj fields.
Proof. destruct d; simpl; try discriminate. eauto. Qed.

(** ** Calls that end *)

Section Finishing.
Context {W : Type}.

Lemma finishes_ret {A} (a : A) : finishes (W := W) (ret a).
Proof. intros st. discriminate. Qed.

Lemma finishes_raise {A} e : finishes (W := W) (A := A) (raise e).
Proof. intros st. discriminate. Qed.

Lemma finishes_lift {A} (r : res A) : r <> Unfinished -> finishes (W := W) (lift r).
Proof. intros H st. exact H. Qed.

Lemma finishes_gets {A} (f : W -> A) : finishes (gets f).
Proof. intros st. discriminate. Qed.

Lemma finishes_modify (f : W -> W) : finishes (modify f).
Proof. intros st. discriminate. Qed.

Lemma finishes_bind {A B} (m : M W A) (k : A -> M W B) :
  finishes m -> (forall a, finishes (k a)) -> finishes (bind m k).
Proof.
  intros Hm Hk st. unfold bind. specialize (Hm st).
  destruct (m st) as [[a|e|] st']; cbn in *.
  - apply Hk.
  - discriminate.
  - congruence.
Qed.

Lemma finishes_for_each {A} (xs : list A) (body : A -> M W unit) :
  (forall x, finishes (body x)) -> finishes (for_each xs body).
Proof.
  intros H. induction xs as [|x xs IH]; cbn [for_each].
  - apply finishes_ret.
  - apply finishes_bind; auto.
Qed.

Lemma finishes_if {A} (c : bool) (m1 m2 : M W A) :
  finishes m1 -> finishes m2 -> finishes (if c then m1 else m2).
Proof. now destruct c. Qed.

End Finishing.

Lemma get_ends d k v : get d k v <> Unfinished.
Proof. destruct d; discriminate. Qed.
Lemma getitem_ends d k : getitem d k <> Unfinished.
Proof. destruct d; try discriminate. cbn. destruct (lookup k fields); discriminate. Qed.
Lemma int_iadd_ends a v : int_iadd a v <> Unfinished.
Proof. unfold int_iadd. destruct (int_of v); discriminate. Qed.
Lemma iter_ends v : iter v <> Unfinished.
Proof. destruct v; discriminate. Qed.
Lemma iadd_ends x y : iadd x y <> Unfinished.
Proof.
  destruct x; cbn; try discriminate.
  - destruct (int_of y); discriminate.
  - destruct (int_of y); discriminate.
  - destruct y; discriminate.
  - destruct y; discriminate.
Qed.
Lemma set_contains_ends v s : set_contains v s <> Unfinished.
Proof. unfold set_contains. destruct (hashable v); discriminate. Qed.
Lemma str_lower_ends {U : Unicode} v : str_lower v <> Unfinished.
Proof. destruct v; discriminate. Qed.
Lemma contains_str_ends k c : contains_str k c <> Unfinished.
Proof. destruct c; discriminate. Qed.
Lemma values_ends d : values d <> Unfinished.
Proof. destruct d; discriminate. Qed.

Create HintDb ends.
#[global] Hint Resolve finishes_ret finishes_raise finishes_lift finishes_gets
  finishes_modify finishes_if get_ends getitem_ends int_iadd_ends iter_ends
  iadd_ends set_contains_ends str_lower_ends contains_str_ends values_ends
  : ends.

Ltac ends_step :=
  lazymatch goal with
  | |- finishes (bind _ _) => apply finishes_bind; [|intros ?]
  | |- finishes (for_each _ _) => apply finishes_for_each; intros ?
  | |- finishes (match ?x with _ => _ end) => destruct x
  | |- _ => solve [auto with ends | intros ?; discriminate]
  end.

Ltac ends := repeat ends_step.

(** ** The language map *)

Section LanguageFacts.
Import Stats.
Context {T : Transport} {U : Unicode}.

Lemma existsb_lower (n : string) (excluded : list string) :
  existsb (String.eqb (lower n)) (map lower excluded) = true
  <-> exists x, In x excluded /\ lower x = lower n.
Proof.
  rewrite existsb_exists. split.
  - intros (y & Hy & E). apply in_map_iff in Hy as (x & <- & Hx).
    apply String.eqb_eq in E. eauto.
  - intros (x & Hx & E). exists (lower x). split.
    + now apply in_map.
    + apply String.eqb_eq. congruence.
Qed.

Lemma lang_find_store_same k e d : lang_find k (lang_store k e d) = Some e.
Proof.
  induction d as [|[k' e'] d IH]; simpl.
  - now rewrite String.eqb_refl.
  - destruct (String.eqb k k') eqn:E; simpl; rewrite E; auto.
Qed.

Lemma lang_find_store_other k k' e d :
  k' <> k -> lang_find k' (lang_store k e d) = lang_find k' d.
Proof.
  intros N. induction d as [|[k0 e0] d IH]; simpl.
  - apply String.eqb_neq in N. now rewrite N.
  - destruct (String.eqb k k0) eqn:E; simpl.
    + apply String.eqb_eq in E. subst k0.
      apply String.eqb_neq in N. now rewrite N.
    + destruct (String.eqb k' k0); auto.
Qed.

(** C9.  An edge whose language name equals an excluded name up to case
    changes nothing; an edge that is kept is filed under its name exactly
    as the service spells it, every other key (other spellings included)
    being left alone.  With ["HTML"] excluded, a repository with 100 bytes
    of "html" and 300 of "Python" gives the map with the single key
    "Python", at 100 percent. *)
Theorem language_exclusion_ignores_case
    (s : Self) (w : World) (excluded : list string) (lang node : json)
    (n : string) :
  get lang "node" empty_dict = Ok node ->
  get node "name" (JStr "Other") = Ok (JStr n) ->
  ((exists x, In x excluded /\ lower x = lower n) ->
     add_language (map lower excluded) lang (s, w) = (Ok tt, (s, w)))
  /\ ((forall x, In x excluded -> lower x <> lower n) ->
      forall d s' w',
        _languages s = Some d ->
        add_language (map lower excluded) lang (s, w) = (Ok tt, (s', w')) ->
        exists d',
          _languages s' = Some d'
          /\ lang_find n d' <> None
          /\ forall k, k <> n -> lang_find k d' = lang_find k d)
  /\ (exists p,
        fst (languages_proportional (T:=scripted) 1
               (Examples.octocat_no_html, Examples.answers [Examples.one_page]))
        = Ok [("Python", p)]
        /\ (Spec.value p == 100)%Q).
Proof.
  intros Hnode Hname.
  destruct (get_ok_dict _ _ _ _ Hnode) as [fields ->].
  unfold add_language. mred. rewrite Hnode. mred. rewrite Hname. mred.
  simpl get. mred.
  split; [|split].
  - intros Hex. apply existsb_lower in Hex. now rewrite Hex.
  - intros Hno d s' w' Hd.
    destruct (existsb (String.eqb (lower n)) (map lower excluded)) eqn:E.
    { apply existsb_lower in E as (x & Hx & Hl). now apply Hno in Hx. }
    mred. rewrite Hd. mred.
    destruct (lang_find n d) as [e|] eqn:F; mred.
    + destruct (iadd (size e) _); try discriminate.
      mred. intros [= <- <-]. simpl.
      eexists. split; [reflexivity|]. split.
      * now rewrite lang_find_store_same.
      * intros k N. now apply lang_find_store_other.
    + destruct (get node "color" JNull) eqn:C; try discriminate. mred.
      intros [= <- <-]. simpl.
      eexists. split; [reflexivity|]. split.
      * now rewrite lang_find_store_same.
      * intros k N. now apply lang_find_store_other.
  - exists (Float Spec.hundred). split; [|vm_compute; reflexivity].
    pose proof (lower_of_ascii "HTML" eq_refl) as E1.
    pose proof (lower_of_ascii "html" eq_refl) as E2.
    pose proof (lower_of_ascii "Python" eq_refl) as E3.
    cbn in E1, E2, E3.
    cbv -[lower]. rewrite E1, E2, E3. vm_compute. reflexivity.
Qed.

End LanguageFacts.

(** The "html" edge of the example, with ["HTML"] excluded. *)
Lemma language_exclusion_witness :
  get (Examples.edge "html" 100) "node" empty_dict
  = Ok (JObj [("name", JStr "html"); ("color", JNull)])
  /\ get (JObj [("name", JStr "html"); ("color", JNull)]) "name" (JStr "Other")
     = Ok (JStr "html")
  /\ Stats.add_language (T:=scripted) (U:=ascii_only)
       (map ascii_lower ["HTML"]) (Examples.edge "html" 100)
       (Examples.octocat_no_html, Examples.answers [])
     = (Ok tt, (Examples.octocat_no_html, Examples.answers [])).
Proof.
  split; [reflexivity|]. split; [reflexivity|].
  apply (proj1 (language_exclusion_ignores_case (T:=scripted)
                  (U:=ascii_only) Examples.octocat_no_html (Examples.answers []) ["HTML"]
                  (Examples.edge "html" 100)
                  (JObj [("name", JStr "html"); ("color", JNull)]) "html"
                  eq_refl eq_refl)).
  exists "HTML". split; [left; reflexivity | reflexivity].
Defined.

(** ** Total contributions *)

Section ContributionFacts.
Import Stats Spec.
Context {T : Transport} {U : Unicode}.

Lemma set_total_contributions_twice a b s :
  set_total_contributions b (set_total_contributions a s)
  = set_total_contributions b s.
Proof. now destruct s. Qed.

(** The loop over the per-year totals. *)
Lemma contributions_loop (ys : list json) :
  forall (cs : list json) (acc sum : Z) (s : Self) (w : World),
  Queries.map_res contribution_of ys = Ok cs ->
  py_sum acc cs = Ok sum ->
  for_each ys (fun year =>
      cal <- lift (get year "contributionCalendar" empty_dict) ;;
      contrib <- lift (get cal "totalContributions" (JNum 0)) ;;
      o <- attr _total_contributions ;;
      total <- the o ;;
      total' <- lift (int_iadd total contrib) ;;
      assign (set_total_contributions (Some total')))
    (set_total_contributions (Some acc) s, w)
  = (Ok tt, (set_total_contributions (Some sum) s, w)).
Proof.
  induction ys as [|y ys IH]; intros cs acc sum s w Hm Hs.
  - simpl in Hm. injection Hm as <-. simpl in Hs. injection Hs as <-. reflexivity.
  - simpl in Hm. unfold contribution_of at 1 in Hm.
    destruct (get y "contributionCalendar" empty_dict) as [cal| |] eqn:E1; try discriminate.
    destruct (get cal "totalContributions" (JNum 0)) as [c| |] eqn:E2; try discriminate.
    destruct (Queries.map_res contribution_of ys) as [cs'| |] eqn:E3; try discriminate.
    injection Hm as <-. simpl in Hs.
    destruct (int_iadd acc c) as [acc'| |] eqn:E4; try discriminate.
    cbn [for_each]. mstep. rewrite E1. mstep. rewrite E2. mstep.
    rewrite E4. mstep. rewrite set_total_contributions_twice.
    now apply IH with (cs := cs').
Qed.

(** C8.  [total_contributions] asks for the contribution years, then sends
    one query for all of them and returns the sum of the totals it reports,
    which it also keeps; when the first answer lists no year it prints the
    warning and returns 0 without a second query.  For the years "2020" and
    "2021" reporting 5 and 7 the result is 12. *)
Theorem total_contributions_sums (s : Self) (w w1 : World) (r1 years : json) :
  _total_contributions s = None ->
  Queries.query Queries.contrib_years w = (Ok r1, w1) ->
  years_of r1 = Ok years ->
  (truthy years = false ->
     total_contributions (s, w)
     = (Ok 0, (set_total_contributions (Some 0) s,
               emit (Print NoContributionYears) w1)))
  /\ (truthy years = true ->
      forall (document : string) (r2 v : json) (w2 : World)
             (by_year totals : list json) (sum : Z),
        Queries.all_contribs years = Ok document ->
        Queries.query document w1 = (Ok r2, w2) ->
        viewer_of r2 = Ok v ->
        values v = Ok by_year ->
        Queries.map_res contribution_of by_year = Ok totals ->
        py_sum 0 totals = Ok sum ->
        total_contributions (s, w)
        = (Ok sum, (set_total_contributions (Some sum) s, w2)))
  /\ fst (total_contributions (T:=scripted)
            (Examples.octocat,
             Examples.answers
               [Examples.years_answer [JStr "2020"; JStr "2021"];
                Examples.by_year_answer [("year2020", 5); ("year2021", 7)]]))
     = Ok 12.
Proof.
  intros Hnone Hq Hy. unfold years_of in Hy.
  destruct (viewer_of r1) as [v1| |] eqn:V1; try discriminate.
  destruct (get v1 "contributionsCollection" empty_dict) as [cc| |] eqn:C1;
    try discriminate.
  assert (Hhead : forall k : json -> M St Z,
    (r <- io (Queries.query Queries.contrib_years) ;;
     v <- lift (viewer_of r) ;;
     cc <- lift (get v "contributionsCollection" empty_dict) ;;
     years <- lift (get cc "contributionYears" (JArr [])) ;;
     k years) (set_total_contributions (Some 0) s, w)
    = k years (set_total_contributions (Some 0) s, w1)).
  { intros k. rewrite (bind_io_Ok _ _ _ r1 w1) by exact Hq.
    fields. rewrite V1. mstep. rewrite C1. mstep. rewrite Hy. now mstep. }
  unfold total_contributions. mstep. rewrite Hnone. mstep.
  rewrite Hhead.
  split; [|split]; [| |reflexivity].
  - intros ->. cbn [negb]. mstep. reflexivity.
  - intros -> document r2 v w2 by_year totals sum Hd Hq2 Hv Hvals Hm Hs.
    cbn [negb]. rewrite Hd. mstep.
    rewrite (bind_io_Ok _ _ _ r2 w2) by exact Hq2. fields.
    rewrite Hv. mstep. rewrite Hvals. mstep.
    rewrite (bind_Ok _ _ _ _ _ (contributions_loop by_year totals 0 sum s w2 Hm Hs)).
    mstep. reflexivity.
Qed.

End ContributionFacts.

(** The years "2020" and "2021" with 5 and 7 contributions: two queries,
    12. *)
Lemma total_contributions_witness :
  let years := [JStr "2020"; JStr "2021"] in
  let first := Examples.years_answer years in
  let second := Examples.by_year_answer [("year2020", 5); ("year2021", 7)] in
  let document :=
    match Queries.all_contribs (JArr years) with Ok d => d | _ => "" end in
  Stats._total_contributions Examples.octocat = None
  /\ Queries.query (T:=scripted) Queries.contrib_years
       (Examples.answers [first; second])
     = (Ok first,
        mkWorld (T:=scripted) (mkScript [PostDecoded second] [] [] [])
          [Post Queries.contrib_years])
  /\ Spec.years_of first = Ok (JArr years)
  /\ Stats.total_contributions (T:=scripted)
       (Examples.octocat, Examples.answers [first; second])
     = (Ok 12,
        (Stats.set_total_contributions (Some 12) Examples.octocat,
         mkWorld (T:=scripted) (mkScript [] [] [] [])
           [Post Queries.contrib_years; Post document])).
Proof.
  intros years first second document.
  split; [reflexivity|]. split; [reflexivity|]. split; [reflexivity|].
  refine (proj1 (proj2 (total_contributions_sums (T:=scripted) Examples.octocat
                  (Examples.answers [first; second])
                  (mkWorld (T:=scripted) (mkScript [PostDecoded second] [] [] [])
                     [Post Queries.contrib_years])
                  first (JArr years)
                  eq_refl eq_refl eq_refl))
            eq_refl document second
            (JObj [("year2020", Examples.calendar 5);
                   ("year2021", Examples.calendar 7)])
            _ [Examples.calendar 5; Examples.calendar 7]
            [JNum 5; JNum 7] 12 _ _ _ _ _ _); reflexivity.
Defined.

(** ** Total commits *)

Section CommitFacts.
Import Stats.
Context {T : Transport} {U : Unicode}.
Variable answer : string -> json.
Hypothesis deterministic :
  forall document n, session_post document n = (PostDecoded (answer document), n).

Lemma query_deterministic (document : string) (w : World) :
  is_None (answer document) = false ->
  Queries.query document w = (Ok (answer document), emit (Post document) w).
Proof.
  intros H. unfold Queries.query, exchange. rewrite deterministic.
  now rewrite H.
Qed.

Lemma has_user_not_None (r : json) : has_user r = Ok true -> is_None r = false.
Proof. now destruct r. Qed.

Lemma emit_repeat (w : World) (e : event) (k : nat) :
  mkWorld (net (emit e w)) (trace (emit e w) ++ repeat e k)
  = mkWorld (net w) (trace w ++ repeat e (S k)).
Proof. simpl. now rewrite <- app_assoc. Qed.

Lemma commits_loop_same (s : Self) (c : json) (n : Z) (emails : list string) :
  has_user (answer (commits_query_email (username s))) = Ok true ->
  commit_count (answer (commits_query_email (username s))) = Ok c ->
  int_of c = Some n ->
  forall (acc : Z) (w : World),
    commits_loop emails acc (s, w)
    = (Ok (acc + Z.of_nat (List.length emails) * n),
       (s, mkWorld (net w)
             (trace w ++ repeat (Post (commits_query_email (username s)))
                                (List.length emails)))).
Proof.
  intros Hu Hc Hn. induction emails as [|email rest IH]; intros acc w.
  - cbn [commits_loop List.length repeat ret]. rewrite app_nil_r.
    replace (acc + Z.of_nat 0 * n) with acc by lia. now destruct w.
  - cbn [commits_loop]. mstep.
    rewrite (bind_io_Ok _ _ _ _ _
      (query_deterministic _ _ (has_user_not_None _ Hu))).
    fields. rewrite Hu. mstep. rewrite Hc. mstep.
    unfold int_iadd. rewrite Hn. mstep. rewrite IH.
    rewrite emit_repeat.
    change (List.length (email :: rest)) with (S (List.length rest)).
    replace (acc + n + Z.of_nat (List.length rest) * n)
      with (acc + Z.of_nat (S (List.length rest)) * n) by lia.
    reflexivity.
Qed.

(** C10.  With emails given, the document sent for each of them is the one
    built from the username alone, so the same document goes out once per
    email; against a service whose answer depends on the document only,
    the result is the number of emails times the count that document gets.
    It is that many times the result computed without emails whenever the
    document of that branch, which differs in indentation only, gets the
    same count. *)
Theorem total_commits_repeats_the_username_query
    (s : Self) (w : World) (emails : list string) (c : json) (n : Z) :
  _emails s = Some emails ->
  emails <> [] ->
  has_user (answer (commits_query_email (username s))) = Ok true ->
  commit_count (answer (commits_query_email (username s))) = Ok c ->
  int_of c = Some n ->
  total_commits (s, w)
  = (Ok (JNum (Z.of_nat (List.length emails) * n)),
     (s, mkWorld (net w)
           (trace w ++ repeat (Post (commits_query_email (username s)))
                              (List.length emails))))
  /\ forall s0 : Self,
       _emails s0 = None ->
       username s0 = username s ->
       has_user (answer (commits_query_username (username s))) = Ok true ->
       commit_count (answer (commits_query_username (username s))) = Ok c ->
       fst (total_commits (s0, w)) = Ok c.
Proof.
  intros He Hne Hu Hc Hn. split.
  - unfold total_commits. mstep. rewrite He.
    destruct emails as [|e es]; [congruence|]. cbv beta iota.
    rewrite (bind_Ok _ _ _ _ _ (commits_loop_same s c n (e :: es) Hu Hc Hn 0 w)).
    reflexivity.
  - intros s0 He0 Hname Hu0 Hc0. unfold total_commits. mstep.
    rewrite He0. cbv beta iota. mstep. rewrite Hname.
    rewrite (bind_io_Ok _ _ _ _ _
      (query_deterministic _ _ (has_user_not_None _ Hu0))).
    fields. rewrite Hu0. mstep. now rewrite Hc0.
Qed.

End CommitFacts.

(** Three emails against a service that answers 7 to everything. *)
Lemma total_commits_witness :
  let T := oracle (fun _ => Examples.commits 7) (fun _ => GetFailed) in
  let s := Stats.init "octocat" None None false
             (Some ["a@example.org"; "b@example.org"; "c@example.org"]) in
  (forall document n,
     session_post (Transport:=T) document n = (PostDecoded (Examples.commits 7), n))
  /\ Stats._emails s
     = Some ["a@example.org"; "b@example.org"; "c@example.org"]
  /\ ["a@example.org"; "b@example.org"; "c@example.org"] <> []
  /\ Stats.has_user (Examples.commits 7) = Ok true
  /\ Stats.commit_count (Examples.commits 7) = Ok (JNum 7)
  /\ int_of (JNum 7) = Some 7
  /\ fst (Stats.total_commits (T:=T) (s, mkWorld (T:=T) tt [])) = Ok (JNum 21).
Proof.
  intros T s.
  split; [reflexivity|]. split; [reflexivity|]. split; [discriminate|].
  split; [reflexivity|]. split; [reflexivity|]. split; [reflexivity|].
  refine (f_equal fst
    (proj1 (total_commits_repeats_the_username_query (T:=T)
              (fun _ => Examples.commits 7) (fun _ _ => eq_refl)
              s (mkWorld (T:=T) tt [])
              ["a@example.org"; "b@example.org"; "c@example.org"]
              (JNum 7) 7 eq_refl _ eq_refl eq_refl eq_refl))).
  discriminate.
Defined.

(** ** REST requests, lines changed and views *)

Section RestFacts.
Import Stats.
Context {T : Transport} {U : Unicode}.

Lemma query_rest_loop_404 (k : nat) (attempt : Z) (path : string)
    (params : list (string * json)) (w : World) (body : option json)
    (n' : Net) :
  session_get (Queries.strip_slash path)
    (is_substring "/search/commits" path) params (net w)
  = (GetResponse 404 body, n') ->
  Queries.query_rest_loop (S k) attempt path params w
  = (Ok empty_dict,
     mkWorld n'
       (trace w ++ [Get (Queries.strip_slash path)
                        (is_substring "/search/commits" path);
                    Print (Rest404 (Queries.strip_slash path))])).
Proof.
  intros H. cbn [Queries.query_rest_loop].
  unfold Queries.rest_attempt, exchange. rewrite H.
  unfold emit. cbn. now rewrite <- app_assoc.
Qed.

Lemma query_rest_loop_returns (k : nat) :
  forall attempt path params w,
    exists r w', Queries.query_rest_loop k attempt path params w = (Ok r, w').
Proof.
  induction k as [|k IH]; intros attempt path params w.
  - cbn. eauto.
  - cbn [Queries.query_rest_loop].
    destruct (Queries.rest_attempt attempt (Queries.strip_slash path)
                (is_substring "/search/commits" path) params w)
      as [[r|] w'].
    + eauto.
    + apply IH.
Qed.

Lemma query_rest_returns path params w :
  exists r w', Queries.query_rest path params w = (Ok r, w').
Proof. apply query_rest_loop_returns. Qed.

Lemma lines_of_repo_empty (s : Self) (w w' : World) (repo r : json) totals :
  Queries.query_rest ("/repos/" ++ str_of repo ++ "/stats/contributors") None w
  = (Ok r, w') ->
  truthy r = false ->
  lines_of_repo repo totals (s, w)
  = (Ok totals, (s, emit (Print (InvalidResponse repo)) w')).
Proof.
  intros Hq Hr. unfold lines_of_repo. mstep.
  erewrite bind_io_Ok by exact Hq. fields.
  destruct r as [| | | |[|a l]|]; try discriminate Hr; reflexivity.
Qed.

Lemma views_of_repo_empty (s : Self) (w w' : World) (repo r : json) total :
  Queries.query_rest ("/repos/" ++ str_of repo ++ "/traffic/views") None w
  = (Ok r, w') ->
  truthy r = false ->
  views_of_repo repo total (s, w)
  = (Ok total, (s, emit (Print (InvalidResponse repo)) w')).
Proof.
  intros Hq Hr. unfold views_of_repo.
  erewrite bind_io_Ok by exact Hq. fields.
  destruct r as [| | | | |[|a l]]; try discriminate Hr; reflexivity.
Qed.

Lemma add_week_ends week : finishes (add_week week).
Proof. unfold add_week. destruct (is_dict week); ends. Qed.

Lemma add_author_ends username author_obj :
  finishes (add_author username author_obj).
Proof.
  unfold add_author. ends. apply add_week_ends.
Qed.

Lemma lines_of_repo_returns repo totals st :
  exists t st', lines_of_repo repo totals st = (Ok t, st').
Proof.
  unfold lines_of_repo. mstep.
  destruct (query_rest_returns
              ("/repos/" ++ str_of repo ++ "/stats/contributors") None (snd st))
    as (r & w' & Hq).
  erewrite bind_io_Ok by exact Hq.
  destruct r as [| | | |[|a l]|]; try (mstep; unfold ret; eauto).
  pose proof (finishes_for_each (a :: l) (add_author (username (fst st)))
                (add_author_ends _) totals) as F.
  destruct (for_each (a :: l) (add_author (username (fst st))) totals)
    as [[[]| |] t]; mstep; unfold ret; eauto. now elim F.
Qed.

Lemma add_view_ends view : finishes (add_view view).
Proof. unfold add_view. ends. Qed.

Lemma views_of_repo_returns repo total st :
  exists t st', views_of_repo repo total st = (Ok t, st').
Proof.
  unfold views_of_repo.
  destruct (query_rest_returns
              ("/repos/" ++ str_of repo ++ "/traffic/views") None (snd st))
    as (r & w' & Hq).
  erewrite bind_io_Ok by exact Hq.
  destruct r as [| | | | |[|a l]]; try (mstep; unfold ret; eauto).
  match goal with
  | |- context [match ?m total with _ => _ end] =>
      assert (F : finishes m) by (ends; apply add_view_ends);
      specialize (F total); destruct (m total) as [[[]| |] t]
  end; mstep; unfold ret; eauto. now elim F.
Qed.

Lemma lines_loop_returns repos :
  forall totals st, exists t st', lines_loop repos totals st = (Ok t, st').
Proof.
  induction repos as [|repo rest IH]; intros totals st; cbn [lines_loop].
  - unfold ret. eauto.
  - destruct (lines_of_repo_returns repo totals st) as (t & st' & H).
    erewrite bind_Ok by exact H. apply IH.
Qed.

Lemma views_loop_returns repos :
  forall total st, exists t st', views_loop repos total st = (Ok t, st').
Proof.
  induction repos as [|repo rest IH]; intros total st; cbn [views_loop].
  - unfold ret. eauto.
  - destruct (views_of_repo_returns repo total st) as (t & st' & H).
    erewrite bind_Ok by exact H. apply IH.
Qed.

Lemma query_rest_loop_fallback_404 (k : nat) (attempt : Z) (path : string)
    (params : list (string * json)) (w : World) (o : get_outcome)
    (n : Net) (body : option json) (n' : Net) :
  let sent_path := Queries.strip_slash path in
  let cloak := is_substring "/search/commits" path in
  session_get sent_path cloak params (net w) = (o, n) ->
  Wire.session_failed o ->
  requests_get sent_path cloak params n = (GetResponse 404 body, n') ->
  Queries.query_rest_loop (S k) attempt path params w
  = (Ok empty_dict,
     mkWorld n'
       (trace w ++ [Get sent_path cloak; Print (AiohttpFailedRest sent_path);
                    GetSync sent_path cloak; Print (Fallback404 sent_path)])).
Proof.
  intros sent_path cloak H F R. cbn [Queries.query_rest_loop].
  fold sent_path cloak.
  assert (Queries.rest_fallback attempt sent_path cloak params
            (mkWorld n (trace w ++ [Get sent_path cloak]))
          = (Some empty_dict,
             mkWorld n'
               (trace w ++ [Get sent_path cloak;
                            Print (AiohttpFailedRest sent_path);
                            GetSync sent_path cloak;
                            Print (Fallback404 sent_path)]))) as B.
  { unfold Queries.rest_fallback, exchange, emit. cbn [net trace].
    rewrite R. cbn. now rewrite <- !app_assoc. }
  unfold Queries.rest_attempt, exchange. rewrite H.
  destruct o as [|status [b|]]; cbn beta iota zeta.
  - now rewrite B.
  - now destruct F.
  - destruct F as (_ & F2 & F3 & F4).
    apply Z.eqb_neq in F2, F3, F4. rewrite F2, F3, F4. now rewrite B.
Qed.

(** C7.  A request answered with 404, by the session or by the fallback
    client, ends [query_rest] on the spot, whatever the turn of the retry
    loop: the empty dict is returned after that request, with no sleep and
    no further attempt.  In [lines_changed] and in [views] a repository
    whose request ends so leaves the totals as they were, and the loop goes
    on with the repositories that remain; neither loop ever ends with an
    exception. *)
Theorem not_found_is_empty_and_skipped
    (s : Self) (w w404 : World) (path : string)
    (params : list (string * json)) :
  Wire.not_found path params w w404 ->
  (forall k attempt,
     Queries.query_rest_loop (S k) attempt path params w
     = (Ok empty_dict, w404))
  /\ Wire.slept (skipn (List.length (trace w)) (trace w404)) = 0
  /\ (forall repo rest totals,
        path = "/repos/" ++ str_of repo ++ "/stats/contributors" ->
        params = [] ->
        lines_loop (repo :: rest) totals (s, w)
        = lines_loop rest totals (s, emit (Print (InvalidResponse repo)) w404))
  /\ (forall repo rest total,
        path = "/repos/" ++ str_of repo ++ "/traffic/views" ->
        params = [] ->
        views_loop (repo :: rest) total (s, w)
        = views_loop rest total (s, emit (Print (InvalidResponse repo)) w404))
  /\ (forall repos totals st,
        exists t st', lines_loop repos totals st = (Ok t, st'))
  /\ (forall repos total st,
        exists t st', views_loop repos total st = (Ok t, st')).
Proof.
  intros H.
  assert (A : forall k attempt,
             Queries.query_rest_loop (S k) attempt path params w
             = (Ok empty_dict, w404)).
  { intros k attempt.
    destruct H as [(body & n & H & ->)|(o & n & body & n' & H & F & R & ->)].
    - now apply query_rest_loop_404 with (body := body).
    - now apply query_rest_loop_fallback_404 with (o := o) (n := n)
                                                   (body := body). }
  split; [exact A|]. split; [|split; [|split; [|split]]].
  - destruct H as [(body & n & _ & ->)|(o & n & body & n' & _ & _ & _ & ->)];
      cbn [trace]; rewrite skipn_app, skipn_all, Nat.sub_diag; reflexivity.
  - intros repo rest totals -> ->. cbn [lines_loop].
    erewrite bind_Ok; [reflexivity|].
    exact (lines_of_repo_empty s w w404 repo empty_dict totals
             (A 59%nat 0) eq_refl).
  - intros repo rest total -> ->. cbn [views_loop].
    erewrite bind_Ok; [reflexivity|].
    exact (views_of_repo_empty s w w404 repo empty_dict total
             (A 59%nat 0) eq_refl).
  - intros repos. apply lines_loop_returns.
  - intros repos. apply views_loop_returns.
Qed.

End RestFacts.

(** Two repositories.  For the first the session is down and the fallback
    client answers 404; the second has statistics.  The first adds nothing
    and the second is counted. *)
Lemma not_found_witness :
  let gone := JStr "octocat/gone" in
  let alive := JStr "octocat/alive" in
  let path := "/repos/octocat/gone/stats/contributors" in
  let sent_path := "repos/octocat/gone/stats/contributors" in
  let w :=
    mkWorld (T:=scripted)
      (mkScript [] []
         [GetFailed; GetResponse 200 (Some Examples.contributors)]
         [GetResponse 404 None]) [] in
  let w404 :=
    mkWorld (T:=scripted)
      (mkScript [] [] [GetResponse 200 (Some Examples.contributors)] [])
      [Get sent_path false; Print (AiohttpFailedRest sent_path);
       GetSync sent_path false; Print (Fallback404 sent_path)] in
  Wire.not_found path [] w w404
  /\ Queries.query_rest (T:=scripted) path None w = (Ok empty_dict, w404)
  /\ exists w' : World (T:=scripted),
       Stats.lines_loop (T:=scripted) (U:=ascii_only) [gone; alive] (0, 0)
         (Examples.octocat, w)
       = (Ok (11, 6), (Examples.octocat, w'))
       /\ Wire.sent Wire.is_get (trace w') = 2%nat.
Proof.
  intros gone alive path sent_path w w404.
  assert (N : Wire.not_found path [] w w404).
  { right. exists GetFailed. eexists. exists None. eexists.
    repeat split; reflexivity. }
  split; [exact N|].
  pose proof (not_found_is_empty_and_skipped (T:=scripted) (U:=ascii_only)
                Examples.octocat
                w w404 path [] N) as (A & _ & L & _).
  split; [exact (A 59%nat 0)|].
  eexists. rewrite (L gone [alive] (0, 0) eq_refl eq_refl).
  vm_compute. split; reflexivity.
Defined.

(** ** Floats

    What [SFdiv] and [SFmul] return in the normal range, and how far it is
    from the exact quotient and product. *)

Section FloatFacts.
Import Spec.

Lemma digits2_pos_bounds (p : positive) :
  2 ^ (Zpos (digits2_pos p) - 1) <= Zpos p < 2 ^ Zpos (digits2_pos p).
Proof.
  induction p as [p IH|p IH|]; cbn [digits2_pos].
  - rewrite Pos2Z.inj_succ, (Pos2Z.inj_xI p).
    replace (Z.succ (Zpos (digits2_pos p)) - 1)
      with (Z.succ (Zpos (digits2_pos p) - 1)) by lia.
    rewrite !Z.pow_succ_r by lia.
    set (A := 2 ^ (Zpos (digits2_pos p) - 1)) in *.
    set (B := 2 ^ Zpos (digits2_pos p)) in *. clearbody A B. lia.
  - rewrite Pos2Z.inj_succ, (Pos2Z.inj_xO p).
    replace (Z.succ (Zpos (digits2_pos p)) - 1)
      with (Z.succ (Zpos (digits2_pos p) - 1)) by lia.
    rewrite !Z.pow_succ_r by lia.
    set (A := 2 ^ (Zpos (digits2_pos p) - 1)) in *.
    set (B := 2 ^ Zpos (digits2_pos p)) in *. clearbody A B. lia.
  - cbn. lia.
Qed.

Lemma digits2_pos_unique (p : positive) (d : Z) :
  2 ^ (d - 1) <= Zpos p < 2 ^ d -> Zpos (digits2_pos p) = d.
Proof.
  intros [L H]. pose proof (digits2_pos_bounds p) as [L' H'].
  assert (0 < d).
  { destruct (Z.ltb_spec 0 d) as [|N]; [assumption|].
    assert (2 ^ d <= 2 ^ 0) by (apply Z.pow_le_mono_r; lia).
    cbn in *. lia. }
  destruct (Z.lt_trichotomy (Zpos (digits2_pos p)) d) as [C|[C|C]];
    [|exact C|].
  - assert (2 ^ Zpos (digits2_pos p) <= 2 ^ (d - 1))
      by (apply Z.pow_le_mono_r; lia). lia.
  - assert (2 ^ d <= 2 ^ (Zpos (digits2_pos p) - 1))
      by (apply Z.pow_le_mono_r; lia). lia.
Qed.

Lemma shr_step (m' N D : Z) (b r s : bool) :
  0 <= m' -> 0 < D ->
  let m := 2 * m' + Z.b2z b in
  m * D <= N < (m + 1) * D ->
  (r = true <-> (2 * m + 1) * D <= 2 * N) ->
  (s = true <-> N <> m * D /\ 2 * N <> (2 * m + 1) * D) ->
  m' * (2 * D) <= N < (m' + 1) * (2 * D)
  /\ (b = true <-> (2 * m' + 1) * (2 * D) <= 2 * N)
  /\ (r || s = true
      <-> N <> m' * (2 * D) /\ 2 * N <> (2 * m' + 1) * (2 * D)).
Proof.
  intros H0 HD m H1 Hr Hs. subst m.
  remember (m' * D) as P eqn:EP.
  assert (E1 : (2 * m' + Z.b2z b) * D = 2 * P + Z.b2z b * D) by (subst P; ring).
  assert (E2 : (2 * m' + Z.b2z b + 1) * D = 2 * P + Z.b2z b * D + D)
    by (subst P; ring).
  assert (E3 : (2 * (2 * m' + Z.b2z b) + 1) * D = 4 * P + 2 * Z.b2z b * D + D)
    by (subst P; ring).
  assert (E4 : m' * (2 * D) = 2 * P) by (subst P; ring).
  assert (E5 : (m' + 1) * (2 * D) = 2 * P + 2 * D) by (subst P; ring).
  assert (E6 : (2 * m' + 1) * (2 * D) = 4 * P + 2 * D) by (subst P; ring).
  rewrite E1, E2 in H1. rewrite E3 in Hr. rewrite E1, E3 in Hs.
  rewrite E4, E5, E6. clear E1 E2 E3 E4 E5 E6 EP.
  rewrite orb_true_iff.
  match type of Hr with
  | _ <-> ?X =>
      assert (Hr' : if r then X else ~ X)
        by (destruct r; [now apply Hr | intros C; apply Hr in C; discriminate])
  end.
  match type of Hs with
  | _ <-> ?X =>
      assert (Hs' : if s then X else ~ X)
        by (destruct s; [now apply Hs | intros C; apply Hs in C; discriminate])
  end.
  clear Hr Hs.
  destruct b, r, s; cbn [Z.b2z] in *;
    rewrite ?Z.mul_1_l, ?Z.mul_0_l, ?Z.mul_1_r, ?Z.mul_0_r, ?Z.add_0_r in *;
    repeat split; intros; try discriminate; try lia;
    try (left; reflexivity); try (right; reflexivity);
    try (exfalso; lia);
    match goal with
    | H : _ \/ _ |- _ => destruct H; discriminate
    end.
Qed.

Lemma shr_1_stands (mrs : shr_record) (N D : Z) :
  0 < D -> stands_for mrs N D -> stands_for (shr_1 mrs) N (2 * D).
Proof.
  intros HD. destruct mrs as [m r s]. unfold stands_for.
  cbn [shr_m shr_r shr_s]. intros (H0 & H1 & Hr & Hs).
  destruct m as [|[p|p|]|p]; try lia; cbn [shr_1 shr_m shr_r shr_s].
  - split; [lia|]. apply (shr_step 0 N D false r s); try lia; assumption.
  - split; [lia|]. rewrite (Pos2Z.inj_xI p) in *.
    apply (shr_step (Zpos p) N D true r s); try lia; assumption.
  - split; [lia|]. rewrite (Pos2Z.inj_xO p) in *.
    apply (shr_step (Zpos p) N D false r s); try lia.
    + cbn [Z.b2z]. rewrite Z.add_0_r. exact H1.
    + cbn [Z.b2z]. rewrite Z.add_0_r. exact Hr.
    + cbn [Z.b2z]. rewrite Z.add_0_r. exact Hs.
  - split; [lia|]. apply (shr_step 0 N D true r s); try lia; assumption.
Qed.

Lemma iter_pos_stands (n : positive) :
  forall mrs N D,
    0 < D -> stands_for mrs N D ->
    stands_for (iter_pos shr_1 n mrs) N (2 ^ Zpos n * D).
Proof.
  induction n as [n IH|n IH|]; intros mrs N D HD H; cbn [iter_pos].
  - apply shr_1_stands in H; [|exact HD].
    apply IH in H; [|lia].
    apply IH in H; [|assert (0 < 2 ^ Zpos n) by (apply Z.pow_pos_nonneg; lia); nia].
    replace (2 ^ Zpos n~1 * D) with (2 ^ Zpos n * (2 ^ Zpos n * (2 * D)));
      [exact H|].
    rewrite (Pos2Z.inj_xI n), Z.add_comm, Z.pow_add_r, Z.pow_1_r by lia.
    replace (2 * Zpos n) with (Zpos n + Zpos n) by lia.
    rewrite Z.pow_add_r by lia. ring.
  - apply IH in H; [|exact HD].
    apply IH in H; [|assert (0 < 2 ^ Zpos n) by (apply Z.pow_pos_nonneg; lia); nia].
    replace (2 ^ Zpos n~0 * D) with (2 ^ Zpos n * (2 ^ Zpos n * D));
      [exact H|].
    rewrite (Pos2Z.inj_xO n).
    replace (2 * Zpos n) with (Zpos n + Zpos n) by lia.
    rewrite Z.pow_add_r by lia. ring.
  - apply shr_1_stands in H; [|exact HD]. exact H.
Qed.

(** Shifting by [k] bits. *)
Lemma shr_stands (mrs : shr_record) (e k N D : Z) :
  0 < D -> 0 <= k -> stands_for mrs N D ->
  stands_for (fst (shr mrs e k)) N (2 ^ k * D)
  /\ snd (shr mrs e k) = e + k.
Proof.
  intros HD Hk H. unfold shr. destruct k as [|p|p]; cbn [fst snd].
  - split; [|lia]. now rewrite Z.pow_0_r, Z.mul_1_l.
  - split; [|reflexivity]. now apply iter_pos_stands.
  - lia.
Qed.

(** Rounding to nearest, ties to even, is off by one half at most. *)
Lemma round_nearest_even_stands (mrs : shr_record) (N D : Z) :
  0 < D -> stands_for mrs N D ->
  let R := round_nearest_even (shr_m mrs) (loc_of_shr_record mrs) in
  shr_m mrs <= R <= shr_m mrs + 1
  /\ Z.abs (2 * (R * D) - 2 * N) <= D.
Proof.
  intros HD. destruct mrs as [m r s]. unfold stands_for.
  cbn [shr_m shr_r shr_s]. intros (H0 & H1 & Hr & Hs).
  remember (m * D) as P eqn:EP.
  assert (E1 : (m + 1) * D = P + D) by (subst P; ring).
  assert (E2 : (2 * m + 1) * D = 2 * P + D) by (subst P; ring).
  rewrite E1 in H1. rewrite E2 in Hr, Hs.
  match type of Hr with
  | _ <-> ?X =>
      assert (Hr' : if r then X else ~ X)
        by (destruct r; [now apply Hr | intros C; apply Hr in C; discriminate])
  end.
  match type of Hs with
  | _ <-> ?X =>
      assert (Hs' : if s then X else ~ X)
        by (destruct s; [now apply Hs | intros C; apply Hs in C; discriminate])
  end.
  clear Hr Hs.
  destruct r, s; cbn [loc_of_shr_record round_nearest_even];
    try (destruct (Z.even m));
    rewrite ?E1; rewrite <- ?EP; (split; [lia|]); lia.
Qed.

Lemma shr_m_of_loc (m : Z) (l : location) : shr_m (shr_record_of_loc m l) = m.
Proof. now destruct l as [|[]]. Qed.

Lemma fexp_normal (e : Z) : -1074 <= e - 53 -> fexp 53 1024 e = e - 53.
Proof. intros H. unfold fexp, emin. lia. Qed.

(** [binary_round_aux] in the normal range: the mantissa [mx] with its
    location stands for [N / D], and it has at least 53 digits. *)
Lemma binary_round_aux_normal (mx : positive) (ex N D : Z) (lx : location) :
  0 < D ->
  stands_for (shr_record_of_loc (Zpos mx) lx) N D ->
  let k := Zpos (digits2_pos mx) - 53 in
  0 <= k -> -1074 <= ex + k <= 970 ->
  exists m e j,
    binary_round_aux 53 1024 false (Zpos mx) ex lx = S754_finite false m e
    /\ e = ex + j /\ k <= j <= k + 1
    /\ 2 ^ 52 <= Zpos m < 2 ^ 53
    /\ Z.abs (Zpos m * 2 ^ j * D - N) * 2 ^ 53 <= N.
Proof.
  intros HD H k Hk He.
  pose proof (digits2_pos_bounds mx) as Hd.
  replace (Zpos (digits2_pos mx)) with (53 + k) in Hd by (unfold k; lia).
  replace (53 + k - 1) with (52 + k) in Hd by lia.
  rewrite !Z.pow_add_r in Hd by lia.
  assert (HK : 0 < 2 ^ k) by (apply Z.pow_pos_nonneg; lia).
  unfold binary_round_aux, shr_fexp. cbn [Zdigits2].
  rewrite fexp_normal by (unfold k in He; lia).
  replace (Zpos (digits2_pos mx) + ex - 53 - ex) with k by (unfold k; lia).
  destruct (shr_stands _ ex k N D HD Hk H) as [S E].
  destruct (shr (shr_record_of_loc (Zpos mx) lx) ex k) as [mrs' e'].
  cbn [fst snd] in S, E. subst e'.
  assert (HKD : 0 < 2 ^ k * D) by nia.
  pose proof (round_nearest_even_stands mrs' N (2 ^ k * D) HKD S) as [HR HRe].
  destruct H as (_ & H1 & _). rewrite shr_m_of_loc in H1.
  destruct S as (S0 & S1 & _).
  remember (shr_m mrs') as m' eqn:Em'.
  remember (round_nearest_even m' (loc_of_shr_record mrs')) as R eqn:ER.
  remember (2 ^ k * D) as KD eqn:EKD.
  assert (B1 : 2 ^ 52 * KD <= N) by (subst KD; nia).
  assert (B2 : N < 2 ^ 53 * KD) by (subst KD; nia).
  assert (Hm' : 2 ^ 52 <= m' < 2 ^ 53) by nia.
  assert (HRb : 2 ^ 52 <= R <= 2 ^ 53) by lia.
  assert (Hbound : Z.abs (R * KD - N) * 2 ^ 53 <= N).
  { replace (2 ^ 53) with (2 ^ 52 * 2) by reflexivity.
    assert (Z.abs (R * KD - N) * 2 <= KD) by lia. nia. }
  destruct R as [|r|r]; [cbn in HRb; lia| |lia].
  destruct (Z.eq_dec (Zpos r) (2 ^ 53)) as [Rtop|Rlow].
  - (* the rounding has carried into a 54th bit *)
    change (2 ^ 53) with 9007199254740992 in Rtop. injection Rtop as ->.
    unfold fexp, emin. cbn [Zdigits2 digits2_pos Pos.succ].
    replace (Z.max (54 + (ex + k) - 53) (3 - 1024 - 53) - (ex + k)) with 1
      by lia.
    cbn [shr_record_of_loc shr iter_pos shr_1 shr_m].
    assert ((ex + k + 1 <=? 1024 - 53)%Z = true) as -> by lia.
    exists 4503599627370496%positive, (ex + k + 1), (k + 1).
    split; [reflexivity|]. split; [lia|]. split; [lia|].
    split; [cbn; lia|].
    replace (4503599627370496 * 2 ^ (k + 1) * D)
      with (9007199254740992 * KD); [exact Hbound|].
    subst KD. rewrite Z.pow_add_r, Z.pow_1_r by lia. ring.
  - assert (Dg : Zpos (digits2_pos r) = 53).
    { apply digits2_pos_unique. change (53 - 1) with 52. lia. }
    cbn [Zdigits2]. rewrite Dg.
    rewrite fexp_normal by lia.
    replace (53 + (ex + k) - 53 - (ex + k)) with 0 by lia.
    cbn [shr_record_of_loc shr shr_m].
    assert ((ex + k <=? 1024 - 53)%Z = true) as -> by lia.
    exists r, (ex + k), k.
    split; [reflexivity|]. split; [reflexivity|]. split; [lia|].
    split; [lia|].
    replace (Zpos r * 2 ^ k * D) with (Zpos r * KD); [exact Hbound|].
    subst KD. ring.
Qed.

Lemma new_location_stands (b r q : Z) :
  0 < b -> 0 <= r < b -> 0 <= q ->
  stands_for (shr_record_of_loc q (new_location b r)) (b * q + r) b.
Proof.
  intros Hb Hr Hq. unfold stands_for. rewrite shr_m_of_loc.
  remember (q * b) as P eqn:EP.
  assert (E1 : b * q + r = P + r) by (subst P; ring).
  assert (E2 : (q + 1) * b = P + b) by (subst P; ring).
  assert (E3 : (2 * q + 1) * b = 2 * P + b) by (subst P; ring).
  rewrite E1, E2, E3. clear E1 E2 E3 EP.
  split; [exact Hq|]. split; [lia|].
  unfold new_location, new_location_even, new_location_odd.
  destruct (Z.even b) eqn:Ev.
  - destruct (Z.eqb_spec r 0) as [->|Nz]; cbn [shr_record_of_loc shr_r shr_s].
    + split; split; intros; try discriminate; lia.
    + destruct (Z.compare_spec (2 * r) b);
        cbn [shr_record_of_loc shr_r shr_s];
        split; split; intros; try discriminate; try reflexivity; lia.
  - assert (Od : exists c, b = 2 * c + 1).
    { apply Z.odd_spec. now rewrite <- Z.negb_even, Ev. }
    destruct Od as [c Ec].
    destruct (Z.eqb_spec r 0) as [->|Nz]; cbn [shr_record_of_loc shr_r shr_s].
    + split; split; intros; try discriminate; lia.
    + destruct (Z.compare_spec (2 * r + 1) b);
        cbn [shr_record_of_loc shr_r shr_s];
        split; split; intros; try discriminate; try reflexivity; lia.
Qed.

(** The quotient of two positive integers [a <= b < 2 ^ 1000], rounded
    once. *)
Lemma SFdiv_normal (a b : positive) :
  Zpos a <= Zpos b -> Zpos b < 2 ^ 1000 ->
  exists m e j s,
    SFdiv 53 1024 (S754_finite false a 0) (S754_finite false b 0)
    = S754_finite false m e
    /\ e = j - s /\ 0 <= j <= 2 /\ 53 <= s <= 1052
    /\ 2 ^ 52 <= Zpos m < 2 ^ 53
    /\ Z.abs (Zpos m * 2 ^ j * Zpos b - Zpos a * 2 ^ s) * 2 ^ 53
       <= Zpos a * 2 ^ s.
Proof.
  intros Hab Hb.
  pose proof (digits2_pos_bounds a) as Ha1.
  pose proof (digits2_pos_bounds b) as Hb1.
  remember (Zpos (digits2_pos a)) as d1 eqn:Ed1.
  remember (Zpos (digits2_pos b)) as d2 eqn:Ed2.
  assert (P1 : 0 < d1) by (subst d1; lia).
  assert (P2 : 0 < d2) by (subst d2; lia).
  assert (L12 : d1 <= d2).
  { destruct (Z.leb_spec d1 d2) as [|C]; [assumption|].
    assert (2 ^ d2 <= 2 ^ (d1 - 1)) by (apply Z.pow_le_mono_r; lia). lia. }
  assert (L2 : d2 <= 1000).
  { destruct (Z.leb_spec d2 1000) as [|C]; [assumption|].
    assert (2 ^ 1000 <= 2 ^ (d2 - 1)) by (apply Z.pow_le_mono_r; lia). lia. }
  unfold SFdiv, SFdiv_core_binary. cbn [Zdigits2 xorb].
  rewrite <- Ed1, <- Ed2.
  rewrite fexp_normal by lia.
  replace (Z.min (d1 + 0 - (d2 + 0) - 53) (0 - 0)) with (d1 - d2 - 53) by lia.
  remember (0 - 0 - (d1 - d2 - 53)) as s eqn:Es.
  assert (Hs : 53 <= s <= 1052) by lia.
  destruct s as [|sp|sp]; [lia| |lia].
  rewrite Z.shiftl_mul_pow2 by lia.
  remember (Zpos sp) as s eqn:Esp.
  pose proof (Z_div_mod (Zpos a * 2 ^ s) (Zpos b) eq_refl) as DM.
  destruct (Z.div_eucl (Zpos a * 2 ^ s) (Zpos b)) as [q r].
  destruct DM as [DM Hr].
  (* the size of the quotient *)
  assert (HS : 0 < 2 ^ s) by (apply Z.pow_pos_nonneg; lia).
  assert (EP : 2 ^ (d1 - 1) * 2 ^ s = 2 ^ 53 * 2 ^ (d2 - 1)).
  { rewrite <- !Z.pow_add_r by lia. f_equal. lia. }
  assert (E1 : 2 ^ d1 = 2 * 2 ^ (d1 - 1)).
  { replace d1 with (Z.succ (d1 - 1)) at 1 by lia.
    now rewrite Z.pow_succ_r by lia. }
  assert (E2 : 2 ^ d2 = 2 * 2 ^ (d2 - 1)).
  { replace d2 with (Z.succ (d2 - 1)) at 1 by lia.
    now rewrite Z.pow_succ_r by lia. }
  rewrite E1 in Ha1. rewrite E2 in Hb1.
  remember (2 ^ (d1 - 1)) as A1. remember (2 ^ (d2 - 1)) as B1.
  remember (2 ^ s) as S.
  assert (HB1 : 0 < B1) by (subst B1; apply Z.pow_pos_nonneg; lia).
  assert (Q1 : 2 ^ 53 * B1 <= Zpos a * S) by nia.
  assert (Q2 : Zpos a * S < 2 ^ 54 * B1).
  { replace (2 ^ 54) with (2 * 2 ^ 53) by reflexivity. nia. }
  assert (Hq : 2 ^ 52 <= q < 2 ^ 54).
  { change (2 ^ 54) with 18014398509481984 in *.
    change (2 ^ 53) with 9007199254740992 in *.
    change (2 ^ 52) with 4503599627370496 in *. nia. }
  destruct q as [|qp|qp]; [cbn in Hq; lia| |lia].
  assert (K : 0 <= Zpos (digits2_pos qp) - 53 <= 1).
  { pose proof (digits2_pos_bounds qp) as Hd.
    destruct (Z.leb_spec (Zpos (digits2_pos qp)) 52) as [C|C].
    { assert (2 ^ Zpos (digits2_pos qp) <= 2 ^ 52)
        by (apply Z.pow_le_mono_r; lia). lia. }
    destruct (Z.leb_spec 55 (Zpos (digits2_pos qp))) as [C'|C'].
    { assert (2 ^ 54 <= 2 ^ (Zpos (digits2_pos qp) - 1))
        by (apply Z.pow_le_mono_r; lia). lia. }
    lia. }
  pose proof (new_location_stands (Zpos b) r (Zpos qp) eq_refl Hr
                (Pos2Z.is_nonneg qp)) as St.
  rewrite <- DM in St.
  destruct (binary_round_aux_normal qp (d1 - d2 - 53) (Zpos a * S) (Zpos b)
              (new_location (Zpos b) r) eq_refl St (proj1 K))
    as (m & e & j & E & Ee & Hj & Hm & Hbound); [lia|].
  exists m, e, j, s. rewrite E.
  split; [reflexivity|]. split; [lia|]. split; [lia|]. split; [lia|].
  split; [exact Hm|]. subst S. exact Hbound.
Qed.

Lemma SFmul_hundred (m : positive) (e : Z) :
  2 ^ 52 <= Zpos m < 2 ^ 53 -> -1080 <= e <= 900 ->
  exists m2 e2 j,
    SFmul 53 1024 hundred (S754_finite false m e) = S754_finite false m2 e2
    /\ e2 = e - 46 + j /\ 52 <= j <= 54
    /\ 2 ^ 52 <= Zpos m2 < 2 ^ 53
    /\ Z.abs (Zpos m2 * 2 ^ j - 7036874417766400 * Zpos m) * 2 ^ 53
       <= 7036874417766400 * Zpos m.
Proof.
  intros Hm He. unfold SFmul, hundred. cbn [xorb].
  remember (7036874417766400 * m)%positive as M eqn:EM.
  assert (EZ : Zpos M = 7036874417766400 * Zpos m) by (subst M; apply Pos2Z.inj_mul).
  assert (HM : 2 ^ 104 <= Zpos M < 2 ^ 106).
  { rewrite EZ.
    change (2 ^ 52) with 4503599627370496 in Hm.
    change (2 ^ 53) with 9007199254740992 in Hm.
    change (2 ^ 104) with 20282409603651670423947251286016.
    change (2 ^ 106) with 81129638414606681695789005144064. lia. }
  assert (K : 52 <= Zpos (digits2_pos M) - 53 <= 53).
  { pose proof (digits2_pos_bounds M) as Hd.
    destruct (Z.leb_spec (Zpos (digits2_pos M)) 104) as [C|C].
    { assert (2 ^ Zpos (digits2_pos M) <= 2 ^ 104)
        by (apply Z.pow_le_mono_r; lia). lia. }
    destruct (Z.leb_spec 107 (Zpos (digits2_pos M))) as [C'|C'].
    { assert (2 ^ 106 <= 2 ^ (Zpos (digits2_pos M) - 1))
        by (apply Z.pow_le_mono_r; lia). lia. }
    lia. }
  assert (St : stands_for (shr_record_of_loc (Zpos M) loc_Exact) (Zpos M) 1).
  { unfold stands_for. cbn [shr_record_of_loc shr_m shr_r shr_s].
    split; [lia|]. split; [lia|].
    split; split; intros; try discriminate; lia. }
  destruct (binary_round_aux_normal M (-46 + e) (Zpos M) 1 loc_Exact
              eq_refl St) as (m2 & e2 & j & E & Ee & Hj & Hm2 & Hbound);
    [lia|lia|].
  exists m2, e2, j. split; [exact E|]. split; [lia|]. split; [lia|].
  split; [exact Hm2|]. rewrite Z.mul_1_r, EZ in Hbound. exact Hbound.
Qed.

Lemma two_roundings (X Y m a b A H G T U1 U2 : Z) :
  0 <= H -> 0 <= A -> 0 <= G -> 0 < T -> 0 <= m ->
  m * G = Y * b ->
  U1 = Z.abs (X - H * m) -> U2 = Z.abs (Y * b - A) ->
  U1 * T <= H * m -> U2 * T <= A ->
  Z.abs (X * G - H * A) * (T * T) <= (2 * T + 1) * (H * A).
Proof.
  intros HH HA HG HT Hm E E1 E2 B1 B2.
  assert (P : X * G - H * A = (X - H * m) * G + H * (Y * b - A)).
  { replace (H * (Y * b - A)) with (H * (Y * b) - H * A) by ring.
    rewrite <- E. ring. }
  assert (N1 : 0 <= U1) by (subst U1; apply Z.abs_nonneg).
  assert (N2 : 0 <= U2) by (subst U2; apply Z.abs_nonneg).
  assert (L : Z.abs (X * G - H * A) <= U1 * G + H * U2).
  { rewrite P. etransitivity; [apply Z.abs_triangle|].
    rewrite !Z.abs_mul, <- E1, <- E2.
    rewrite (Z.abs_eq G), (Z.abs_eq H) by assumption. lia. }
  assert (Yb : Y * b <= A + U2) by (subst U2; lia).
  assert (S1 : U1 * T * G <= H * m * G) by (apply Z.mul_le_mono_nonneg_r; assumption).
  assert (S2 : H * m * G <= H * (A + U2)).
  { rewrite <- Z.mul_assoc, E. apply Z.mul_le_mono_nonneg_l; assumption. }
  assert (S3 : U1 * G * (T * T) <= H * A * T + H * A).
  { assert (U1 * G * T <= H * A + H * U2) by lia.
    assert (U1 * G * T * T <= (H * A + H * U2) * T)
      by (apply Z.mul_le_mono_nonneg_r; lia).
    assert (H * (U2 * T) <= H * A) by (apply Z.mul_le_mono_nonneg_l; assumption).
    lia. }
  assert (S4 : H * U2 * (T * T) <= H * A * T).
  { assert (H * (U2 * T) <= H * A) by (apply Z.mul_le_mono_nonneg_l; assumption).
    assert (H * (U2 * T) * T <= H * A * T)
      by (apply Z.mul_le_mono_nonneg_r; lia).
    lia. }
  assert (S5 : Z.abs (X * G - H * A) * (T * T) <= (U1 * G + H * U2) * (T * T)).
  { apply Z.mul_le_mono_nonneg_r; [nia|exact L]. }
  lia.
Qed.

End FloatFacts.

Section RationalFacts.
Local Open Scope Q_scope.

Lemma Qpower_diff (x y : Z) :
  (0 <= x)%Z -> (0 <= y)%Z ->
  2 ^ (x - y) == inject_Z (2 ^ x) / inject_Z (2 ^ y).
Proof.
  intros Hx Hy. rewrite !Zpower_Qpower by assumption.
  apply Qpower_minus. discriminate.
Qed.

Lemma Q_rel_err (X Dn a b c t1 t2 : Z) :
  (0 < Dn)%Z -> (0 < b)%Z -> (0 < t2)%Z ->
  (Z.abs (X * b - c * a * Dn) * t2 <= t1 * (c * a * Dn))%Z ->
  Qabs (inject_Z X / inject_Z Dn - inject_Z c * (inject_Z a / inject_Z b))
  <= inject_Z t1 / inject_Z t2 * (inject_Z c * (inject_Z a / inject_Z b)).
Proof.
  intros HD Hb Ht H.
  assert (ND : ~ inject_Z Dn == 0) by (unfold Qeq; cbn; lia).
  assert (Nb : ~ inject_Z b == 0) by (unfold Qeq; cbn; lia).
  assert (Nt : ~ inject_Z t2 == 0) by (unfold Qeq; cbn; lia).
  set (K := inject_Z (Dn * b * t2)).
  assert (HK : 0 < K).
  { unfold K. rewrite <- (Zlt_Qlt 0). nia. }
  apply Qmult_lt_0_le_reg_r with (z := K); [exact HK|].
  rewrite <- (Qabs_pos K) at 1 by (now apply Qlt_le_weak).
  rewrite <- Qabs_Qmult.
  assert (E1 : (inject_Z X / inject_Z Dn
                - inject_Z c * (inject_Z a / inject_Z b)) * K
               == inject_Z ((X * b - c * a * Dn) * t2)).
  { unfold K, Z.sub.
    rewrite ?inject_Z_mult, ?inject_Z_plus, ?inject_Z_opp, ?inject_Z_mult.
    field. split; assumption. }
  assert (E2 : inject_Z t1 / inject_Z t2
               * (inject_Z c * (inject_Z a / inject_Z b)) * K
               == inject_Z (t1 * (c * a * Dn))).
  { unfold K. rewrite ?inject_Z_mult. field. split; assumption. }
  rewrite E1, E2.
  assert (E3 : Qabs (inject_Z ((X * b - c * a * Dn) * t2))
               == inject_Z (Z.abs (X * b - c * a * Dn) * t2)).
  { unfold inject_Z. rewrite <- Zabs_Qabs.
    rewrite Z.abs_mul, (Z.abs_eq t2) by lia. reflexivity. }
  rewrite E3. now rewrite <- Zle_Qle.
Qed.

End RationalFacts.

(** ** Language proportions *)

Section ProportionFacts.
Import Stats Spec.
Context {T : Transport}.

Lemma py_sum_ints (sizes : list Z) :
  forall acc, py_sum acc (map JNum sizes) = Ok (acc + total sizes).
Proof.
  induction sizes as [|n ns IH]; intros acc; cbn.
  - f_equal. lia.
  - rewrite IH. unfold total. f_equal. lia.
Qed.

(** What [proportion] returns for an integer within the total, and how far
    it is from the exact share. *)
Lemma share_close (a b : Z) :
  0 <= a <= b -> b < 2 ^ 1000 ->
  proportion (JNum a) b = Ok (share a b)
  /\ (Qabs (value (share a b) - percent a b) <= tolerance * percent a b)%Q.
Proof.
  intros [Ha Hab] Hb. unfold proportion, share, percent.
  destruct (Z.ltb_spec 0 b) as [Hpos|Hz].
  2: { split; [reflexivity|]. vm_compute. intros C. discriminate C. }
  cbn [int_of].
  destruct b as [|pb|pb]; try lia.
  destruct a as [|pa|pa]; [|clear Ha|lia].
  - split; [reflexivity|]. cbn [operand SFdiv SFmul hundred xorb value float_value].
    assert (E : (inject_Z 100 * (inject_Z 0 / inject_Z (Zpos pb)) == 0)%Q)
      by (unfold Qeq; cbn; lia).
    rewrite E. vm_compute. intros C. discriminate C.
  - destruct (SFdiv_normal pa pb Hab Hb)
      as (m & e & j & s & Ed & Ee & Hj & Hs & Hm & B1).
    destruct (SFmul_hundred m e Hm)
      as (m2 & e2 & j2 & Em & Ee2 & Hj2 & Hm2 & B2); [lia|].
    cbn [operand]. rewrite Ed, Em. split.
    + unfold int_truediv. cbn [Z.eqb operand]. rewrite Ed. cbn [and_then].
      unfold int_mul_float.
      assert (float_of_int 100 = Ok hundred) as -> by (vm_compute; reflexivity).
      cbn [and_then]. now rewrite Em.
    + cbn [value float_value cond_Zopp].
      subst e2 e. replace (j - s - 46 + j2) with ((j2 + j) - (s + 46)) by lia.
      rewrite Qpower_diff by lia.
      assert (P1 : 0 < 2 ^ (s + 46)) by (apply Z.pow_pos_nonneg; lia).
      assert (EV : (inject_Z (Zpos m2)
                    * (inject_Z (2 ^ (j2 + j)) / inject_Z (2 ^ (s + 46)))
                    == inject_Z (Zpos m2 * 2 ^ (j2 + j))
                       / inject_Z (2 ^ (s + 46)))%Q).
      { rewrite inject_Z_mult. field. unfold Qeq. cbn. lia. }
      rewrite EV. unfold tolerance.
      apply Q_rel_err; [exact P1|lia|reflexivity|].
      pose proof (two_roundings (Zpos m2 * 2 ^ j2) (Zpos m * 2 ^ j) (Zpos m)
                    (Zpos pa) (Zpos pb) (Zpos pa * 2 ^ s) 7036874417766400
                    (2 ^ j * Zpos pb) (2 ^ 53)
                    (Z.abs (Zpos m2 * 2 ^ j2 - 7036874417766400 * Zpos m))
                    (Z.abs (Zpos m * 2 ^ j * Zpos pb - Zpos pa * 2 ^ s)))
        as R.
      assert (Pj : 0 < 2 ^ j) by (apply Z.pow_pos_nonneg; lia).
      assert (Ps : 0 < 2 ^ s) by (apply Z.pow_pos_nonneg; lia).
      replace (Zpos m2 * 2 ^ (j2 + j) * Zpos pb)
        with (Zpos m2 * 2 ^ j2 * (2 ^ j * Zpos pb))
        by (rewrite Z.pow_add_r by lia; ring).
      replace (100 * Zpos pa * 2 ^ (s + 46))
        with (7036874417766400 * (Zpos pa * 2 ^ s)).
      2: { rewrite Z.pow_add_r by lia.
           change (2 ^ 46) with 70368744177664. ring. }
      replace (2 ^ 106) with (2 ^ 53 * 2 ^ 53) by reflexivity.
      replace (2 ^ 54 + 1) with (2 * 2 ^ 53 + 1) by reflexivity.
      apply R; try reflexivity; try assumption; try lia; try nia.
Qed.

Lemma set_languages_twice a b s :
  set_languages b (set_languages a s) = set_languages b s.
Proof. now destruct s. Qed.

Lemma set_languages_same d s :
  _languages s = Some d -> set_languages (Some d) s = s.
Proof. destruct s; cbn. now intros ->. Qed.

Lemma set_props_stores (all : Z) (todo : list (string * lang_entry)) :
  forall (sizes : list Z) (done : list (string * lang_entry)) (s : Self)
         (w : World),
    all < 2 ^ 1000 ->
    Forall (fun n => 0 <= n <= all) sizes ->
    map (fun kv => size (snd kv)) todo = map JNum sizes ->
    _languages s = Some (done ++ todo)%list ->
    set_props all done todo (s, w)
    = (Ok tt,
       (set_languages (Some (done ++ map (with_prop all) todo)%list) s, w)).
Proof.
  induction todo as [|[k v] rest IH]; intros sizes done s w Ha Hn Hs Hl.
  - cbn. now rewrite set_languages_same.
  - destruct sizes as [|n ns]; [discriminate|]. cbn in Hs.
    injection Hs as Hv Hrest. inversion Hn as [|? ? Hn1 Hn2]; subst.
    cbn [set_props]. rewrite Hv.
    rewrite (proj1 (share_close n all Hn1 Ha)). mstep.
    rewrite (IH ns); [| exact Ha | exact Hn2 | exact Hrest
                      | cbn; now rewrite <- app_assoc].
    rewrite set_languages_twice. cbn [map]. unfold with_prop at 2.
    cbn [fst snd]. rewrite Hv. cbn [int_of]. rewrite <- app_assoc.
    reflexivity.
Qed.

Lemma qsum_percent (all : Z) (sizes : list Z) :
  0 < all ->
  (qsum (map (fun n => percent n all) sizes)
   == inject_Z 100 * (inject_Z (total sizes) / inject_Z all))%Q.
Proof.
  intros Hpos.
  assert (Hnz : ~ (inject_Z all == 0)%Q).
  { unfold Qeq. cbn. lia. }
  induction sizes as [|n ns IH]; cbn [map qsum fold_right total].
  - field. exact Hnz.
  - fold (qsum (map (fun n => percent n all) ns)). rewrite IH.
    fold (total ns). unfold percent.
    destruct (Z.ltb_spec 0 all); [|lia].
    rewrite inject_Z_plus. field. exact Hnz.
Qed.

Lemma props_stored (all : Z) (d : list (string * lang_entry)) :
  forall sizes : list Z,
    map (fun kv => size (snd kv)) d = map JNum sizes ->
    map (fun kv => prop (snd kv)) (map (with_prop all) d)
    = map (fun n => Some (share n all)) sizes.
Proof.
  induction d as [|[k v] rest IH]; intros [|n ns] Hs;
    try discriminate; [reflexivity|].
  cbn in Hs. injection Hs as Hv Hrest. cbn. rewrite Hv. cbn.
  f_equal. now apply IH.
Qed.

(** Numbers each close to its counterpart add up to a sum close to the sum
    of the counterparts. *)
Lemma qsum_close (t : Q) (xs ys : list Q) :
  Forall2 (fun x y => Qabs (x - y) <= t * y)%Q xs ys ->
  (Qabs (qsum xs - qsum ys) <= t * qsum ys)%Q.
Proof.
  induction 1 as [|x y xs ys H _ IH]; cbn [qsum fold_right].
  - assert (E : (t * 0 == 0)%Q) by ring. rewrite E. vm_compute.
    intros C. discriminate C.
  - fold (qsum xs). fold (qsum ys).
    assert (E1 : (x + qsum xs - (y + qsum ys)
                  == (x - y) + (qsum xs - qsum ys))%Q) by ring.
    assert (E2 : (t * (y + qsum ys) == t * y + t * qsum ys)%Q) by ring.
    rewrite E1, E2.
    eapply Qle_trans; [apply Qabs_triangle|].
    now apply Qplus_le_compat.
Qed.

Lemma within_total (sizes : list Z) :
  Forall (fun n => 0 <= n) sizes ->
  0 <= total sizes /\ Forall (fun n => 0 <= n <= total sizes) sizes.
Proof.
  induction 1 as [|n ns Hn _ [IH1 IH2]]; cbn [total fold_right].
  - split; [lia|constructor].
  - fold (total ns). split; [lia|]. constructor; [lia|].
    eapply Forall_impl; [|exact IH2]. cbn. lia.
Qed.

(** C2.  After the loop, every language whose accumulated size is the
    integer [n] gets the float [100 * (n / total)] when the total of the
    sizes is positive, and the integer 0 otherwise.  Division and product
    are those of binary64, each rounded to nearest: the proportion differs
    from the exact [100 * n / total] by no more than [tolerance] times that
    share, and the proportions, added up exactly, differ from 100 by no
    more than [100 * tolerance], a little above [2.2e-14], however many
    languages there are.  When the total is 0 they are all 0.  Sizes are
    byte counts: none is negative, and their total is below [2 ^ 1000]. *)
Theorem proportions_sum_to_100
    (s : Self) (w : World) (d : list (string * lang_entry)) (sizes : list Z) :
  _languages s = Some d ->
  map (fun kv => size (snd kv)) d = map JNum sizes ->
  Forall (fun n => 0 <= n) sizes ->
  total sizes < 2 ^ 1000 ->
  exists d',
    finish (s, w)
    = (Ok tt, (set_stats_fetched true (set_languages (Some d') s), w))
    /\ map fst d' = map fst d
    /\ map (fun kv => prop (snd kv)) d'
       = map (fun n => Some (share n (total sizes))) sizes
    /\ Forall (fun n =>
                 (Qabs (value (share n (total sizes)) - percent n (total sizes))
                  <= tolerance * percent n (total sizes))%Q) sizes
    /\ (0 < total sizes ->
        (Qabs (qsum (map (fun kv => value (prop_or_0 (snd kv))) d') - 100)
         <= tolerance * 100)%Q)
    /\ (total sizes = 0 ->
        Forall (fun kv => prop (snd kv) = Some (Int 0)) d').
Proof.
  intros Hl Hs Hn Ht. exists (map (with_prop (total sizes)) d).
  pose proof (props_stored (total sizes) d sizes Hs) as Hprops.
  destruct (within_total sizes Hn) as [_ Hin].
  assert (Hclose : Forall (fun n =>
            (Qabs (value (share n (total sizes)) - percent n (total sizes))
             <= tolerance * percent n (total sizes))%Q) sizes).
  { eapply Forall_impl; [|exact Hin]. intros n H.
    exact (proj2 (share_close n (total sizes) H Ht)). }
  split; [|split; [|split; [|split; [|split]]]].
  - unfold finish. mstep. rewrite Hl. mstep. rewrite Hs, py_sum_ints. mstep.
    erewrite bind_Ok
      by (apply (set_props_stores _ d sizes [] s w Ht Hin Hs); exact Hl).
    reflexivity.
  - rewrite map_map. apply map_ext. now intros [k v].
  - exact Hprops.
  - exact Hclose.
  - intros Hpos.
    assert (E : map (fun kv => value (prop_or_0 (snd kv)))
                  (map (with_prop (total sizes)) d)
                = map (fun n => value (share n (total sizes))) sizes).
    { assert (F : forall l : list (string * lang_entry),
                map (fun kv => value (prop_or_0 (snd kv))) l
                = map (fun o => value match o with
                                      | Some p => p
                                      | None => Int 0
                                      end)
                    (map (fun kv => prop (snd kv)) l)).
      { intros l. rewrite map_map. reflexivity. }
      rewrite F, Hprops, map_map. reflexivity. }
    rewrite E.
    assert (C : Forall2 (fun x y => Qabs (x - y) <= tolerance * y)%Q
                  (map (fun n => value (share n (total sizes))) sizes)
                  (map (fun n => percent n (total sizes)) sizes)).
    { revert Hclose. generalize (total sizes) as all. clear.
      intros all Hclose.
      induction Hclose; cbn [map]; constructor; assumption. }
    apply qsum_close in C.
    assert (E100 : (qsum (map (fun n => percent n (total sizes)) sizes)
                    == 100)%Q).
    { rewrite qsum_percent by exact Hpos. field. unfold Qeq. cbn. lia. }
    rewrite E100 in C. exact C.
  - intros Hzero. apply Forall_forall. intros kv Hin'.
    assert (In (prop (snd kv))
              (map (fun kv => prop (snd kv)) (map (with_prop (total sizes)) d)))
      as H by (now apply in_map with (f := fun kv => prop (snd kv))).
    rewrite Hprops in H. apply in_map_iff in H as (n & Hn' & _).
    rewrite <- Hn'. unfold share. now rewrite Hzero.
Qed.

End ProportionFacts.

(** 100 bytes of HTML and 200 of C: one third and two thirds, which no
    float holds; the proportions as computed add up to a little less than
    100. *)
Lemma proportions_witness :
  let d := [("HTML", Stats.mkLang (JNum 100) 1 JNull None);
            ("C", Stats.mkLang (JNum 200) 1 JNull None)] in
  let s := Stats.set_languages (Some d) Examples.octocat in
  let third := S754_finite false 4691249611844266 (-47) in
  let two_thirds := S754_finite false 4691249611844266 (-46) in
  Stats._languages s = Some d
  /\ map (fun kv => Stats.size (snd kv)) d = map JNum [100; 200]
  /\ Forall (fun n => 0 <= n) [100; 200]
  /\ Spec.total [100; 200] < 2 ^ 1000
  /\ exists d',
       Stats.finish (T:=scripted) (s, Examples.offline)
       = (Ok tt,
          (Stats.set_stats_fetched true (Stats.set_languages (Some d') s),
           Examples.offline))
       /\ map (fun kv => Stats.prop (snd kv)) d'
          = [Some (Float third); Some (Float two_thirds)]
       /\ (Spec.qsum (map (fun kv => Spec.value (Stats.prop_or_0 (snd kv))) d')
           < 100)%Q
       /\ (Qabs (Spec.qsum
                   (map (fun kv => Spec.value (Stats.prop_or_0 (snd kv))) d')
                 - 100)
           <= Spec.tolerance * 100)%Q.
Proof.
  intros d s third two_thirds.
  assert (N : Forall (fun n => 0 <= n) [100; 200])
    by (repeat constructor; discriminate).
  split; [reflexivity|]. split; [reflexivity|]. split; [exact N|].
  split; [reflexivity|].
  destruct (proportions_sum_to_100 (T:=scripted) s Examples.offline d
              [100; 200] eq_refl eq_refl N eq_refl)
    as (d' & F & _ & P & _ & S & _).
  exists d'. split; [exact F|].
  assert (E : map (fun kv => Stats.prop (snd kv)) d'
              = [Some (Float third); Some (Float two_thirds)]).
  { rewrite P. vm_compute. reflexivity. }
  split; [exact E|]. split; [|exact (S eq_refl)].
  assert (V : map (fun kv => Spec.value (Stats.prop_or_0 (snd kv))) d'
              = map (fun o => Spec.value match o with
                                         | Some p => p
                                         | None => Int 0
                                         end)
                  (map (fun kv => Stats.prop (snd kv)) d')).
  { rewrite map_map. reflexivity. }
  rewrite V, E. vm_compute. reflexivity.
Defined.

(** ** Pages *)

(** Case analysis on the next evaluation that may raise, in a goal of the
    form [m st = (Ok r, st') -> _]: the branches that raise are absurd. *)
Ltac mcase :=
  mstep;
  lazymatch goal with
  | |- context [bind (lift ?r) _ _] =>
      let E := fresh "E" in
      destruct r eqn:E;
      [ mstep
      | rewrite bind_lift_Raise; intros [=]
      | rewrite bind_lift_Unfinished; intros [=] ]
  end.

Tactic Notation "mcase" "as" ident(a) ident(E) :=
  mstep;
  lazymatch goal with
  | |- context [bind (lift ?r) _ _] =>
      destruct r as [a| |] eqn:E;
      [ mstep
      | rewrite bind_lift_Raise; intros [=]
      | rewrite bind_lift_Unfinished; intros [=] ]
  end.

Section StatsFinishing.
Import Stats.
Context {T : Transport} {U : Unicode}.

Lemma finishes_attr {A} (f : Self -> A) : finishes (attr f).
Proof. intros st. discriminate. Qed.
Lemma finishes_assign f : finishes (assign f).
Proof. intros st. discriminate. Qed.
Lemma finishes_say line : finishes (say line).
Proof. intros st. discriminate. Qed.
Lemma finishes_the {A} (o : option A) : finishes (the o).
Proof. destruct o; intros st; discriminate. Qed.
Lemma finishes_assert c : finishes (assert c).
Proof. destruct c; intros st; discriminate. Qed.
Lemma finishes_io {A} (m : M World A) : finishes m -> finishes (io m).
Proof.
  intros H st. unfold io. specialize (H (snd st)).
  now destruct (m (snd st)).
Qed.

Lemma viewer_of_ends raw : viewer_of raw <> Unfinished.
Proof.
  unfold viewer_of. destruct (get raw "data" empty_dict) eqn:E.
  - apply get_ends.
  - discriminate.
  - now apply get_ends in E.
Qed.

End StatsFinishing.

#[global] Hint Resolve finishes_attr finishes_assign finishes_say finishes_the
  finishes_assert viewer_of_ends : ends.

Section Frame.
Import Stats.
Context {T : Transport} {U : Unicode}.

Lemma keeps_ret {A} (a : A) : keeps_world (ret a).
Proof. now intros st. Qed.
Lemma keeps_raise {A} e : keeps_world (A := A) (raise e).
Proof. now intros st. Qed.
Lemma keeps_lift {A} (r : res A) : keeps_world (lift r).
Proof. now intros st. Qed.
Lemma keeps_attr {A} (f : Self -> A) : keeps_world (attr f).
Proof. now intros st. Qed.
Lemma keeps_assign f : keeps_world (assign f).
Proof. now intros st. Qed.
Lemma keeps_the {A} (o : option A) : keeps_world (the o).
Proof. now destruct o. Qed.
Lemma keeps_bind {A B} (m : M St A) (k : A -> M St B) :
  keeps_world m -> (forall a, keeps_world (k a)) -> keeps_world (bind m k).
Proof.
  intros Hm Hk st. unfold bind. specialize (Hm st).
  destruct (m st) as [[a|e|] st1]; cbn in *; try assumption.
  now rewrite Hk.
Qed.
Lemma keeps_for_each {A} (xs : list A) (body : A -> M St unit) :
  (forall x, keeps_world (body x)) -> keeps_world (for_each xs body).
Proof.
  intros H. induction xs as [|x xs IH]; cbn [for_each].
  - apply keeps_ret.
  - apply keeps_bind; auto.
Qed.

End Frame.

Create HintDb keeps.
#[global] Hint Resolve keeps_ret keeps_raise keeps_lift keeps_attr
  keeps_assign keeps_the : keeps.

Ltac keeps_step :=
  lazymatch goal with
  | |- keeps_world (bind _ _) => apply keeps_bind; [|intros ?]
  | |- keeps_world (for_each _ _) => apply keeps_for_each; intros ?
  | |- keeps_world (match ?x with _ => _ end) => destruct x
  | |- _ => solve [auto with keeps | intros ?; reflexivity]
  end.

Ltac keeps := repeat keeps_step.

Section PageFacts.
Import Stats Spec.
Context {T : Transport} {U : Unicode}.

Lemma add_language_ends excl lang : finishes (add_language excl lang).
Proof. unfold add_language. ends. Qed.

Lemma add_repo_ends excl repo : finishes (add_repo excl repo).
Proof.
  unfold add_repo. ends.
  - unfold lang_names_entry. ends.
  - apply add_language_ends.
Qed.

Lemma read_page_ends excl raw no nc : finishes (read_page excl raw no nc).
Proof.
  unfold read_page. cbv zeta. ends.
  all: try apply add_repo_ends.
Qed.

Lemma add_language_keeps excl lang : keeps_world (add_language excl lang).
Proof. unfold add_language. keeps. Qed.

Lemma add_repo_keeps excl repo : keeps_world (add_repo excl repo).
Proof.
  unfold add_repo. keeps.
  - unfold lang_names_entry. keeps.
  - apply add_language_keeps.
Qed.

Lemma read_page_keeps excl raw no nc : keeps_world (read_page excl raw no nc).
Proof.
  unfold read_page. keeps.
  all: try apply add_repo_keeps.
Qed.

Lemma set_name_twice a b s : set_name b (set_name a s) = set_name b s.
Proof. now destruct s. Qed.

Lemma read_page_inv excl raw no nc s w r st' :
  read_page excl raw no nc (s, w) = (Ok r, st') ->
  exists items n bo bc,
    page_nodes (_ignore_forked_repos s) (page_of raw) = Ok items
    /\ for_each items (add_repo excl) (set_name n s, w) = (Ok tt, st')
    /\ has_next_page (page_of raw) "repositories" = Ok bo
    /\ has_next_page (page_of raw) "repositoriesContributedTo" = Ok bc
    /\ (r = None <-> bo = false /\ bc = false)
    /\ (forall no' nc', r = Some (no', nc') ->
          end_cursor (page_of raw) "repositories" no = Ok no'
          /\ end_cursor (page_of raw) "repositoriesContributedTo" nc = Ok nc').
Proof.
  unfold read_page. fold (page_of raw). generalize (page_of raw) as page.
  intros page. mcase. rename a into v. mcase. rename a into n0.
  assert (Hname : forall k : M St (option (json * json)),
    ((if is_None n0
      then
        v' <- lift (Ok v) ;;
        l <- lift (get v' "login" (JStr "No Name")) ;;
        assign (set_name l)
      else ret tt) ;;; k) (set_name n0 s, w) = (Ok r, st') ->
    exists n, k (set_name n s, w) = (Ok r, st')).
  { intros k. destruct (is_None n0).
    - mcase. rewrite set_name_twice. eauto.
    - mstep. eauto. }
  intros H. apply Hname in H as [n H]. clear Hname. revert H.
  mcase. rename a into contrib_repos. mcase. rename a into owned_repos.
  mcase. rename a into nodes.
  assert (Hnodes : forall k : json -> M St (option (json * json)),
    (repos0 <-
       (if negb (_ignore_forked_repos s)
        then
          more <- lift (get contrib_repos "nodes" (JArr [])) ;;
          lift (iadd nodes more)
        else ret nodes) ;;
     k repos0) (set_name n s, w) = (Ok r, st') ->
    exists repos,
      (if negb (_ignore_forked_repos s)
       then more <~ get contrib_repos "nodes" (JArr []) ;; iadd nodes more
       else Ok nodes) = Ok repos
      /\ k repos (set_name n s, w) = (Ok r, st')).
  { intros k. destruct (negb (_ignore_forked_repos s)).
    - mcase. mcase. cbn [and_then]. eauto.
    - mstep. eauto. }
  intros H. apply Hnodes in H as (repos & Hrepos & H). clear Hnodes. revert H.
  mcase. rename a into items.
  destruct (for_each items (add_repo excl) (set_name n s, w))
    as [[[]|e|] st2] eqn:F.
  2: { erewrite bind_Raise by exact F. intros [=]. }
  2: { erewrite bind_Unfinished by exact F. intros [=]. }
  erewrite bind_Ok by exact F.
  mcase. rename a into pi. mcase. rename a into h.
  assert (Hitems : page_nodes (_ignore_forked_repos s) page = Ok items).
  { unfold page_nodes, connection_of. rewrite E. cbn [and_then].
    rewrite E1, E2. cbn [and_then]. rewrite E3. cbn [and_then].
    rewrite Hrepos. exact E4. }
  assert (Hbo : has_next_page page "repositories" = Ok (truthy h)).
  { unfold has_next_page, connection_of. rewrite E. cbn [and_then].
    rewrite E2. cbn [and_then]. rewrite E5. cbn [and_then]. now rewrite E6. }
  assert (Hno : forall d, end_cursor page "repositories" d
                          = get pi "endCursor" d).
  { intros d. unfold end_cursor, connection_of. rewrite E. cbn [and_then].
    rewrite E2. cbn [and_then]. now rewrite E5. }
  assert (Hc : forall pi',
    get contrib_repos "pageInfo" empty_dict = Ok pi' ->
    (forall d, end_cursor page "repositoriesContributedTo" d
               = get pi' "endCursor" d)
    /\ has_next_page page "repositoriesContributedTo"
       = (h' <~ get pi' "hasNextPage" (JBool false) ;; Ok (truthy h'))).
  { intros pi' Hpi. split; [intros d|];
      unfold end_cursor, has_next_page, connection_of; rewrite E;
      cbn [and_then]; rewrite E1; cbn [and_then]; now rewrite Hpi. }
  destruct (truthy h) eqn:Hh.
  - mcase. rename a into no'. mcase. rename a into pi'. mcase.
    rename a into nc'. destruct (Hc pi' eq_refl) as [Hnc Hbc].
    destruct (get_ok_dict _ _ _ _ E9) as [fields ->].
    intros [= <- <-].
    exists items, n, true, (truthy (match lookup "hasNextPage" fields with
                                   | Some x => x
                                   | None => JBool false
                                   end)).
    repeat split; try assumption; try discriminate.
    + intros [? _]. discriminate.
    + injection H as <- _. now rewrite Hno.
    + injection H as _ <-. now rewrite Hnc.
  - mcase. rename a into pi'. mcase. rename a into h'.
    destruct (Hc pi' eq_refl) as [Hnc Hbc]. rewrite E8 in Hbc. cbn [and_then] in Hbc.
    destruct (truthy h') eqn:Hh'.
    + mcase. rename a into no'. mcase. rename a into nc'.
      intros [= <- <-]. exists items, n, false, true.
      repeat split; try assumption; try discriminate.
      * intros [_ ?]. discriminate.
      * injection H as <- _. now rewrite Hno.
      * injection H as _ <-. now rewrite Hnc.
    + mstep. intros [= <- <-]. exists items, n, false, false.
      repeat split; try assumption; discriminate.
Qed.
End PageFacts.

Section Termination.
Import Stats Spec.
Context {U : Unicode}.

Lemma scripted_query (document : string) (w : World (T:=scripted)) (page : json)
    (rest : list post_outcome) :
  async_posts (net w) = PostDecoded page :: rest ->
  Queries.query (T:=scripted) document w
  = (Ok (page_of page),
     mkWorld (T:=scripted)
       (mkScript rest (sync_posts (net w)) (async_gets (net w))
          (sync_gets (net w)))
       (trace w ++ [Post document])).
Proof.
  intros H. unfold Queries.query, exchange. cbn [session_post scripted].
  rewrite H. cbn. unfold page_of. now destruct (is_None page).
Qed.

Lemma py_sum_ends (vs : list json) : forall acc, py_sum acc vs <> Unfinished.
Proof.
  induction vs as [|v vs IH]; intros acc; cbn.
  - discriminate.
  - unfold int_iadd. destruct (int_of v); [apply IH | discriminate].
Qed.

Lemma proportion_ends sz all : proportion sz all <> Unfinished.
Proof.
  unfold proportion. destruct (Z.ltb 0 all); [|discriminate].
  destruct (int_of sz) as [n|]; [|discriminate].
  unfold int_truediv, int_mul_float, float_of_int.
  destruct (Z.eqb all 0); [discriminate|].
  destruct (SFdiv 53 1024 (operand n) (operand all)); try discriminate;
    cbn [and_then];
    destruct (binary_normalize 53 1024 100 0 false); discriminate.
Qed.

Lemma after_arg_ends cursor : Queries.after_arg cursor <> Unfinished.
Proof. destruct cursor; discriminate. Qed.

Lemma repos_overview_ends nc no : Queries.repos_overview nc no <> Unfinished.
Proof.
  unfold Queries.repos_overview.
  destruct (Queries.after_arg no) eqn:E1; try discriminate.
  - destruct (Queries.after_arg nc) eqn:E2; try discriminate.
    now apply after_arg_ends in E2.
  - now apply after_arg_ends in E1.
Qed.

#[local] Hint Resolve py_sum_ends proportion_ends repos_overview_ends : ends.

Lemma set_props_ends {T : Transport} all todo :
  forall done, finishes (set_props all done todo).
Proof.
  induction todo as [|[k v] rest IH]; intros done; cbn [set_props].
  - apply finishes_ret.
  - ends.
Qed.

Lemma finish_ends {T : Transport} : finishes finish.
Proof. unfold finish. ends. apply set_props_ends. Qed.

Lemma fetch_pages_ends (k : nat) :
  forall (pages : list json) (page : json) (fuel : nat)
         (excl : list string) (no nc : json) (s : Self) (w : World (T:=scripted)),
    async_posts (net w) = map PostDecoded pages ->
    nth_error pages k = Some page ->
    last_page (page_of page) ->
    (k < fuel)%nat ->
    fst (fetch_pages (T:=scripted) fuel excl no nc (s, w)) <> Unfinished.
Proof.
  induction k as [|k IH]; intros pages page fuel excl no nc s w Hw Hk Hlast Hf;
    (destruct fuel as [|fuel]; [lia|]);
    (destruct pages as [|p ps]; [discriminate|]);
    cbn [map] in Hw; cbn [nth_error] in Hk;
    cbn [fetch_pages];
    (destruct (Queries.repos_overview nc no) as [document| |] eqn:D;
     [ | rewrite bind_lift_Raise; discriminate
       | now apply repos_overview_ends in D ]);
    rewrite bind_lift_Ok;
    erewrite bind_io_Ok by (apply scripted_query; exact Hw);
    cbn [fst snd];
    match goal with
    | |- context [bind (read_page excl ?raw no nc) _ ?st] =>
        pose proof (read_page_ends excl raw no nc st) as He;
        pose proof (read_page_keeps excl raw no nc st) as Hkeep;
        destruct (read_page excl raw no nc st) as [[[[no' nc']|]|e|] st2] eqn:R
    end;
    try (erewrite bind_Ok by exact R; cbn beta iota);
    try (erewrite bind_Raise by exact R);
    try discriminate; try (now elim He).
  - (* the first page is the last one: the loop cannot go on *)
    injection Hk as ->.
    apply read_page_inv in R as (items & n & bo & bc & _ & _ & Hbo & Hbc & Hr & _).
    destruct Hlast as [Lo Lc].
    assert (page_of (page_of page) = page_of page) as Hpp
      by (now destruct page).
    rewrite Hpp in Hbo, Hbc.
    rewrite Lo in Hbo. rewrite Lc in Hbc.
    injection Hbo as <-. injection Hbc as <-.
    destruct Hr as [_ Hr]. now specialize (Hr (conj eq_refl eq_refl)).
  - destruct st2 as [s2 w2]. cbn [snd] in Hkeep. subst w2.
    apply (IH ps page); [reflexivity | exact Hk | exact Hlast | lia].
Qed.

Lemma bind_ends_at {W A B} (m : M W A) (k : A -> M W B) st :
  fst (m st) <> Unfinished -> (forall a, finishes (k a)) ->
  fst (bind m k st) <> Unfinished.
Proof.
  intros Hm Hk. unfold bind. destruct (m st) as [[a|e|] st1]; cbn in *.
  - apply Hk.
  - discriminate.
  - congruence.
Qed.

Lemma try_finally_fst {W A} (m : M W A) (f : W -> W) st :
  fst (try_finally m f st) = fst (m st).
Proof. unfold try_finally. now destruct (m st) as [[a|e|] st1]. Qed.

Lemma locked_block_ends (s : Self) (w : World (T:=scripted)) (pages : list json)
    (k : nat) (page : json) (fuel : nat) :
  async_posts (net w) = map PostDecoded pages ->
  nth_error pages k = Some page ->
  last_page (page_of page) ->
  (k < fuel)%nat ->
  fst (locked_block (T:=scripted) fuel (s, w)) <> Unfinished.
Proof.
  intros Hw Hk Hlast Hf. unfold locked_block. mstep.
  destruct (_stats_fetched s); [discriminate|].
  unfold start. mstep.
  apply bind_ends_at.
  - now apply (fetch_pages_ends k pages page).
  - intros _. apply finish_ends.
Qed.

End Termination.

(** ** The repository set and the running totals *)

Section Ledger.
Import Stats Spec.
Context {T : Transport} {U : Unicode}.
Local Open Scope list_scope.

(** What one edge does to the language map. *)
Lemma add_language_inv excl lang s w st' :
  add_language excl lang (s, w) = (Ok tt, st') ->
  exists n,
    edge_name lang = Some n
    /\ ((kept excl lang = false /\ st' = (s, w))
        \/ (kept excl lang = true
            /\ exists d e',
                 _languages s = Some d
                 /\ st' = (set_languages (Some (lang_store n e' d)) s, w)
                 /\ match lang_find n d with
                    | Some e =>
                        iadd (size e) (edge_size lang) = Ok (size e')
                        /\ occurrences e' = occurrences e + 1
                    | None =>
                        size e' = edge_size lang /\ occurrences e' = 1
                    end)).
Proof.
  unfold add_language, kept, edge_name, edge_size.
  mcase. rename a into node. mcase. rename a into lang_name. mcase.
  rename a into lang_size. cbn [and_then]. rewrite ?E0.
  destruct lang_name as [| | |n| |]; try (mstep; intros [=]; fail).
  intros H. exists n. split; [reflexivity|]. revert H.
  destruct (existsb (String.eqb (lower n)) excl).
  - intros [= <-]. now left.
  - intros H. right. split; [reflexivity|]. revert H. mstep.
    destruct (_languages s) as [d|] eqn:L; [|intros [=]]. mstep.
    destruct (lang_find n d) as [e|] eqn:F.
    + mcase. intros [= <-]. eexists d, _. split; [reflexivity|].
      split; [reflexivity|]. cbn. now rewrite F.
    + mcase. intros [= <-]. eexists d, _. split; [reflexivity|].
      split; [reflexivity|]. cbn. now rewrite F.
Qed.

Lemma sizes_in_app excl n a b :
  sizes_in excl n (a ++ b) = sizes_in excl n a ++ sizes_in excl n b.
Proof. unfold sizes_in. now rewrite !filter_app, map_app. Qed.

Lemma sizes_in_one excl n lang :
  sizes_in excl n [lang]
  = if kept excl lang && named n lang then [edge_size lang] else [].
Proof.
  unfold sizes_in. cbn [filter]. destruct (kept excl lang); cbn; [|reflexivity].
  now destruct (named n lang).
Qed.

Lemma add_up_app first others v :
  add_up first (others ++ [v]) = (a <~ add_up first others ;; iadd a v).
Proof. unfold add_up. now rewrite fold_left_app. Qed.

Lemma tally_step excl d edges lang s w st' :
  langs_ok excl d edges ->
  _languages s = Some d ->
  add_language excl lang (s, w) = (Ok tt, st') ->
  exists d',
    st' = (set_languages (Some d') s, w)
    /\ langs_ok excl d' (edges ++ [lang]).
Proof.
  intros Hok Hd H.
  apply add_language_inv in H as (n0 & Hn0 & [[Hk ->]|(Hk & d0 & e' & Hd0 & -> & He')]).
  - exists d. split; [now rewrite set_languages_same|].
    intros n. rewrite sizes_in_app, sizes_in_one, Hk. cbn.
    rewrite app_nil_r. apply Hok.
  - rewrite Hd in Hd0. injection Hd0 as <-.
    eexists. split; [reflexivity|].
    intros n. rewrite sizes_in_app, sizes_in_one, Hk. cbn [andb].
    unfold named. rewrite Hn0.
    destruct (String.eqb n0 n) eqn:En.
    + apply String.eqb_eq in En. subst n0.
      rewrite lang_find_store_same. specialize (Hok n).
      destruct (lang_find n d) as [e|].
      * destruct Hok as (first & others & Hs & Hsum & Hocc).
        destruct He' as [Hsz Ho]. rewrite Hs.
        exists first, (others ++ [edge_size lang]). split; [reflexivity|].
        split.
        -- rewrite add_up_app, Hsum. exact Hsz.
        -- rewrite Ho, Hocc, Hs. cbn [List.length]. rewrite length_app.
           cbn [List.length]. lia.
      * cbn in Hok. rewrite Hok. destruct He' as [Hsz Ho].
        exists (edge_size lang), []. split; [reflexivity|]. split.
        -- cbn. now rewrite Hsz.
        -- now rewrite Ho.
    + rewrite app_nil_r.
      rewrite lang_find_store_other; [apply Hok|].
      intros ->. now rewrite String.eqb_refl in En.
Qed.

Lemma tally_loop excl more :
  forall d edges s w st',
    langs_ok excl d edges ->
    _languages s = Some d ->
    for_each more (add_language excl) (s, w) = (Ok tt, st') ->
    exists d',
      st' = (set_languages (Some d') s, w)
      /\ langs_ok excl d' (edges ++ more).
Proof.
  induction more as [|lang more IH]; intros d edges s w st' Hok Hd H.
  - cbn in H. injection H as <-. exists d.
    rewrite set_languages_same, app_nil_r by exact Hd. auto.
  - cbn [for_each] in H. revert H.
    destruct (add_language excl lang (s, w)) as [[[]|e|] st1] eqn:A.
    2: { erewrite bind_Raise by exact A. intros [=]. }
    2: { erewrite bind_Unfinished by exact A. intros [=]. }
    erewrite bind_Ok by exact A. intros H.
    destruct (tally_step _ _ _ _ _ _ _ Hok Hd A) as (d1 & -> & Hok1).
    apply IH with (d := d1) (edges := edges ++ [lang]) in H
      as (d' & -> & Hok'); [|exact Hok1|reflexivity].
    exists d'. rewrite set_languages_twice, <- app_assoc in *. auto.
Qed.

(** The list of names built for the progress message changes nothing. *)
Lemma lang_names_keep repo_langs st st1 :
  (if truthy repo_langs
   then entries <- lift (iter repo_langs) ;;
        for_each entries lang_names_entry
   else ret tt) st = (Ok tt, st1) ->
  st1 = st.
Proof.
  destruct (truthy repo_langs); [|now intros [= <-]].
  mcase. rename a into entries. clear E. revert st1.
  induction entries as [|entry entries IH]; intros st1; cbn [for_each].
  - now intros [= <-].
  - unfold lang_names_entry at 1. mcase. mcase. apply IH.
Qed.

Lemma int_iadd_inv a v b :
  int_iadd a v = Ok b -> exists n, int_of v = Some n /\ b = a + n.
Proof.
  unfold int_iadd. destruct (int_of v) as [n|]; [|discriminate].
  intros [= <-]. eauto.
Qed.

(** What one node does: nothing, or its identifier, stars and forks are
    added and its edges visited. *)
Lemma add_repo_inv excl repo s w st' :
  add_repo excl repo (s, w) = (Ok tt, st') ->
  (is_None repo = true /\ st' = (s, w))
  \/ (is_None repo = false
      /\ exists repos,
           _repos s = Some repos
           /\ ((existsb (key_eqb (name_of repo)) repos
                || in_strings (name_of repo) (_exclude_repos s) = true
                /\ st' = (s, w))
               \/ (existsb (key_eqb (name_of repo)) repos
                   || in_strings (name_of repo) (_exclude_repos s) = false
                   /\ exists stars forks,
                        _stargazers s = Some stars
                        /\ _forks s = Some forks
                        /\ for_each (edges_of repo) (add_language excl)
                             (set_forks (Some (forks + forks_of repo))
                                (set_stargazers (Some (stars + stars_of repo))
                                   (set_repos
                                      (Some (repos ++ [name_of repo])) s)),
                              w)
                           = (Ok tt, st')))).
Proof.
  unfold add_repo. destruct (is_None repo) eqn:N.
  { intros [= <-]. now left. }
  intros H. right. split; [reflexivity|]. revert H.
  unfold name_of, stars_of, forks_of, edges_of.
  mcase as name Ename.
  destruct (_repos s) as [repos|] eqn:R; [|mstep; intros [=]]. mstep.
  unfold set_contains.
  destruct (hashable name); [|rewrite bind_lift_Raise; intros [=]].
  mstep. intros H. exists repos. split; [reflexivity|]. revert H.
  destruct (existsb (key_eqb name) repos || in_strings name (_exclude_repos s)).
  { intros [= <-]. now left. }
  intros H. right. split; [reflexivity|]. revert H. mstep.
  destruct (_stargazers s) as [stars|] eqn:S; [|mstep; intros [=]]. mstep.
  mcase as sg Esg. mcase as tc Etc. mcase as stars' Estars.
  apply int_iadd_inv in Estars as (c & I & ->).
  destruct (_forks s) as [forks|] eqn:F; [|mstep; intros [=]]. mstep.
  mcase as fc Efc. mcase as forks' Eforks.
  apply int_iadd_inv in Eforks as (c' & I' & ->).
  mcase as ls Els. mcase as repo_langs Eedges.
  assert (Hnames : forall k : M St unit,
    ((if truthy repo_langs
      then entries <- lift (iter repo_langs) ;;
           for_each entries lang_names_entry
      else ret tt) ;;; k)
      (set_forks (Some (forks + c'))
         (set_stargazers (Some (stars + c))
            (set_repos (Some (repos ++ [name])) s)), w) = (Ok tt, st') ->
    k (set_forks (Some (forks + c'))
         (set_stargazers (Some (stars + c))
            (set_repos (Some (repos ++ [name])) s)), w) = (Ok tt, st')).
  { intros k.
    match goal with
    | |- bind ?m _ ?st = _ -> _ =>
        destruct (m st) as [[[]|e|] st1] eqn:A
    end.
    - erewrite bind_Ok by exact A. apply lang_names_keep in A. now subst st1.
    - erewrite bind_Raise by exact A. intros [=].
    - erewrite bind_Unfinished by exact A. intros [=]. }
  intros H. apply Hnames in H. clear Hnames. revert H.
  mcase as edges Eiter. intros H.
  exists stars, forks. split; [reflexivity|]. split; [reflexivity|].
  rewrite ?Ename, ?Esg, ?Efc, ?Els. cbn [and_then count_of].
  rewrite ?Etc, ?Eedges. cbn [and_then count_of].
  rewrite ?Eiter, ?I, ?I'. exact H.
Qed.

Lemma total_app a b : total (a ++ b) = total a + total b.
Proof. unfold total. induction a as [|x a IH]; cbn; lia. Qed.

Lemma counted_one ex seen repo :
  counted ex seen [repo]
  = if is_None repo then []
    else if existsb (key_eqb (name_of repo)) seen
            || in_strings (name_of repo) ex
    then [] else [repo].
Proof. cbn. destruct (is_None repo); [reflexivity|]. now destruct (_ || _). Qed.

Lemma counted_app ex a :
  forall seen b,
    counted ex seen (a ++ b)
    = counted ex seen a
      ++ counted ex (seen ++ map name_of (counted ex seen a)) b.
Proof.
  induction a as [|repo a IH]; intros seen b; cbn [app counted map].
  - now rewrite app_nil_r.
  - destruct (is_None repo); [apply IH|].
    destruct (existsb (key_eqb (name_of repo)) seen
              || in_strings (name_of repo) ex); [apply IH|].
    cbn [app map]. rewrite IH. now rewrite <- app_assoc.
Qed.

Lemma ledger_node excl repo s w st' cs :
  ledger excl s cs ->
  add_repo excl repo (s, w) = (Ok tt, st') ->
  exists s',
    st' = (s', w)
    /\ ledger excl s'
         (cs ++ counted (_exclude_repos s) (map name_of cs) [repo])
    /\ same_config s s'.
Proof.
  intros (Hr & Hs & Hf & d & Hd & Hok) H. rewrite counted_one.
  apply add_repo_inv in H
    as [[HN ->]|(HN & repos & Hrepos & [[Hskip ->]|(Hnew & stars & forks & Hst & Hfk & H)])];
    rewrite HN.
  - exists s. rewrite app_nil_r. repeat split; auto. exists d; auto.
  - rewrite Hr in Hrepos. injection Hrepos as <-. rewrite Hskip.
    exists s. rewrite app_nil_r. repeat split; auto. exists d; auto.
  - rewrite Hr in Hrepos. injection Hrepos as <-. rewrite Hnew.
    rewrite Hs in Hst. injection Hst as <-.
    rewrite Hf in Hfk. injection Hfk as <-.
    eapply tally_loop in H as (d' & -> & Hok'); [|exact Hok|exact Hd].
    eexists. split; [reflexivity|]. split; [|repeat split].
    repeat split; fields.
    + now rewrite map_app.
    + rewrite map_app, total_app. cbn. do 2 f_equal. lia.
    + rewrite map_app, total_app. cbn. do 2 f_equal. lia.
    + exists d'. split; [reflexivity|].
      rewrite flat_map_app. cbn. now rewrite app_nil_r.
Qed.

Lemma same_config_refl s : same_config s s.
Proof. now repeat split. Qed.

Lemma same_config_trans a b c :
  same_config a b -> same_config b c -> same_config a c.
Proof. intros (A1 & A2 & A3) (B1 & B2 & B3). repeat split; congruence. Qed.

Lemma ledger_nodes excl items :
  forall s w st' cs,
    ledger excl s cs ->
    for_each items (add_repo excl) (s, w) = (Ok tt, st') ->
    exists s',
      st' = (s', w)
      /\ ledger excl s'
           (cs ++ counted (_exclude_repos s) (map name_of cs) items)
      /\ same_config s s'.
Proof.
  induction items as [|repo items IH]; intros s w st' cs L H.
  - cbn in H. injection H as <-. exists s. cbn. rewrite app_nil_r.
    auto using same_config_refl.
  - cbn [for_each] in H. revert H.
    destruct (add_repo excl repo (s, w)) as [[[]|e|] st1] eqn:A.
    2: { erewrite bind_Raise by exact A. intros [=]. }
    2: { erewrite bind_Unfinished by exact A. intros [=]. }
    erewrite bind_Ok by exact A. intros H.
    destruct (ledger_node _ _ _ _ _ _ L A) as (s1 & -> & L1 & C1).
    destruct (IH _ _ _ _ L1 H) as (s' & -> & L' & C').
    exists s'. split; [reflexivity|]. split.
    + change (repo :: items) with ([repo] ++ items).
      rewrite counted_app, app_assoc, <- map_app.
      rewrite (proj1 C1) in L'. exact L'.
    + eapply same_config_trans; eassumption.
Qed.

Lemma ledger_page excl raw no nc s w r st' cs :
  ledger excl s cs ->
  read_page excl raw no nc (s, w) = (Ok r, st') ->
  exists s',
    st' = (s', w)
    /\ ledger excl s'
         (cs ++ counted (_exclude_repos s) (map name_of cs)
                  (all_nodes (_ignore_forked_repos s) [raw]))
    /\ same_config s s'.
Proof.
  intros L H.
  apply read_page_inv in H as (items & n & _ & _ & Hitems & Hloop & _).
  apply (ledger_nodes excl items (set_name n s) w st' cs) in Hloop
    as (s' & -> & L' & C'); [|exact L].
  exists s'. split; [reflexivity|]. split; [|exact C'].
  unfold all_nodes. cbn [flat_map]. rewrite Hitems, app_nil_r. exact L'.
Qed.

End Ledger.

Section LedgerOfARun.
Import Stats Spec.
Local Open Scope list_scope.
Context {U : Unicode}.

Lemma all_nodes_cons ignore raw answers :
  all_nodes ignore (raw :: answers)
  = all_nodes ignore [raw] ++ all_nodes ignore answers.
Proof. unfold all_nodes. cbn [flat_map]. now rewrite app_nil_r. Qed.

Lemma scripted_query_none (document : string) (w : World (T:=scripted)) :
  async_posts (net w) = [] ->
  sync_posts (net w) = [] ->
  fst (Queries.query (T:=scripted) document w) = Raise IOError.
Proof.
  intros H1 H2. apply query_both_fail; cbn [session_post requests_post scripted].
  - now rewrite H1.
  - rewrite H1. cbn. now rewrite H2.
Qed.

Lemma ledger_run (fuel : nat) :
  forall (pages : list json) (excl : list string) (no nc : json)
         (s : Self) (w : World (T:=scripted)) (s' : Self) (w' : World (T:=scripted))
         (cs : list json),
    async_posts (net w) = map PostDecoded pages ->
    sync_posts (net w) = [] ->
    ledger excl s cs ->
    fetch_pages (T:=scripted) fuel excl no nc (s, w) = (Ok tt, (s', w')) ->
    exists consumed rest,
      pages = consumed ++ rest
      /\ async_posts (net w') = map PostDecoded rest
      /\ ledger excl s'
           (cs ++ counted (_exclude_repos s) (map name_of cs)
                    (all_nodes (_ignore_forked_repos s) consumed))
      /\ same_config s s'.
Proof.
  induction fuel as [|fuel IH];
    intros pages excl no nc s w s' w' cs Hw Hsync L H.
  - discriminate H.
  - cbn [fetch_pages] in H. revert H. mcase as document D.
    destruct pages as [|p ps].
    { intros H. pose proof (scripted_query_none document w Hw Hsync) as Q.
      unfold bind, io in H. cbn [snd] in H.
      destruct (Queries.query document w) as [[r|e|] w1]; cbn in Q;
        congruence. }
    erewrite bind_io_Ok by (apply scripted_query; exact Hw). cbn [fst snd].
    match goal with
    | |- bind (read_page excl ?raw no nc) _ ?st = _ -> _ =>
        destruct (read_page excl raw no nc st) as [[r|e|] st2] eqn:R
    end.
    2: { erewrite bind_Raise by exact R. intros [=]. }
    2: { erewrite bind_Unfinished by exact R. intros [=]. }
    erewrite bind_Ok by exact R.
    apply (ledger_page _ _ _ _ _ _ _ _ cs L) in R as (s1 & -> & L1 & C1).
    assert (Hp : all_nodes (_ignore_forked_repos s) [page_of p]
                 = all_nodes (_ignore_forked_repos s) [p]).
    { unfold all_nodes. cbn [flat_map].
      replace (page_of (page_of p)) with (page_of p) by (now destruct p).
      reflexivity. }
    rewrite Hp in L1. clear Hp.
    destruct r as [[no' nc']|].
    + intros H.
      apply (IH ps) with (cs := cs ++ counted (_exclude_repos s)
                                       (map name_of cs)
                                       (all_nodes (_ignore_forked_repos s) [p]))
        in H as (consumed & rest & -> & Hrest & L' & C');
        [|reflexivity|exact Hsync|exact L1].
      exists (p :: consumed), rest. split; [reflexivity|].
      split; [exact Hrest|]. split.
      * rewrite all_nodes_cons, counted_app, app_assoc, <- map_app.
        destruct C1 as (E1 & _ & E3). rewrite E1, E3 in L'. exact L'.
      * eapply same_config_trans; eassumption.
    + intros [= <- <-]. exists [p], ps. split; [reflexivity|].
      split; [reflexivity|]. split; [exact L1|exact C1].
Qed.

Lemma set_props_inv {T : Transport} all todo :
  forall done s w st',
    _languages s = Some (done ++ todo) ->
    set_props all done todo (s, w) = (Ok tt, st') ->
    exists todo',
      st' = (set_languages (Some (done ++ todo')) s, w)
      /\ Forall2 same_tally todo todo'.
Proof.
  induction todo as [|[k v] rest IH]; intros done s w st' Hl H.
  - cbn in H. injection H as <-. exists [].
    rewrite set_languages_same by exact Hl. auto.
  - cbn [set_props] in H. revert H. mcase as p P. intros H.
    apply IH in H as (rest' & -> & F);
      [|cbn; now rewrite <- app_assoc].
    rewrite set_languages_twice, <- app_assoc.
    eexists (_ :: rest'). split; [reflexivity|].
    constructor; [now repeat split | exact F].
Qed.

Lemma finish_inv {T : Transport} s w st' :
  finish (s, w) = (Ok tt, st') ->
  exists d d',
    _languages s = Some d
    /\ st' = (set_stats_fetched true (set_languages (Some d') s), w)
    /\ Forall2 same_tally d d'.
Proof.
  unfold finish. mstep.
  destruct (_languages s) as [d|] eqn:L; [|mstep; intros [=]]. mstep.
  mcase as langs_total S.
  destruct (set_props langs_total [] d (s, w)) as [[[]|e|] st1] eqn:P.
  2: { erewrite bind_Raise by exact P. intros [=]. }
  2: { erewrite bind_Unfinished by exact P. intros [=]. }
  erewrite bind_Ok by exact P.
  apply set_props_inv in P as (d' & -> & F); [|exact L].
  mstep. intros [= <-]. exists d, d'. auto.
Qed.

Lemma lang_find_same_tally d d' n :
  Forall2 same_tally d d' ->
  match lang_find n d, lang_find n d' with
  | Some e, Some e' => size e = size e' /\ occurrences e = occurrences e'
  | None, None => True
  | _, _ => False
  end.
Proof.
  induction 1 as [|[k e] [k' e'] d d' (Hk & Hs & Ho) _ IH]; cbn; [exact I|].
  cbn in Hk, Hs, Ho. subst k'. destruct (String.eqb n k); auto.
Qed.

Lemma langs_ok_same_tally excl d d' edges :
  Forall2 same_tally d d' -> langs_ok excl d edges -> langs_ok excl d' edges.
Proof.
  intros F Hok n. specialize (Hok n).
  pose proof (lang_find_same_tally d d' n F) as H.
  destruct (lang_find n d) as [e|], (lang_find n d') as [e'|]; try easy.
  destruct H as [Hs Ho]. cbn in *. now rewrite <- Hs, <- Ho.
Qed.

Lemma key_eqb_sym a b : key_eqb a b = key_eqb b a.
Proof.
  destruct a, b; cbn; try reflexivity.
  - now destruct b, b0.
  - apply Z.eqb_sym.
  - apply Z.eqb_sym.
  - apply Z.eqb_sym.
  - apply String.eqb_sym.
Qed.

Lemma counted_fresh ex nodes :
  forall seen,
    (forall x, In x (map name_of (counted ex seen nodes)) ->
       existsb (key_eqb x) seen = false /\ in_strings x ex = false)
    /\ distinct (map name_of (counted ex seen nodes)).
Proof.
  induction nodes as [|repo nodes IH]; intros seen; cbn [counted].
  - split; [intros x []|exact I].
  - destruct (is_None repo); [apply IH|].
    destruct (existsb (key_eqb (name_of repo)) seen
              || in_strings (name_of repo) ex) eqn:E; [apply IH|].
    apply orb_false_iff in E as [E1 E2].
    destruct (IH (seen ++ [name_of repo])) as [Hin Hd].
    cbn [map]. split.
    + intros x [<-|Hx]; [auto|].
      destruct (Hin x Hx) as [Hseen Hex]. split; [|exact Hex].
      rewrite existsb_app in Hseen. now apply orb_false_iff in Hseen.
    + cbn [distinct]. split; [|exact Hd].
      apply not_true_is_false. intros Hex.
      apply existsb_exists in Hex as (x & Hx & Heq).
      destruct (Hin x Hx) as [Hseen _].
      rewrite existsb_app in Hseen. apply orb_false_iff in Hseen as [_ Hlast].
      cbn in Hlast. rewrite orb_false_r, key_eqb_sym in Hlast. congruence.
Qed.

Lemma try_finally_Ok {W A} (m : M W A) (f : W -> W) st a st' :
  try_finally m f st = (Ok a, st') ->
  exists st1, m st = (Ok a, st1) /\ st' = f st1.
Proof.
  unfold try_finally. destruct (m st) as [[a'|e|] st1]; intros [=].
  subst. eauto.
Qed.

Lemma locked_block_ledger (s : Self) (w : World (T:=scripted)) (fuel : nat)
    (pages : list json) (s' : Self) (w' : World (T:=scripted)) :
  _stats_fetched s = false ->
  async_posts (net w) = map PostDecoded pages ->
  sync_posts (net w) = [] ->
  locked_block (T:=scripted) fuel (s, w) = (Ok tt, (s', w')) ->
  exists consumed rest,
    pages = consumed ++ rest
    /\ ledger (map lower (_exclude_langs s)) s'
         (counted (_exclude_repos s) []
            (all_nodes (_ignore_forked_repos s) consumed)).
Proof.
  intros Hf Hw Hsync. unfold locked_block. mstep. rewrite Hf.
  unfold start. mstep.
  match goal with
  | |- bind (fetch_pages fuel ?excl JNull JNull) _ (?s0, w) = _ -> _ =>
      destruct (fetch_pages fuel excl JNull JNull (s0, w))
        as [[[]|e|] [s1 w1]] eqn:R;
      [ erewrite bind_Ok by exact R
      | erewrite bind_Raise by exact R; intros [=]
      | erewrite bind_Unfinished by exact R; intros [=] ];
      apply (ledger_run fuel pages excl JNull JNull s0 w s1 w1 []) in R
        as (consumed & rest & Hp & _ & L & C); [|exact Hw|exact Hsync|]
  end.
  - intros H. apply finish_inv in H as (d & d' & Hd & H & F).
    injection H as -> ->. exists consumed, rest. split; [exact Hp|].
    cbn [app map] in L. fields in L.
    destruct L as (Lr & Ls & Lf & d0 & Ld & Lok).
    rewrite Hd in Ld. injection Ld as <-.
    repeat split; fields; try assumption.
    exists d'. split; [reflexivity|].
    now apply langs_ok_same_tally with (d := d).
  - repeat split. exists []. split; [reflexivity|]. intros n. reflexivity.
Qed.

(** C4.  When [get_stats] returns, the answers it consumed being
    [consumed], the repository set holds the identifiers of the nodes that
    count among the nodes of those answers: no two of them are equal and
    none is excluded.  The stargazer and fork totals are the sums over
    these nodes, and for every language the map holds the sizes of the
    edges of these nodes added up, and their number: a node that repeats
    an identifier, or whose identifier is excluded, adds to none of the
    totals. *)
Theorem repositories_counted_once
    (s : Self) (w : World (T:=scripted)) (fuel : nat) (pages : list json)
    (s' : Self) (w' : World (T:=scripted)) :
  _stats_lock s <> Some true ->
  _stats_fetched s = false ->
  async_posts (net w) = map PostDecoded pages ->
  sync_posts (net w) = [] ->
  get_stats (T:=scripted) fuel (s, w) = (Ok tt, (s', w')) ->
  exists consumed rest,
    pages = consumed ++ rest
    /\ let cs := counted (_exclude_repos s) []
                   (all_nodes (_ignore_forked_repos s) consumed) in
       _repos s' = Some (map name_of cs)
       /\ distinct (map name_of cs)
       /\ (forall x, In x (map name_of cs) ->
             in_strings x (_exclude_repos s) = false)
       /\ _stargazers s' = Some (total (map stars_of cs))
       /\ _forks s' = Some (total (map forks_of cs))
       /\ exists d,
            _languages s' = Some d
            /\ forall n,
                 tallied (lang_find n d)
                   (sizes_of (map lower (_exclude_langs s)) n cs).
Proof.
  intros Hlock Hf Hw Hsync H.
  assert (Hblock : exists s1 : Self,
    locked_block (T:=scripted) fuel (set_stats_lock (Some true) s, w)
    = (Ok tt, (s1, w'))
    /\ s' = set_stats_lock (Some false) s1).
  { revert H. unfold get_stats. mstep.
    destruct (_stats_lock s) as [[|]|] eqn:L; [congruence| |];
      mstep; rewrite ?L; mstep; intros H;
      apply try_finally_Ok in H as ([s1 w1] & H & E);
      cbn [fst snd] in E; injection E as -> ->; exists s1;
      (split; [|reflexivity]); (etransitivity; [|exact H]);
      f_equal; f_equal; now destruct s. }
  destruct Hblock as (s1 & H1 & ->).
  apply (locked_block_ledger _ _ _ pages) in H1
    as (consumed & rest & Hp & (Lr & Ls & Lf & d & Ld & Lok));
    [|exact Hf|exact Hw|exact Hsync].
  fields in Lr. fields in Ls. fields in Lf. fields in Ld. fields in Lok.
  exists consumed, rest. split; [exact Hp|]. cbv zeta.
  destruct (counted_fresh (_exclude_repos s)
              (all_nodes (_ignore_forked_repos s) consumed) []) as [Hin Hd].
  repeat split; fields; try assumption.
  - intros x Hx. now apply Hin.
  - exists d. split; [exact Ld|]. exact Lok.
Qed.

End LedgerOfARun.

(** A page with a repeated repository and an excluded one: the set is
    [octocat/hello; torvalds/linux], with 5 + 9 stargazers. *)
Lemma repositories_witness :
  let s := Examples.octocat_with_secret in
  let w := Examples.answers [Examples.crowded_page] in
  Stats._stats_lock s <> Some true
  /\ Stats._stats_fetched s = false
  /\ async_posts (net w) = map PostDecoded [Examples.crowded_page]
  /\ sync_posts (net w) = []
  /\ exists s' w',
       Stats.get_stats (T:=scripted) (U:=ascii_only) 1 (s, w) = (Ok tt, (s', w'))
       /\ Stats._repos s'
          = Some [JStr "octocat/hello"; JStr "torvalds/linux"]
       /\ Stats._stargazers s' = Some 14
       /\ exists consumed rest,
            [Examples.crowded_page] = (consumed ++ rest)%list
            /\ let cs := Spec.counted (Stats._exclude_repos s) []
                           (Spec.all_nodes (Stats._ignore_forked_repos s)
                              consumed) in
               Stats._repos s' = Some (map Spec.name_of cs)
               /\ Spec.distinct (map Spec.name_of cs)
               /\ (forall x, In x (map Spec.name_of cs) ->
                     in_strings x (Stats._exclude_repos s) = false)
               /\ Stats._stargazers s'
                  = Some (Spec.total (map Spec.stars_of cs))
               /\ Stats._forks s'
                  = Some (Spec.total (map Spec.forks_of cs))
               /\ exists d,
                    Stats._languages s' = Some d
                    /\ forall n,
                         Spec.tallied (Stats.lang_find n d)
                           (Spec.sizes_of (U:=ascii_only)
                              (map ascii_lower (Stats._exclude_langs s))
                              n cs).
Proof.
  intros s w.
  split; [discriminate|]. split; [reflexivity|]. split; [reflexivity|].
  split; [reflexivity|].
  eexists _, _.
  split; [vm_compute; reflexivity|].
  split; [vm_compute; reflexivity|].
  split; [vm_compute; reflexivity|].
  eapply (repositories_counted_once (U:=ascii_only) s w 1
            [Examples.crowded_page]);
    [discriminate | reflexivity | reflexivity | reflexivity
    | vm_compute; reflexivity].
Defined.

(** ** Coroutines on one object *)

Section ObjectFrame.
Import Stats.
Context {U : Unicode}.
Context {T : Transport} {X : Type}.
Variable f : Self -> X.

Lemma leaves_ret {A} (a : A) : leaves f (ret a).
Proof. now intros st. Qed.
Lemma leaves_raise {A} e : leaves f (A := A) (raise e).
Proof. now intros st. Qed.
Lemma leaves_unfinished {A} : leaves f (A := A) unfinished.
Proof. now intros st. Qed.
Lemma leaves_lift {A} (r : res A) : leaves f (lift r).
Proof. now intros st. Qed.
Lemma leaves_attr {A} (g : Self -> A) : leaves f (attr g).
Proof. now intros st. Qed.
Lemma leaves_the {A} (o : option A) : leaves f (the o).
Proof. now destruct o. Qed.
Lemma leaves_assert c : leaves f (assert c).
Proof. now destruct c. Qed.
Lemma leaves_say line : leaves f (say line).
Proof. now intros st. Qed.
Lemma leaves_io {A} (m : M World A) : leaves f (io m).
Proof. intros st. unfold io. now destruct (m (snd st)). Qed.
Lemma leaves_assign g : (forall s, f (g s) = f s) -> leaves f (assign g).
Proof. intros H st. apply H. Qed.
Lemma leaves_bind {A B} (m : M St A) (k : A -> M St B) :
  leaves f m -> (forall a, leaves f (k a)) -> leaves f (bind m k).
Proof.
  intros Hm Hk st. unfold bind. specialize (Hm st).
  destruct (m st) as [[a|e|] st1]; cbn in *; try assumption.
  now rewrite Hk.
Qed.
Lemma leaves_for_each {A} (xs : list A) (body : A -> M St unit) :
  (forall x, leaves f (body x)) -> leaves f (for_each xs body).
Proof.
  intros H. induction xs as [|x xs IH]; cbn [for_each].
  - apply leaves_ret.
  - apply leaves_bind; auto.
Qed.

End ObjectFrame.

Create HintDb leaves.
#[global] Hint Resolve leaves_ret leaves_raise leaves_unfinished leaves_lift
  leaves_attr leaves_the leaves_assert leaves_say leaves_io : leaves.

Ltac leaves_step :=
  lazymatch goal with
  | |- leaves _ (bind _ _) => apply leaves_bind; [|intros ?]
  | |- leaves _ (for_each _ _) => apply leaves_for_each; intros ?
  | |- leaves _ (Stats.assign _) => apply leaves_assign; intros []; reflexivity
  | |- leaves _ (match ?x with _ => _ end) => destruct x
  | |- _ => solve [auto with leaves | intros ?; reflexivity]
  end.

Ltac leaves := repeat leaves_step.

Section Scheduling.
Import Stats Async Async.
Context {T : Transport} {U : Unicode}.

Lemma add_language_guards excl lang : leaves guard (add_language excl lang).
Proof. unfold add_language. leaves. Qed.

Lemma add_repo_guards excl repo : leaves guard (add_repo excl repo).
Proof.
  unfold add_repo. leaves.
  - unfold lang_names_entry. leaves.
  - apply add_language_guards.
Qed.

Lemma read_page_guards excl raw no nc : leaves guard (read_page excl raw no nc).
Proof.
  unfold read_page. leaves.
  all: try apply add_repo_guards.
Qed.

Lemma query_ends document : finishes (Queries.query document).
Proof.
  intros w. unfold Queries.query, exchange.
  destruct (session_post document (net w)) as [[|r] n]; cbn.
  - destruct (requests_post document n) as [[|r] n']; cbn.
    + discriminate.
    + destruct (is_None r); discriminate.
  - destruct (is_None r); discriminate.
Qed.

Lemma count_replace (p : task -> bool) (t t' : task) :
  forall (ts : list task) (i : nat),
    nth_error ts i = Some t ->
    (count p (replace_nth i t' ts) + Nat.b2n (p t)
     = count p ts + Nat.b2n (p t'))%nat.
Proof.
  unfold count.
  induction ts as [|x ts IH]; intros [|i] H; try discriminate; cbn in H.
  - injection H as ->. cbn. destruct (p t), (p t'); cbn; lia.
  - cbn. specialize (IH i H). destruct (p x); cbn; lia.
Qed.

Lemma leave_raise r e st : settled (fst (leave r (Raise e) st)) (fst (snd (leave r (Raise e) st))).
Proof. now apply Raised. Qed.

Lemma leave_ok r st :
  _stats_fetched (fst st) = true ->
  settled (fst (leave r (Ok tt) st)) (fst (snd (leave r (Ok tt) st))).
Proof.
  intros H. cbn [leave fst snd].
  destruct (after_get_stats r (set_stats_lock (Some false) (fst st))) eqn:E.
  - apply Fetched; try reflexivity. destruct st as [[] w]; exact H.
  - now apply Raised.
  - exfalso. destruct r; cbn in E; try discriminate;
      match type of E with
      | match ?m with _ => _ end = _ => destruct m; discriminate
      end.
Qed.

Lemma ask_settled r excl no nc st :
  guard (fst st) = (Some true, false) ->
  settled (fst (ask r excl no nc st)) (fst (snd (ask r excl no nc st))).
Proof.
  intros H. unfold ask.
  destruct (Queries.repos_overview nc no) eqn:D.
  - now apply StillFetching.
  - apply leave_raise.
  - now apply repos_overview_ends in D.
Qed.

Lemma start_guards : leaves guard start.
Proof. unfold start. leaves. Qed.

Lemma start_returns st : exists excl st', start st = (Ok excl, st').
Proof. do 2 eexists. reflexivity. Qed.

Lemma enter_settled r st :
  settled (fst (enter r st)) (fst (snd (enter r st))).
Proof.
  unfold enter. cbn [fst snd].
  destruct (_stats_fetched (set_stats_lock (Some true) (fst st))) eqn:F.
  - apply leave_ok. exact F.
  - destruct (start_returns (set_stats_lock (Some true) (fst st), snd st))
      as (excl & st' & E).
    pose proof (start_guards (set_stats_lock (Some true) (fst st), snd st)) as G.
    rewrite E in *. cbn [fst snd] in G.
    apply ask_settled. rewrite G. unfold guard. rewrite F.
    now destruct st as [[] w].
Qed.

Lemma answered_settled r excl document no nc st :
  guard (fst st) = (Some true, false) ->
  settled (fst (answered r excl document no nc st))
          (fst (snd (answered r excl document no nc st))).
Proof.
  intros G. unfold answered.
  pose proof (query_ends document (snd st)) as Q.
  unfold io. destruct (Queries.query document (snd st)) as [[raw| |] w1];
    [ | apply leave_raise | now elim Q ].
  pose proof (read_page_ends excl raw no nc (fst st, w1)) as E.
  pose proof (read_page_guards excl raw no nc (fst st, w1)) as K.
  destruct (read_page excl raw no nc (fst st, w1))
    as [[[[no' nc']|]| |] st2];
    [ | | apply leave_raise | now elim E ]; cbn [fst snd] in K.
  - apply ask_settled. now rewrite K.
  - pose proof (finish_ends st2) as Fe.
    destruct st2 as [s2 w2].
    destruct (finish (s2, w2)) as [[[]| |] st3] eqn:Fi;
      [ | apply leave_raise | now elim Fe ].
    apply finish_inv in Fi as (d & d' & _ & -> & _).
    apply leave_ok. now destruct s2.
Qed.

Lemma count_nth (p : task -> bool) (t : task) :
  forall (ts : list task) (i : nat),
    nth_error ts i = Some t -> p t = true -> (1 <= count p ts)%nat.
Proof.
  unfold count.
  induction ts as [|x ts IH]; intros [|i] H Hp; try discriminate; cbn in H.
  - injection H as ->. cbn. rewrite Hp. cbn. lia.
  - cbn. specialize (IH i H Hp). destruct (p x); cbn; lia.
Qed.

(** The bookkeeping of one run that ends [settled]: [b] is 1 when the run
    begins the fetch. *)
Lemma settled_step (sys : system) (i : nat) (t t' : task) (st' : St) (b : nat) :
  exclusive sys ->
  nth_error (tasks sys) i = Some t ->
  has_raised t = false ->
  settled t' (fst st') ->
  (if is_fetching t then b = 0%nat
   else count is_fetching (tasks sys) = 0%nat
        /\ (b + Nat.b2n (_stats_fetched (fst (shared sys))) <= 1)%nat) ->
  exclusive (mkSystem st' (replace_nth i t' (tasks sys)))
  /\ (b + accounted sys
      <= accounted (mkSystem st' (replace_nth i t' (tasks sys))))%nat.
Proof.
  intros [H1 H2] N Hr S Hb.
  pose proof (count_replace is_fetching t t' _ _ N) as CF.
  pose proof (count_replace has_raised t t' _ _ N) as CR.
  rewrite Hr in CR.
  unfold exclusive, accounted. cbn [tasks shared].
  destruct (is_fetching t) eqn:F.
  - pose proof (count_nth is_fetching t _ _ N F) as C1.
    assert (count is_fetching (tasks sys) = 1%nat) as C by lia.
    specialize (H2 C). unfold guard in H2. injection H2 as _ Hf.
    rewrite Hf. subst b.
    destruct S as [Sf Sr Sg | Sf Sr | Sf Sr Sd];
      rewrite Sf in CF; rewrite Sr in CR; cbn [Nat.b2n] in *.
    + pose proof Sg as Sg'. unfold guard in Sg'. injection Sg' as _ Sd.
      rewrite Sd. cbn [Nat.b2n]. repeat split; try lia. intros _. exact Sg.
    + repeat split; try lia.
    + rewrite Sd. cbn [Nat.b2n]. repeat split; try lia.
  - destruct Hb as [C Hb]. rewrite C in *.
    destruct S as [Sf Sr Sg | Sf Sr | Sf Sr Sd];
      rewrite Sf in CF; rewrite Sr in CR; cbn [Nat.b2n] in *.
    + pose proof Sg as Sg'. unfold guard in Sg'. injection Sg' as _ Sd.
      rewrite Sd. cbn [Nat.b2n]. repeat split; try lia. intros _. exact Sg.
    + repeat split; try lia.
    + rewrite Sd. cbn [Nat.b2n].
      destruct (_stats_fetched (fst (shared sys))); cbn [Nat.b2n] in *;
        repeat split; try lia.
Qed.

Lemma free_lock_nobody_fetching (sys : system) :
  exclusive sys ->
  _stats_lock (fst (shared sys)) <> Some true ->
  count is_fetching (tasks sys) = 0%nat.
Proof.
  intros [H1 H2] L.
  destruct (count is_fetching (tasks sys)) as [|[|n]]; [reflexivity| |lia].
  specialize (H2 eq_refl). unfold guard in H2. congruence.
Qed.

Lemma step_exclusive (i : nat) (sys : system) :
  exclusive sys ->
  exclusive (step i sys)
  /\ (begins i sys + accounted sys <= accounted (step i sys))%nat.
Proof.
  intros X. unfold step, begins.
  destruct (nth_error (tasks sys) i) as [t|] eqn:N; [|split; [exact X|lia]].
  destruct (runnable t (fst (shared sys))) eqn:R; [|split; [exact X|cbn; lia]].
  destruct (resume t (shared sys)) as [t' st'] eqn:Res.
  cbn [andb].
  destruct t as [r|r|r excl document no nc|r o]; cbn [resume] in Res;
    cbn [begins_fetch].
  - (* the accessor's test, then the call *)
    destruct (memo r (fst (shared sys))) eqn:Me.
    + injection Res as <- <-.
      pose proof (count_replace is_fetching _ (Finished r (Ok v)) _ _ N) as CF.
      pose proof (count_replace has_raised _ (Finished r (Ok v)) _ _ N) as CR.
      cbn [is_fetching has_raised Nat.b2n] in CF, CR.
      destruct X as [H1 H2]. unfold exclusive, accounted. cbn [tasks shared].
      repeat split; try lia. intros C. apply H2. lia.
    + unfold call_get_stats in Res.
      destruct (_stats_lock (fst (shared sys))) as [[|]|] eqn:L;
        cbn [fst snd] in Res.
      * rewrite L in Res. injection Res as <- <-.
        pose proof (count_replace is_fetching _ (Acquiring r) _ _ N) as CF.
        pose proof (count_replace has_raised _ (Acquiring r) _ _ N) as CR.
        cbn [is_fetching has_raised Nat.b2n] in CF, CR.
        destruct X as [H1 H2]. unfold exclusive, accounted. cbn [tasks shared].
        repeat split; try lia. intros C. apply H2. lia.
      * rewrite L in Res.
        pose proof (enter_settled r (shared sys)) as S. rewrite Res in S.
        apply (settled_step sys i (Created r)); try assumption; try reflexivity.
        cbn [is_fetching]. split.
        -- apply free_lock_nobody_fetching; [exact X|congruence].
        -- destruct (_stats_fetched (fst (shared sys))); cbn; lia.
      * assert (_stats_lock (set_stats_lock (Some false) (fst (shared sys)))
                = Some false) as L' by (now destruct (fst (shared sys))).
        rewrite L' in Res.
        pose proof (enter_settled r
                      (set_stats_lock (Some false) (fst (shared sys)),
                       snd (shared sys))) as S.
        rewrite Res in S.
        apply (settled_step sys i (Created r)); try assumption; try reflexivity.
        cbn [is_fetching]. split.
        -- apply free_lock_nobody_fetching; [exact X|congruence].
        -- destruct (_stats_fetched (fst (shared sys))); cbn; lia.
  - (* the lock has been released *)
    cbn [runnable] in R.
    pose proof (enter_settled r (shared sys)) as S. rewrite Res in S.
    apply (settled_step sys i (Acquiring r)); try assumption; try reflexivity.
    cbn [is_fetching]. split.
    + apply free_lock_nobody_fetching; [exact X|].
      intros L. rewrite L in R. discriminate.
    + destruct (_stats_fetched (fst (shared sys))); cbn; lia.
  - (* the answer has come *)
    assert (guard (fst (shared sys)) = (Some true, false)) as G.
    { destruct X as [H1 H2]. apply H2.
      pose proof (count_nth is_fetching _ _ _ N eq_refl). lia. }
    pose proof (answered_settled r excl document no nc (shared sys) G) as S.
    rewrite Res in S.
    apply (settled_step sys i (Fetching r excl document no nc));
      try assumption; reflexivity.
  - discriminate.
Qed.

Lemma exec_exclusive (schedule : list nat) :
  forall sys : system,
    exclusive sys ->
    exclusive (exec schedule sys)
    /\ (fetches_begun schedule sys + accounted sys
        <= accounted (exec schedule sys))%nat.
Proof.
  induction schedule as [|i rest IH]; intros sys X; cbn [exec fetches_begun].
  - split; [exact X|lia].
  - destruct (step_exclusive i sys X) as [X1 A1].
    destruct (IH _ X1) as [X2 A2]. split; [exact X2|lia].
Qed.

(** X1.  From a state in which no coroutine is inside the block, whatever
    the schedule: at most one coroutine at a time is inside the block, and
    while one is, the lock is taken and [_stats_fetched] is down; every
    begun fetch is accounted for by the coroutine inside the block, by
    [_stats_fetched], or by a coroutine that ended with an exception.  So
    when no coroutine ended with an exception the fetch was begun at most
    once. *)
Theorem fetch_begun_at_most_once (schedule : list nat) (sys : system) :
  count is_fetching (tasks sys) = 0%nat ->
  let sys' := exec schedule sys in
  (count is_fetching (tasks sys') <= 1)%nat
  /\ (count is_fetching (tasks sys') = 1%nat ->
      _stats_lock (fst (shared sys')) = Some true
      /\ _stats_fetched (fst (shared sys')) = false)
  /\ (fetches_begun schedule sys
      <= count is_fetching (tasks sys')
         + Nat.b2n (_stats_fetched (fst (shared sys')))
         + count has_raised (tasks sys'))%nat
  /\ (count has_raised (tasks sys') = 0%nat ->
      (fetches_begun schedule sys <= 1)%nat).
Proof.
  intros C sys'.
  assert (exclusive sys) as X by (split; [lia | intros E; lia]).
  destruct (exec_exclusive schedule sys X) as [[H1 H2] A].
  fold sys' in H1, H2, A. unfold accounted in A.
  assert (count is_fetching (tasks sys') = 1%nat ->
          _stats_lock (fst (shared sys')) = Some true
          /\ _stats_fetched (fst (shared sys')) = false) as H3.
  { intros E. specialize (H2 E). unfold guard in H2. now injection H2. }
  repeat split; try lia; try (now apply H3).
  intros R.
  destruct (count is_fetching (tasks sys')) as [|[|n]] eqn:E; [| |lia].
  - destruct (_stats_fetched (fst (shared sys'))); cbn [Nat.b2n] in A; lia.
  - destruct (H3 eq_refl) as [_ F]. rewrite F in A. cbn [Nat.b2n] in A. lia.
Qed.

End Scheduling.

(** Two callers of [get_stats]: the second waits for the lock and finds the
    fetch done. *)
Lemma fetch_begun_witness :
  let sys := Examples.two_callers in
  let schedule := [0; 1; 0; 1]%nat in
  let sys' := Async.exec (T:=scripted) (U:=ascii_only) schedule sys in
  Async.count Async.is_fetching (Async.tasks sys) = 0%nat
  /\ Async.fetches_begun (T:=scripted) schedule sys = 1%nat
  /\ Async.tasks sys'
     = [Async.Finished Async.GetStats (Ok Async.VNone);
        Async.Finished Async.GetStats (Ok Async.VNone)]
  /\ trace (snd (Async.shared sys'))
     = [Post (match Queries.repos_overview JNull JNull with
              | Ok document => document
              | _ => EmptyString
              end)]
  /\ (Async.count Async.is_fetching (Async.tasks sys') <= 1)%nat
  /\ (Async.count Async.is_fetching (Async.tasks sys') = 1%nat ->
      Stats._stats_lock (fst (Async.shared sys')) = Some true
      /\ Stats._stats_fetched (fst (Async.shared sys')) = false)
  /\ (Async.fetches_begun (T:=scripted) schedule sys
      <= Async.count Async.is_fetching (Async.tasks sys')
         + Nat.b2n (Stats._stats_fetched (fst (Async.shared sys')))
         + Async.count Async.has_raised (Async.tasks sys'))%nat
  /\ (Async.count Async.has_raised (Async.tasks sys') = 0%nat ->
      (Async.fetches_begun (T:=scripted) schedule sys <= 1)%nat).
Proof.
  intros sys schedule sys'.
  split; [reflexivity|].
  split; [vm_compute; reflexivity|].
  split; [vm_compute; reflexivity|].
  split; [vm_compute; reflexivity|].
  exact (fetch_begun_at_most_once schedule sys eq_refl).
Defined.

(** ** Values that are kept *)

Section Memo.
Import Stats.
Context {T : Transport} {U : Unicode}.

Lemma bind_inv {W A B} (m : M W A) (k : A -> M W B) st v st' :
  bind m k st = (Ok v, st') ->
  exists a st1, m st = (Ok a, st1) /\ k a st1 = (Ok v, st').
Proof.
  unfold bind. destruct (m st) as [[a|e|] st1]; try discriminate. eauto.
Qed.

Lemma stargazers_memoized fuel : memoized (stargazers fuel).
Proof.
  intros [s w] v st'. unfold stargazers. mstep.
  destruct (_stargazers s) as [n|] eqn:E.
  - mstep. intros [= <- <-]. mstep. now rewrite E.
  - intros H. apply bind_inv in H as ([] & [s1 w1] & _ & H). revert H. mstep.
    destruct (_stargazers s1) as [n|] eqn:E1; [|intros [=]].
    intros [= <- <-]. mstep. now rewrite E1.
Qed.

Lemma languages_memoized fuel : memoized (languages fuel).
Proof.
  intros [s w] v st'. unfold languages. mstep.
  destruct (_languages s) as [n|] eqn:E.
  - mstep. intros [= <- <-]. mstep. now rewrite E.
  - intros H. apply bind_inv in H as ([] & [s1 w1] & _ & H). revert H. mstep.
    destruct (_languages s1) as [n|] eqn:E1; [|intros [=]].
    intros [= <- <-]. mstep. now rewrite E1.
Qed.

Lemma repos_memoized fuel : memoized (repos fuel).
Proof.
  intros [s w] v st'. unfold repos. mstep.
  destruct (_repos s) as [n|] eqn:E.
  - mstep. intros [= <- <-]. mstep. now rewrite E.
  - intros H. apply bind_inv in H as ([] & [s1 w1] & _ & H). revert H. mstep.
    destruct (_repos s1) as [n|] eqn:E1; [|intros [=]].
    intros [= <- <-]. mstep. now rewrite E1.
Qed.

Lemma languages_proportional_memoized fuel :
  memoized (languages_proportional fuel).
Proof.
  intros [s w] v st'. unfold languages_proportional. mstep.
  destruct (_languages s) as [d|] eqn:E.
  - mstep. rewrite E. mstep. intros [= <- <-]. mstep. rewrite E. mstep.
    now rewrite E.
  - intros H. apply bind_inv in H as ([] & [s1 w1] & _ & H). revert H. mstep.
    destruct (_languages s1) as [d|] eqn:E1; [|mstep; intros [=]].
    mstep. intros [= <- <-]. mstep. rewrite E1. mstep. now rewrite E1.
Qed.

Lemma name_memoized fuel : memoized (name fuel).
Proof.
  intros [s w] v st'. unfold name. mstep.
  destruct (is_None (_name s)) eqn:E; cbn [negb].
  - intros H. apply bind_inv in H as ([] & [s1 w1] & _ & H). revert H. mstep.
    destruct (is_None (_name s1)) eqn:E1; cbn [negb assert]; mstep;
      [intros [=]|].
    intros [= <- <-]. mstep. now rewrite E1.
  - mstep. intros [= <- <-]. mstep. now rewrite E.
Qed.

Lemma prs_memoized : memoized prs.
Proof.
  intros [s w] v st'. unfold prs. mstep.
  destruct (is_None (_prs s)) eqn:E; cbn [negb].
  - intros H. apply bind_inv in H as ([] & [s1 w1] & _ & H). revert H. mstep.
    destruct (is_None (_prs s1)) eqn:E1; cbn [negb assert]; mstep;
      [intros [=]|].
    intros [= <- <-]. mstep. now rewrite E1.
  - mstep. intros [= <- <-]. mstep. now rewrite E.
Qed.

Lemma issues_memoized : memoized issues.
Proof.
  intros [s w] v st'. unfold issues. mstep.
  destruct (is_None (_issues s)) eqn:E; cbn [negb].
  - intros H. apply bind_inv in H as ([] & [s1 w1] & _ & H). revert H. mstep.
    destruct (is_None (_issues s1)) eqn:E1; cbn [negb assert]; mstep;
      [intros [=]|].
    intros [= <- <-]. mstep. now rewrite E1.
  - mstep. intros [= <- <-]. mstep. now rewrite E.
Qed.

Lemma forks_made_memoized fuel : memoized (forks_made fuel).
Proof.
  intros [s w] v st'. unfold forks_made. mstep.
  destruct (is_None (_forks_made s)) eqn:E; cbn [negb].
  - intros H. apply bind_inv in H as ([] & [s1 w1] & _ & H). revert H. mstep.
    destruct (is_None (_forks_made s1)) eqn:E1; cbn [negb assert]; mstep;
      [intros [=]|].
    intros [= <- <-]. mstep. now rewrite E1.
  - mstep. intros [= <- <-]. mstep. now rewrite E.
Qed.

Lemma lines_changed_memoized fuel : memoized (lines_changed fuel).
Proof.
  intros [s w] v st'. unfold lines_changed. mstep.
  destruct (_lines_changed s) as [t|] eqn:E.
  - mstep. intros [= <- <-]. mstep. now rewrite E.
  - intros H. apply bind_inv in H as (rs & st1 & _ & H).
    apply bind_inv in H as (totals & [s2 w2] & _ & H). revert H. mstep.
    intros [= <- <-]. now mstep.
Qed.

Lemma views_memoized fuel : memoized (views fuel).
Proof.
  intros [s w] v st'. unfold views. mstep.
  destruct (_views s) as [t|] eqn:E.
  - mstep. intros [= <- <-]. mstep. now rewrite E.
  - intros H. apply bind_inv in H as (rs & st1 & _ & H).
    apply bind_inv in H as (totals & [s2 w2] & _ & H). revert H. mstep.
    intros [= <- <-]. now mstep.
Qed.

Lemma io_inv {A} (m : M World A) (st st1 : St) (a : A) :
  io m st = (Ok a, st1) -> fst st1 = fst st.
Proof.
  unfold io. destruct (m (snd st)) as [r w1]. now intros [= _ <-].
Qed.

Lemma total_contributions_memoized : memoized total_contributions.
Proof.
  intros [s w] v st'. unfold total_contributions. mstep.
  destruct (_total_contributions s) as [n|] eqn:E.
  - mstep. intros [= <- <-]. mstep. now rewrite E.
  - mstep. intros H. apply bind_inv in H as (r & [s1 w1] & Hio & H).
    apply io_inv in Hio. cbn [fst] in Hio. subst s1. revert H.
    mcase as viewer E1. mcase as cc E2. mcase as years E3.
    destruct (truthy years); cbn [negb].
    + mcase as document D. intros H.
      apply bind_inv in H as (r2 & [s2 w2] & _ & H). revert H.
      mcase as viewer2 E4. mcase as by_year E5. intros H.
      apply bind_inv in H as ([] & [s3 w3] & _ & H). revert H. mstep.
      destruct (_total_contributions s3) as [n|] eqn:E6; [|intros [=]].
      mstep. intros [= <- <-]. mstep. now rewrite E6.
    + mstep. intros [= <- <-]. now mstep.
Qed.

Lemma forks_pages_leaves_forks (fuel : nat) :
  forall total_forks cursor,
    leaves _forks (forks_pages fuel total_forks cursor).
Proof.
  induction fuel as [|fuel IH]; intros total_forks cursor; cbn [forks_pages].
  - apply leaves_unfinished.
  - leaves.
Qed.

Lemma forks_made_leaves_forks (fuel : nat) : leaves _forks (forks_made fuel).
Proof.
  unfold forks_made, get_user_forks. leaves.
  apply forks_pages_leaves_forks.
Qed.

Lemma forks_memoized fuel : memoized (forks fuel).
Proof.
  intros st v st'. unfold forks. rewrite bind_attr. intros H.
  apply bind_inv in H as ([] & [s1 w1] & _ & H). revert H. mstep.
  destruct (_forks s1) as [received|] eqn:E1; [|mstep; intros [=]].
  intros H. apply bind_inv in H as (made & st2 & Hm & H).
  pose proof (forks_made_leaves_forks fuel (s1, w1)) as L.
  rewrite Hm in L. cbn [fst snd] in L. rewrite E1 in L.
  apply forks_made_memoized in Hm.
  assert (st2 = st') as -> by (revert H; unfold lift; now intros [= _ ->]).
  destruct st' as [s' w']. cbn [fst] in L. mstep. rewrite L. mstep.
  rewrite L. erewrite bind_Ok by exact Hm. exact H.
Qed.

(** X2.  Every accessor but [total_commits] keeps what it has returned: a
    call that returns a value leaves the object in a state from which the
    next call returns the same value, changes nothing and sends no
    request. *)
Theorem accessors_memoized (fuel : nat) :
  memoized (name fuel)
  /\ memoized (stargazers fuel)
  /\ memoized (forks fuel)
  /\ memoized (languages fuel)
  /\ memoized (languages_proportional fuel)
  /\ memoized (repos fuel)
  /\ memoized total_contributions
  /\ memoized (lines_changed fuel)
  /\ memoized (views fuel)
  /\ memoized prs
  /\ memoized issues
  /\ memoized (forks_made fuel).
Proof.
  repeat split.
  - apply name_memoized.
  - apply stargazers_memoized.
  - apply forks_memoized.
  - apply languages_memoized.
  - apply languages_proportional_memoized.
  - apply repos_memoized.
  - apply total_contributions_memoized.
  - apply lines_changed_memoized.
  - apply views_memoized.
  - apply prs_memoized.
  - apply issues_memoized.
  - apply forks_made_memoized.
Qed.

End Memo.

(** ** The budget of a REST request *)

Section RestBudget.
Import Wire.
Context {T : Transport} {U : Unicode}.
Local Open Scope list_scope.

Lemma sent_app kind a b : sent kind (a ++ b) = (sent kind a + sent kind b)%nat.
Proof. unfold sent. now rewrite filter_app, length_app. Qed.

Lemma slept_app a b : slept (a ++ b) = slept a + slept b.
Proof.
  unfold slept. induction a as [|e a IH]; cbn [app map fold_right]; lia.
Qed.

Lemma rest_fallback_events attempt path cloak params w :
  exists added,
    trace (snd (Queries.rest_fallback attempt path cloak params w))
    = trace w ++ added
    /\ sent is_get added = 0%nat
    /\ sent is_get_sync added = 1%nat
    /\ sent is_post added = 0%nat
    /\ sent is_post_sync added = 0%nat
    /\ 0 <= slept added <= 5.
Proof.
  unfold Queries.rest_fallback, exchange, emit. cbn [net trace].
  destruct (requests_get path cloak params (net w)) as [[|status body] n];
    cbn beta iota zeta.
  - cbn [snd trace]. rewrite <- !app_assoc. eexists. split; [reflexivity|].
    cbn. repeat split; lia.
  - destruct (Z.eqb status 202); [|destruct (Z.eqb status 403);
      [|destruct (Z.eqb status 404); [|destruct (Z.eqb status 200);
        [destruct body as [b|]; [destruct (is_None b)|]|]]]];
      cbn [snd trace]; rewrite <- ?app_assoc;
      (eexists; split; [reflexivity|]); cbn; repeat split; lia.
Qed.

Lemma rest_attempt_events attempt path cloak params w :
  exists added,
    trace (snd (Queries.rest_attempt attempt path cloak params w))
    = trace w ++ added
    /\ one_turn added.
Proof.
  assert (F : forall n,
             exists added,
               trace (snd (Queries.rest_fallback attempt path cloak params
                             (mkWorld n (trace w ++ [Get path cloak]))))
               = trace w ++ added
               /\ one_turn added).
  { intros n.
    destruct (rest_fallback_events attempt path cloak params
                (mkWorld n (trace w ++ [Get path cloak])))
      as (added & E & G & S & P & PS & Z).
    rewrite E. cbn [trace]. rewrite <- app_assoc.
    eexists. split; [reflexivity|].
    unfold one_turn. rewrite !sent_app, slept_app, G, S, P, PS.
    cbn. repeat split; lia. }
  unfold Queries.rest_attempt, exchange.
  destruct (session_get path cloak params (net w)) as [[|status body] n];
    cbn beta iota zeta; [apply F|].
  destruct (Z.eqb status 202); [|destruct (Z.eqb status 403);
    [|destruct (Z.eqb status 404);
      [|destruct body as [b|]; [destruct (is_None b)|apply F]]]];
    unfold emit; cbn [snd trace]; rewrite <- ?app_assoc;
    (eexists; split; [reflexivity|]); repeat split; cbn; lia.
Qed.

Lemma query_rest_loop_budget (k : nat) :
  forall attempt path params w,
    exists r w' added,
      Queries.query_rest_loop k attempt path params w = (Ok r, w')
      /\ trace w' = trace w ++ added
      /\ (sent is_get added <= k)%nat
      /\ (k <> 0%nat -> 1 <= sent is_get added)%nat
      /\ (sent is_get_sync added <= sent is_get added)%nat
      /\ sent is_post added = 0%nat
      /\ sent is_post_sync added = 0%nat
      /\ 0 <= slept added <= 5 * Z.of_nat (sent is_get added).
Proof.
  induction k as [|k IH]; intros attempt path params w.
  - cbn. unfold emit. do 3 eexists. split; [reflexivity|].
    cbn [trace]. split; [reflexivity|]. cbn. repeat split; lia.
  - cbn [Queries.query_rest_loop].
    destruct (rest_attempt_events attempt (Queries.strip_slash path)
                (is_substring "/search/commits" path) params w)
      as (added & E & G & S & P & PS & Z).
    destruct (Queries.rest_attempt attempt (Queries.strip_slash path)
                (is_substring "/search/commits" path) params w)
      as [[r|] w1]; cbn [snd] in E.
    + exists r, w1, added. rewrite G.
      repeat split; try assumption; try lia.
    + destruct (IH (attempt + 1) (Queries.strip_slash path) params w1)
        as (r & w' & more & -> & E' & G' & _ & S' & P' & PS' & Z').
      exists r, w', (added ++ more).
      rewrite E', E, <- app_assoc, !sent_app, slept_app, G, P, PS, P', PS'.
      repeat split; try lia.
Qed.

(** X3.  [query_rest] always returns, whatever the clients do, after at
    least one and at most 60 GETs on the session, at most one GET on the
    fallback client for each of them, no POST, and at most five seconds of
    sleep for each GET: 300 seconds at most. *)
Theorem query_rest_budget
    (path : string) (params : option (list (string * json))) (w : World) :
  exists r w' added,
    Queries.query_rest path params w = (Ok r, w')
    /\ trace w' = trace w ++ added
    /\ (1 <= sent is_get added <= 60)%nat
    /\ (sent is_get_sync added <= sent is_get added)%nat
    /\ sent is_post added = 0%nat
    /\ sent is_post_sync added = 0%nat
    /\ 0 <= slept added <= 300.
Proof.
  unfold Queries.query_rest.
  destruct (query_rest_loop_budget 60 0 path
              (match params with Some p => p | None => [] end) w)
    as (r & w' & added & E & Tr & G & G1 & S & P & PS & Z).
  exists r, w', added. repeat split; try assumption; lia.
Qed.

Lemma rest_attempt_first attempt path cloak params w :
  exists more,
    trace (snd (Queries.rest_attempt attempt path cloak params w))
    = trace w ++ Get path cloak :: more.
Proof.
  unfold Queries.rest_attempt, exchange.
  assert (F : forall n,
             exists more,
               trace (snd (Queries.rest_fallback attempt path cloak params
                             (mkWorld n (trace w ++ [Get path cloak]))))
               = trace w ++ Get path cloak :: more).
  { intros n.
    destruct (rest_fallback_events attempt path cloak params
                (mkWorld n (trace w ++ [Get path cloak])))
      as (added & E & _).
    rewrite E. cbn [trace]. rewrite <- app_assoc. eexists. reflexivity. }
  destruct (session_get path cloak params (net w)) as [[|status body] n];
    cbn beta iota zeta; [apply F|].
  destruct (Z.eqb status 202); [|destruct (Z.eqb status 403);
    [|destruct (Z.eqb status 404);
      [|destruct body as [b|]; [destruct (is_None b)|apply F]]]];
    unfold emit; cbn [snd trace]; rewrite <- ?app_assoc;
    eexists; reflexivity.
Qed.

Lemma query_rest_loop_first (k : nat) attempt path params w :
  exists more,
    trace (snd (Queries.query_rest_loop (S k) attempt path params w))
    = trace w ++ Get (Queries.strip_slash path)
                     (is_substring "/search/commits" path) :: more.
Proof.
  cbn [Queries.query_rest_loop].
  destruct (rest_attempt_first attempt (Queries.strip_slash path)
              (is_substring "/search/commits" path) params w) as (more & E).
  destruct (Queries.rest_attempt attempt (Queries.strip_slash path)
              (is_substring "/search/commits" path) params w)
    as [[r|] w1]; cbn [snd] in E.
  - eauto.
  - destruct (query_rest_loop_budget k (attempt + 1)
                (Queries.strip_slash path) params w1)
      as (r & w' & added & -> & E' & _).
    cbn [snd]. rewrite E', E, <- app_assoc. cbn [app]. eauto.
Qed.

Lemma query_rest_loop_S (k : nat) attempt path params w :
  Queries.query_rest_loop (S k) attempt path params w
  = match
      Queries.rest_attempt attempt (Queries.strip_slash path)
        (is_substring "/search/commits" path) params w
    with
    | (Some result, w') => (Ok result, w')
    | (None, w') =>
        Queries.query_rest_loop k (attempt + 1) (Queries.strip_slash path)
          params w'
    end.
Proof. reflexivity. Qed.

(** X4.  Each turn of the retry loop decides on the commit-search header
    and strips a leading slash anew, on the path as the turn before left
    it.  For a path that starts with [/search/commits] (and does not hold
    that text again) whose first GET is answered 202, the first GET carries
    the header and the second, to the same address, does not. *)
Theorem retry_drops_search_header
    (q : string) (params : option (list (string * json))) (w : World)
    (body : option json) (n1 : Net) :
  let sent_path := ("search/commits" ++ q)%string in
  is_substring "/search/commits" sent_path = false ->
  session_get sent_path true
    (match params with Some p => p | None => [] end) (net w)
  = (GetResponse 202 body, n1) ->
  exists more,
    trace (snd (Queries.query_rest ("/" ++ sent_path)%string params w))
    = trace w
      ++ [Get sent_path true; Print (Rest202 sent_path 1); Sleep 2;
          Get sent_path false]
      ++ more.
Proof.
  intros sent_path Hq H. unfold Queries.query_rest.
  change (60%nat) with (S 59). rewrite query_rest_loop_S.
  change (Queries.strip_slash ("/" ++ sent_path)%string) with sent_path.
  assert (is_substring "/search/commits" ("/" ++ sent_path)%string = true) as ->
    by (subst sent_path; now destruct q).
  unfold Queries.rest_attempt at 1, exchange. rewrite H.
  cbn beta iota zeta. change (Z.eqb 202 202) with true. cbn iota.
  change (59%nat) with (S 58).
  destruct (query_rest_loop_first 58 (0 + 1) sent_path
              (match params with Some p => p | None => [] end)
              (emit (Sleep 2)
                 (emit (Print (Rest202 sent_path (0 + 1)))
                    (mkWorld n1 (trace w ++ [Get sent_path true])))))
    as (more & E).
  rewrite E. unfold emit. cbn [trace]. rewrite Hq.
  assert (Queries.strip_slash sent_path = sent_path) as -> by reflexivity.
  rewrite <- !app_assoc. cbn [app]. eauto.
Qed.

(** X5.  [query] sends one POST on the session and returns the decoded
    body, the empty dict standing in for the body [null].  When that POST
    fails it prints the failure, sends one POST on the fallback client and
    returns what that one decodes to, in the same way; when the fallback
    fails too, the exception leaves [query].  So [query] never returns
    [None], and it sends nothing but these one or two POSTs. *)
Theorem query_posts_once_or_twice (document : string) (w : World) :
  let body_or_dict (result : json) :=
    if is_None result then empty_dict else result in
  let after_fallback (n : Net) :=
    mkWorld n
      (trace w ++ [Post document; Print AiohttpFailedGraphQL;
                   PostSync document]) in
  (forall result n,
     session_post document (net w) = (PostDecoded result, n) ->
     Queries.query document w
     = (Ok (body_or_dict result), mkWorld n (trace w ++ [Post document])))
  /\ (forall n result n',
        session_post document (net w) = (PostFailed, n) ->
        requests_post document n = (PostDecoded result, n') ->
        Queries.query document w
        = (Ok (body_or_dict result), after_fallback n'))
  /\ (forall n n',
        session_post document (net w) = (PostFailed, n) ->
        requests_post document n = (PostFailed, n') ->
        Queries.query document w = (Raise IOError, after_fallback n'))
  /\ (forall r w',
        Queries.query document w = (Ok r, w') -> is_None r = false).
Proof.
  intros body_or_dict after_fallback. subst body_or_dict after_fallback.
  unfold Queries.query, exchange, emit.
  split; [|split; [|split]].
  - intros result n ->. cbn beta iota zeta. now destruct (is_None result).
  - intros n result n' ->. cbn beta iota zeta. cbn [net trace]. intros ->.
    cbn beta iota zeta. rewrite <- !app_assoc. cbn [app].
    now destruct (is_None result).
  - intros n n' ->. cbn beta iota zeta. cbn [net trace]. intros ->.
    cbn beta iota zeta. now rewrite <- !app_assoc.
  - intros r w'.
    destruct (session_post document (net w)) as [[|result] n];
      cbn beta iota zeta.
    + cbn [net trace].
      destruct (requests_post document n) as [[|result] n'];
        cbn beta iota zeta; [discriminate|].
      destruct (is_None result) eqn:E; intros [= <- _];
        [reflexivity | exact E].
    + destruct (is_None result) eqn:E; intros [= <- _];
        [reflexivity | exact E].
Qed.

End RestBudget.

(** ** The summary query *)

Section SummaryFacts.
Import Stats.
Context {T : Transport} {U : Unicode}.

(** X6.  [prs], read on an object that has no value for it, sends the
    summary query once and takes both [_prs] and [_issues] from the answer,
    so that [issues] then needs no request; a name already known is kept.
    An answer without a viewer makes it raise [AssertionError]. *)
Theorem summary_serves_prs_and_issues (s : Self) (w : World) :
  is_None (_prs s) = true ->
  (forall v s' w',
     prs (s, w) = (Ok v, (s', w')) ->
     exists raw viewer pr iss,
       Queries.query Queries.summary_query w = (Ok raw, w')
       /\ viewer_of raw = Ok viewer
       /\ truthy viewer = true
       /\ get viewer "pullRequests" empty_dict = Ok pr
       /\ get pr "totalCount" (JNum 0) = Ok v
       /\ get viewer "issues" empty_dict = Ok iss
       /\ get iss "totalCount" (JNum 0) = Ok (_issues s')
       /\ _prs s' = v
       /\ (is_None (_name s) = false -> _name s' = _name s)
       /\ (is_None (_issues s') = false ->
           issues (s', w') = (Ok (_issues s'), (s', w'))))
  /\ (forall raw viewer w',
        Queries.query Queries.summary_query w = (Ok raw, w') ->
        viewer_of raw = Ok viewer ->
        truthy viewer = false ->
        prs (s, w) = (Raise AssertionError, (s, w'))).
Proof.
  intros Hp. split.
  - intros v s' w'. unfold prs. mstep. rewrite Hp. cbn [negb].
    unfold get_summary_stats. mstep.
    destruct (Queries.query Queries.summary_query w) as [[raw|e|] w1] eqn:Q.
    2: { erewrite bind_io_Raise by exact Q. intros [=]. }
    2: { unfold bind, io. cbn [snd]. rewrite Q. intros [=]. }
    erewrite bind_io_Ok by exact Q. fields.
    destruct (is_None raw) eqn:N.
    { mstep. rewrite Hp. cbn [negb assert]. mstep. intros [=]. }
    mcase as viewer V.
    destruct (truthy viewer) eqn:Tv; cbn [negb].
    2: { mstep. rewrite Hp. cbn [negb assert]. mstep. intros [=]. }
    mstep.
    destruct (is_None (_name s)) eqn:Nn.
    + mcase as nm E1. destruct (truthy nm).
      * mstep. mcase as pr E2. mcase as c E3. mcase as iss E4. mcase as ci E5.
        destruct (is_None c) eqn:Nc; cbn [negb assert]; mstep; [intros [=]|].
        intros [= <- <- <-]. exists raw, viewer, pr, iss. fields.
        repeat split; try assumption; try discriminate.
        intros Hi. unfold issues. mstep. rewrite Hi. cbn [negb]. now mstep.
      * mcase as l E1'. mstep. mcase as pr E2. mcase as c E3.
        mcase as iss E4. mcase as ci E5.
        destruct (is_None c) eqn:Nc; cbn [negb assert]; mstep; [intros [=]|].
        intros [= <- <- <-]. exists raw, viewer, pr, iss. fields.
        repeat split; try assumption; try discriminate.
        intros Hi. unfold issues. mstep. rewrite Hi. cbn [negb]. now mstep.
    + mstep. mcase as pr E2. mcase as c E3. mcase as iss E4. mcase as ci E5.
      destruct (is_None c) eqn:Nc; cbn [negb assert]; mstep; [intros [=]|].
      intros [= <- <- <-]. exists raw, viewer, pr, iss. fields.
      repeat split; try assumption; try reflexivity.
      intros Hi. unfold issues. mstep. rewrite Hi. cbn [negb]. now mstep.
  - intros raw viewer w' Q V Tv. unfold prs. mstep. rewrite Hp. cbn [negb].
    unfold get_summary_stats. mstep.
    erewrite bind_io_Ok by exact Q. fields.
    destruct (is_None raw).
    { mstep. rewrite Hp. cbn [negb assert]. now mstep. }
    rewrite V. mstep. rewrite Tv. cbn [negb]. mstep.
    rewrite Hp. cbn [negb assert]. now mstep.
Qed.

End SummaryFacts.

(** ** Properties kept through a method *)

Section Preserving.
Import Stats.
Context {T : Transport} {U : Unicode}.
Variable P : Self -> Prop.

Lemma preserves_ret {A} (a : A) : preserves P (ret a).
Proof. now intros st. Qed.
Lemma preserves_raise {A} e : preserves P (A := A) (raise e).
Proof. now intros st. Qed.
Lemma preserves_unfinished {A} : preserves P (A := A) unfinished.
Proof. now intros st. Qed.
Lemma preserves_lift {A} (r : res A) : preserves P (lift r).
Proof. now intros st. Qed.
Lemma preserves_attr {A} (g : Self -> A) : preserves P (attr g).
Proof. now intros st. Qed.
Lemma preserves_the {A} (o : option A) : preserves P (the o).
Proof. now destruct o. Qed.
Lemma preserves_assert c : preserves P (assert c).
Proof. now destruct c. Qed.
Lemma preserves_say line : preserves P (say line).
Proof. now intros st. Qed.
Lemma preserves_io {A} (m : M World A) : preserves P (io m).
Proof. intros st. unfold io. now destruct (m (snd st)). Qed.
Lemma preserves_assign g : (forall s, P s -> P (g s)) -> preserves P (assign g).
Proof. intros H st. apply H. Qed.
Lemma preserves_bind {A B} (m : M St A) (k : A -> M St B) :
  preserves P m -> (forall a, preserves P (k a)) -> preserves P (bind m k).
Proof.
  intros Hm Hk st H. unfold bind. specialize (Hm st H).
  destruct (m st) as [[a|e|] st1]; cbn in *; try assumption.
  now apply Hk.
Qed.
Lemma preserves_for_each {A} (xs : list A) (body : A -> M St unit) :
  (forall x, preserves P (body x)) -> preserves P (for_each xs body).
Proof.
  intros H. induction xs as [|x xs IH]; cbn [for_each].
  - apply preserves_ret.
  - apply preserves_bind; auto.
Qed.

End Preserving.

Create HintDb preserves.
#[global] Hint Resolve preserves_ret preserves_raise preserves_unfinished
  preserves_lift preserves_attr preserves_the preserves_assert preserves_say
  preserves_io : preserves.

Ltac preserves_step :=
  lazymatch goal with
  | |- preserves _ (bind _ _) => apply preserves_bind; [|intros ?]
  | |- preserves _ (for_each _ _) => apply preserves_for_each; intros ?
  | |- preserves _ (Stats.assign _) =>
      apply preserves_assign; intros []; cbn; intuition congruence
  | |- preserves _ (match ?x with _ => _ end) => destruct x
  | |- _ => solve [auto with preserves | intros ?; cbn; tauto]
  end.

Ltac preserves := repeat preserves_step.

(** ** After a failure, and after a success *)

Section FailureFacts.
Import Stats Tally.
Context {T : Transport} {U : Unicode}.

(** X16.  A read of [total_contributions] that ends with an exception has
    already stored the sum so far (0, or the years added before the
    failure): the next read returns that number and sends nothing. *)
Theorem failed_total_contributions_is_kept
    (s : Self) (w : World) (e : exn) (s' : Self) (w' : World) :
  total_contributions (s, w) = (Raise e, (s', w')) ->
  exists n,
    _total_contributions s' = Some n
    /\ total_contributions (s', w') = (Ok n, (s', w')).
Proof.
  unfold total_contributions at 1. mstep.
  destruct (_total_contributions s) as [n0|] eqn:E; mstep; [intros [=]|].
  match goal with
  | |- ?m ?st = _ -> _ =>
      assert (K : preserves (fun x => _total_contributions x <> None) m)
        by preserves;
      specialize (K st)
  end.
  intros H. rewrite H in K. cbn [fst snd] in K.
  destruct (_total_contributions s') as [n|] eqn:E'.
  - exists n. split; [reflexivity|]. unfold total_contributions. mstep.
    now rewrite E'.
  - exfalso. apply K; [|reflexivity]. destruct s; discriminate.
Qed.

Lemma try_finally_inv {W A} (m : M W A) (f : W -> W) st r st' :
  try_finally m f st = (r, st') -> r <> Unfinished ->
  exists st1, m st = (r, st1) /\ st' = f st1.
Proof.
  unfold try_finally. destruct (m st) as [[a|e|] st1]; intros [= <- <-] N;
    [eauto | eauto | now elim N].
Qed.

Lemma add_language_totals excl lang :
  preserves totals_set (add_language excl lang).
Proof. unfold add_language, totals_set. preserves. Qed.

Lemma add_repo_totals excl repo : preserves totals_set (add_repo excl repo).
Proof.
  unfold add_repo. unfold totals_set at 1. preserves.
  - unfold lang_names_entry. preserves.
  - apply add_language_totals.
Qed.

Lemma read_page_totals excl raw no nc :
  preserves totals_set (read_page excl raw no nc).
Proof.
  unfold read_page. unfold totals_set at 1. preserves.
  all: try apply add_repo_totals.
Qed.

Lemma fetch_pages_totals (fuel : nat) :
  forall excl no nc, preserves totals_set (fetch_pages fuel excl no nc).
Proof.
  induction fuel as [|fuel IH]; intros excl no nc; cbn [fetch_pages].
  - apply preserves_unfinished.
  - preserves. apply read_page_totals.
Qed.

Lemma set_props_totals all todo :
  forall done, preserves totals_set (set_props all done todo).
Proof.
  induction todo as [|[k v] rest IH]; intros done; cbn [set_props].
  - apply preserves_ret.
  - unfold totals_set at 1. preserves.
Qed.

Lemma set_props_unfetched all todo :
  forall done, leaves _stats_fetched (set_props all done todo).
Proof.
  induction todo as [|[k v] rest IH]; intros done; cbn [set_props]; leaves.
Qed.

Lemma add_language_unfetched excl lang :
  leaves _stats_fetched (add_language excl lang).
Proof. unfold add_language. leaves. Qed.

Lemma add_repo_unfetched excl repo : leaves _stats_fetched (add_repo excl repo).
Proof.
  unfold add_repo. leaves.
  - unfold lang_names_entry. leaves.
  - apply add_language_unfetched.
Qed.

Lemma read_page_unfetched excl raw no nc :
  leaves _stats_fetched (read_page excl raw no nc).
Proof.
  unfold read_page. leaves.
  all: try apply add_repo_unfetched.
Qed.

Lemma fetch_pages_unfetched (fuel : nat) :
  forall excl no nc, leaves _stats_fetched (fetch_pages fuel excl no nc).
Proof.
  induction fuel as [|fuel IH]; intros excl no nc; cbn [fetch_pages]; leaves.
  apply read_page_unfetched.
Qed.

Lemma finish_raise_unfetched st e st' :
  finish st = (Raise e, st') ->
  _stats_fetched (fst st') = _stats_fetched (fst st)
  /\ (totals_set (fst st) -> totals_set (fst st')).
Proof.
  destruct st as [s w]. unfold finish. mstep.
  destruct (_languages s) as [d|] eqn:L.
  2: { mstep. intros [= <- <-]. auto. }
  mstep.
  destruct (py_sum 0 (map (fun kv => size (snd kv)) d)) as [all| |] eqn:S.
  2: { mstep. intros [= <- <-]. auto. }
  2: { mstep. intros [=]. }
  mstep.
  pose proof (set_props_unfetched all d [] (s, w)) as Uf.
  pose proof (set_props_totals all d [] (s, w)) as K.
  destruct (set_props all [] d (s, w)) as [[[]|e1|] st1] eqn:P.
  - erewrite bind_Ok by exact P. destruct st1. mstep. intros [=].
  - erewrite bind_Raise by exact P. intros [= <- <-]. auto.
  - erewrite bind_Unfinished by exact P. intros [=].
Qed.

Lemma locked_block_raise fuel s w e st' :
  locked_block fuel (s, w) = (Raise e, st') ->
  _stats_fetched (fst st') = false /\ totals_set (fst st').
Proof.
  unfold locked_block. mstep.
  destruct (_stats_fetched s) eqn:F; [mstep; intros [=]|].
  unfold start. mstep.
  match goal with
  | |- bind (fetch_pages fuel ?excl JNull JNull) _ ?st = _ -> _ =>
      pose proof (fetch_pages_unfetched fuel excl JNull JNull st) as Uf;
      pose proof (fetch_pages_totals fuel excl JNull JNull st) as K;
      destruct (fetch_pages fuel excl JNull JNull st) as [[[]|e1|] st1] eqn:R
  end; cbn [fst snd] in Uf, K.
  - erewrite bind_Ok by exact R. intros H.
    apply finish_raise_unfetched in H as [H1 H2].
    split.
    + rewrite H1, Uf. now destruct s.
    + apply H2, K. destruct s. cbn. repeat split; discriminate.
  - erewrite bind_Raise by exact R. intros [= <- <-]. split.
    + rewrite Uf. now destruct s.
    + apply K. destruct s. cbn. repeat split; discriminate.
  - erewrite bind_Unfinished by exact R. intros [=].
Qed.

Lemma get_stats_inv fuel s w r st' :
  get_stats fuel (s, w) = (r, st') -> r <> Unfinished ->
  exists st1,
    locked_block fuel
      (set_stats_lock (Some true)
         (match _stats_lock s with
          | None => set_stats_lock (Some false) s
          | Some _ => s
          end), w) = (r, st1)
    /\ st' = (set_stats_lock (Some false) (fst st1), snd st1).
Proof.
  unfold get_stats. mstep.
  destruct (_stats_lock s) as [[|]|] eqn:L; mstep; rewrite ?L; mstep.
  - intros [= <- <-] N. now elim N.
  - intros H N. apply try_finally_inv in H as (st1 & H & ->); eauto.
  - intros H N. apply try_finally_inv in H as (st1 & H & ->); eauto.
Qed.

(** X12.  A run of [get_stats] that ends with an exception releases the
    lock and leaves [_stats_fetched] down, but the totals it had reset and
    begun to fill stay: [stargazers], [repos] and [languages] then return
    what was gathered up to the failure, and send nothing. *)
Theorem failed_fetch_leaves_partial_totals
    (fuel : nat) (s : Self) (w : World) (e : exn) (s' : Self) (w' : World) :
  get_stats fuel (s, w) = (Raise e, (s', w')) ->
  _stats_lock s' = Some false
  /\ _stats_fetched s' = false
  /\ exists n r d,
       _stargazers s' = Some n /\ _repos s' = Some r /\ _languages s' = Some d
       /\ forall fuel',
            stargazers fuel' (s', w') = (Ok n, (s', w'))
            /\ repos fuel' (s', w') = (Ok r, (s', w'))
            /\ languages fuel' (s', w') = (Ok d, (s', w')).
Proof.
  intros H. apply get_stats_inv in H as ([s1 w1] & H & E); [|discriminate].
  injection E as -> ->.
  apply locked_block_raise in H as [F (Sg & _ & Sl & Sr)]. cbn [fst] in *.
  split; [now destruct s1|]. split; [now destruct s1|].
  destruct (_stargazers s1) as [n|] eqn:En; [|now elim Sg].
  destruct (_repos s1) as [r|] eqn:Er; [|now elim Sr].
  destruct (_languages s1) as [d|] eqn:El; [|now elim Sl].
  exists n, r, d.
  assert (_stargazers (set_stats_lock (Some false) s1) = Some n) as En'
    by (now destruct s1).
  assert (_repos (set_stats_lock (Some false) s1) = Some r) as Er'
    by (now destruct s1).
  assert (_languages (set_stats_lock (Some false) s1) = Some d) as El'
    by (now destruct s1).
  repeat split; try assumption;
    unfold stargazers, repos, languages; rewrite bind_attr; cbn [fst];
    rewrite ?En', ?Er', ?El'; reflexivity.
Qed.

(** X11.  A run of [get_stats] that returns has released the lock and set
    [_stats_fetched]; a later call returns at once: it changes nothing and
    sends nothing. *)
Theorem get_stats_runs_once
    (fuel : nat) (s : Self) (w : World) (s' : Self) (w' : World) :
  get_stats fuel (s, w) = (Ok tt, (s', w')) ->
  _stats_lock s' = Some false
  /\ _stats_fetched s' = true
  /\ forall fuel', get_stats fuel' (s', w') = (Ok tt, (s', w')).
Proof.
  intros H. apply get_stats_inv in H as ([s1 w1] & H & E); [|discriminate].
  injection E as -> ->. cbn [fst snd].
  assert (_stats_fetched s1 = true) as F.
  { revert H. unfold locked_block. mstep.
    match goal with
    | |- context [_stats_fetched ?x] => destruct (_stats_fetched x) eqn:F
    end.
    - mstep. now intros [= <-].
    - unfold start. mstep. intros H.
      apply bind_inv in H as ([] & [s2 w2] & H2 & H).
      apply finish_inv in H as (d & d' & _ & [= -> ->] & _).
      now destruct s2. }
  split; [now destruct s1|]. split; [now destruct s1|].
  intros fuel'. unfold get_stats. mstep.
  unfold try_finally, locked_block. mstep. rewrite F. now mstep.
Qed.

End FailureFacts.

(** ** Total commits at the edges *)

Section CommitEdges.
Import Stats Tally.
Context {T : Transport} {U : Unicode}.

(** X10.  An answer whose [data] holds the key [user] with the value
    [null] passes the test for [data] and [user], so [total_commits] goes on
    to index the [null]: it ends with [TypeError], with or without emails,
    and the line for a failed lookup is not printed. *)
Theorem total_commits_null_user
    (s : Self) (w : World) (fields dfields : list (string * json))
    (w' : World) :
  Queries.query (first_commits_query s) w = (Ok (JObj fields), w') ->
  lookup "data" fields = Some (JObj dfields) ->
  lookup "user" dfields = Some JNull ->
  total_commits (s, w) = (Raise TypeError, (s, w')).
Proof.
  intros Q D Uf.
  assert (has_user (JObj fields) = Ok true) as Hu.
  { unfold has_user, contains_str, getitem. rewrite D. now rewrite Uf. }
  assert (commit_count (JObj fields) = Raise TypeError) as Hc.
  { unfold commit_count, getitem. rewrite D. now rewrite Uf. }
  unfold total_commits, first_commits_query in *. mstep.
  destruct (_emails s) as [[|email es]|]; mstep.
  - erewrite bind_io_Ok by exact Q. rewrite Hu. mstep. now rewrite Hc.
  - cbn [commits_loop]. mstep. erewrite bind_io_Ok by exact Q.
    rewrite Hu. mstep. rewrite Hc. now mstep.
  - erewrite bind_io_Ok by exact Q. rewrite Hu. mstep. now rewrite Hc.
Qed.

Lemma commits_loop_object (x : option Z) (es : list string) :
  forall total s w,
    fst (snd (commits_loop es total (s, w))) = s
    /\ commits_loop es total (set_total_commits x s, w)
       = (fst (commits_loop es total (s, w)),
          (set_total_commits x s, snd (snd (commits_loop es total (s, w))))).
Proof.
  induction es as [|email es IH]; intros total s w; cbn [commits_loop].
  - now split.
  - mstep. unfold bind, io, lift, say. cbn [fst snd].
    destruct (Queries.query (commits_query_email (username s)) w)
      as [[response|e|] w1]; [|now split|now split].
    destruct (has_user response) as [[|]| |]; try now split.
    + destruct (commit_count response) as [c| |]; try now split.
      destruct (int_iadd total c) as [t| |]; try now split.
      apply IH.
    + apply IH.
Qed.

(** X13.  [total_commits] leaves the object as it found it and reads no
    attribute but the user name and the emails: whatever [_total_commits]
    holds, the same requests are sent and the same value comes back. *)
Theorem total_commits_ignores_its_slot (s : Self) (w : World) (x : option Z) :
  fst (snd (total_commits (s, w))) = s
  /\ total_commits (set_total_commits x s, w)
     = (fst (total_commits (s, w)),
        (set_total_commits x s, snd (snd (total_commits (s, w))))).
Proof.
  unfold total_commits. mstep.
  destruct (_emails s) as [[|email es]|]; mstep.
  - unfold bind, io, lift, say. cbn [fst snd].
    destruct (Queries.query (commits_query_username (username s)) w)
      as [[response|e|] w1]; try now split.
    destruct (has_user response) as [[|]| |]; now split.
  - destruct (commits_loop_object x (email :: es) 0 s w) as [A B].
    unfold bind. rewrite B.
    destruct (commits_loop (email :: es) 0 (s, w)) as [[n|e|] [s1 w1]];
      cbn [fst snd] in *; subst; now split.
  - unfold bind, io, lift, say. cbn [fst snd].
    destruct (Queries.query (commits_query_username (username s)) w)
      as [[response|e|] w1]; try now split.
    destruct (has_user response) as [[|]| |]; now split.
Qed.

End CommitEdges.

(** ** Forks made *)

Section ForkFacts.
Import Stats Tally.
Local Open Scope list_scope.
Context {U : Unicode}.

Lemma forks_query_string c : exists d, forks_query (JStr c) = Ok d.
Proof. unfold forks_query. cbn. eauto. Qed.

Lemma forks_page_inv page total h c :
  forks_page page = Some (total, h, c) ->
  exists viewer repositories page_info hv,
    viewer_of page = Ok viewer /\ truthy viewer = true
    /\ get viewer "repositories" empty_dict = Ok repositories
    /\ get repositories "totalCount" (JNum 0) = Ok total
    /\ get repositories "pageInfo" empty_dict = Ok page_info
    /\ get page_info "hasNextPage" JNull = Ok hv /\ truthy hv = h
    /\ get page_info "endCursor" JNull = Ok c.
Proof.
  unfold forks_page.
  destruct (viewer_of page) as [viewer| |] eqn:V; try discriminate.
  destruct (truthy viewer) eqn:Tv; try discriminate.
  destruct (get viewer "repositories" empty_dict) as [r| |] eqn:R;
    try discriminate.
  destruct (get r "totalCount" (JNum 0)) as [t| |] eqn:Tc; try discriminate.
  destruct (get r "pageInfo" empty_dict) as [pi| |] eqn:Pi; try discriminate.
  destruct (get pi "hasNextPage" JNull) as [hv| |] eqn:H; try discriminate.
  destruct (get pi "endCursor" JNull) as [cv| |] eqn:C; try discriminate.
  intros [= <- <- <-]. exists viewer, r, pi, hv.
  repeat split; try assumption; reflexivity.
Qed.

Lemma page_of_not_None page : is_None (Spec.page_of page) = false.
Proof. unfold Spec.page_of. now destruct page. Qed.

Lemma is_None_cursor cursor :
  (cursor = JNull \/ exists c, cursor = JStr c) ->
  exists d, forks_query cursor = Ok d.
Proof. intros [->|[c ->]]; unfold forks_query; cbn; eauto. Qed.

(** A turn of the loop on a page that has a viewer. *)
Lemma forks_pages_turn (fuel : nat) (total cursor : json) (s : Self)
    (w : World (T:=scripted)) (page : json) (rest : list post_outcome)
    (t : json) (h : bool) (c : json) :
  (cursor = JNull \/ exists c, cursor = JStr c) ->
  async_posts (net w) = PostDecoded page :: rest ->
  forks_page (Spec.page_of page) = Some (t, h, c) ->
  exists w' : World (T:=scripted),
    async_posts (net w') = rest
    /\ sync_posts (net w') = sync_posts (net w)
    /\ forks_pages (T:=scripted) (S fuel) total cursor (s, w)
       = if h then
           forks_pages (T:=scripted) fuel (if is_None cursor then t else total) c
             (s, w')
         else (Ok (Some (if is_None cursor then t else total)), (s, w')).
Proof.
  intros Hc Hw Hp.
  destruct (is_None_cursor cursor Hc) as (d & D).
  apply forks_page_inv in Hp
    as (viewer & r & pi & hv & V & Tv & R & Tc & Pi & H & Th & C).
  eexists. split; [|split]; cycle 2.
  - cbn [forks_pages]. rewrite D, bind_lift_Ok.
    erewrite bind_io_Ok by (apply scripted_query; exact Hw).
    rewrite page_of_not_None. rewrite V. mstep. rewrite Tv. cbn [negb].
    rewrite R. mstep.
    destruct (is_None cursor); rewrite ?Tc, Pi; mstep; rewrite H; mstep;
      rewrite Th; destruct h; rewrite ?C; mstep; reflexivity.
  - reflexivity.
  - reflexivity.
Qed.

(** The walk over the pages, from any turn of the loop on. *)
Lemma forks_pages_walk (before : list json) :
  forall (fuel : nat) (total cursor : json) (s : Self) (w : World (T:=scripted))
         (last : json) (more : list post_outcome),
    (cursor = JNull \/ exists c, cursor = JStr c) ->
    async_posts (net w) = map PostDecoded (before ++ [last]) ++ more ->
    Forall leads_on before ->
    (List.length before < fuel)%nat ->
    (forall tl cl,
       forks_page (Spec.page_of last) = Some (tl, false, cl) ->
       exists w' : World (T:=scripted),
         forks_pages (T:=scripted) fuel total cursor (s, w)
         = (Ok (Some
                  (if is_None cursor then
                     match before with
                     | [] => tl
                     | first :: _ =>
                         match forks_page (Spec.page_of first) with
                         | Some (t, _, _) => t
                         | None => JNull
                         end
                     end
                   else total)), (s, w'))
         /\ async_posts (net w') = more)
    /\ (no_viewer last ->
        exists w' : World (T:=scripted),
          forks_pages (T:=scripted) fuel total cursor (s, w)
          = (Ok None, (set_forks_made (JNum 0) s, w'))
          /\ async_posts (net w') = more).
Proof.
  induction before as [|page before IH];
    intros fuel total cursor s w last more Hc Hw Hall Hf;
    (destruct fuel as [|fuel]; [cbn in Hf; lia|]).
  - cbn [app map] in Hw. split.
    + intros tl cl Hl.
      destruct (forks_pages_turn fuel total cursor s w last more tl false cl
                  Hc Hw Hl) as (w' & A & _ & E).
      exists w'. split; [|exact A]. rewrite E. reflexivity.
    + intros (viewer & V & Tv).
      destruct (is_None_cursor cursor Hc) as (d & D).
      eexists. split.
      * cbn [forks_pages]. rewrite D, bind_lift_Ok.
        erewrite bind_io_Ok by (apply scripted_query; exact Hw).
        rewrite page_of_not_None. rewrite V. mstep. rewrite Tv. cbn [negb].
        mstep. reflexivity.
      * reflexivity.
  - cbn [app map] in Hw. inversion Hall as [|? ? (t & c & Hp) Hall']; subst.
    destruct (forks_pages_turn fuel total cursor s w page
                (map PostDecoded (before ++ [last]) ++ more) t true (JStr c)
                Hc Hw Hp) as (w1 & A & _ & E).
    rewrite E. rewrite Hp.
    assert (Hf' : (List.length before < fuel)%nat) by (cbn in Hf; lia).
    destruct (IH fuel (if is_None cursor then t else total) (JStr c) s w1
                last more (or_intror (ex_intro _ c eq_refl)) A Hall' Hf')
      as [I1 I2].
    split.
    + intros tl cl Hl. destruct (I1 tl cl Hl) as (w' & E' & A').
      exists w'. split; [|exact A']. rewrite E'. cbn [is_None]. reflexivity.
    + exact I2.
Qed.

(** X7.  [forks_made], read on an object that has no value for it, walks
    the pages of the user's forks, one request for each, as long as a page
    reports a next one.  What it returns is the [totalCount] of the first
    page: of the later pages only [pageInfo] is read.  If the last page read
    comes without a viewer, the count of the first page is dropped and 0 is
    returned. *)
Theorem forks_made_counts_first_page
    (fuel : nat) (s : Self) (w : World (T:=scripted))
    (first : json) (others : list json) (more : list post_outcome)
    (total : json) (h : bool) (c : json) :
  is_None (_forks_made s) = true ->
  async_posts (net w) = map PostDecoded (first :: others) ++ more ->
  Forall leads_on (removelast (first :: others)) ->
  (List.length others < fuel)%nat ->
  forks_page (Spec.page_of first) = Some (total, h, c) ->
  is_None total = false ->
  ((exists tl cl,
      forks_page (Spec.page_of (last (first :: others) first))
      = Some (tl, false, cl)) ->
   exists w' : World (T:=scripted),
     forks_made (T:=scripted) fuel (s, w)
     = (Ok total, (set_forks_made total s, w'))
     /\ async_posts (net w') = more)
  /\ (no_viewer (last (first :: others) first) ->
      exists w' : World (T:=scripted),
        forks_made (T:=scripted) fuel (s, w)
        = (Ok (JNum 0), (set_forks_made (JNum 0) s, w'))
        /\ async_posts (net w') = more).
Proof.
  intros Hn Hw Hall Hf Hp Ht.
  assert (Hsplit : first :: others
                   = removelast (first :: others)
                     ++ [last (first :: others) first])
    by (apply app_removelast_last; discriminate).
  rewrite Hsplit in Hw.
  assert (Hlen : (List.length (removelast (first :: others)) < fuel)%nat).
  { assert (L := f_equal (@List.length json) Hsplit).
    rewrite length_app in L. cbn in L. cbn. lia. }
  destruct (forks_pages_walk _ fuel (JNum 0) JNull s w _ more
              (or_introl eq_refl) Hw Hall Hlen) as [W1 W2].
  split.
  - intros (tl & cl & Hl). destruct (W1 tl cl Hl) as (w' & E & A).
    exists w'. split; [|exact A].
    unfold forks_made, get_user_forks. mstep. rewrite Hn. cbn [negb].
    mstep. rewrite Hn. cbn [negb]. rewrite ?bind_bind.
    erewrite bind_Ok by exact E.
    cbn [is_None].
    assert (match removelast (first :: others) with
            | [] => tl
            | first0 :: _ =>
                match forks_page (Spec.page_of first0) with
                | Some (t, _, _) => t
                | None => JNull
                end
            end = total) as ->.
    { destruct others as [|o others].
      - cbn in *. rewrite Hp in Hl. now injection Hl as <-.
      - cbn [removelast]. now rewrite Hp. }
    mstep. rewrite Ht. cbn [negb assert]. now mstep.
  - intros Hv. destruct (W2 Hv) as (w' & E & A).
    exists w'. split; [|exact A].
    unfold forks_made, get_user_forks. mstep. rewrite Hn. cbn [negb].
    mstep. rewrite Hn. cbn [negb]. rewrite ?bind_bind.
    erewrite bind_Ok by exact E.
    mstep. cbn [is_None negb assert]. mstep.
    now destruct s.
Qed.

End ForkFacts.

(** ** Lines changed and views, summed *)

Section LineFacts.
Import Stats Spec Tally.
Context {T : Transport} {U : Unicode}.
Local Open Scope list_scope.

Lemma add_week_adds week a d na nd :
  int_field "a" week = Some na -> int_field "d" week = Some nd ->
  add_week week (a, d) = (Ok tt, (a + na, d + nd)).
Proof.
  unfold add_week, int_field.
  destruct week as [| | | | |fields]; cbn [is_dict];
    try (intros [= <-] [= <-]; unfold ret; now rewrite !Z.add_0_r).
  intros Ha Hd. cbn [get]. unfold int_iadd.
  rewrite bind_lift_Ok, bind_gets. cbn [fst].
  destruct (lookup "a" fields) as [va|];
    [rewrite Ha|injection Ha as <-; cbn [int_of]];
    rewrite bind_lift_Ok, bind_modify, bind_lift_Ok, bind_gets; cbn [snd];
    (destruct (lookup "d" fields) as [vd|];
     [rewrite Hd|injection Hd as <-; cbn [int_of]]);
    rewrite bind_lift_Ok; reflexivity.
Qed.

Lemma add_weeks_add (weeks : list json) :
  forall a d,
    Forall (fun week => int_field "a" week <> None
                        /\ int_field "d" week <> None) weeks ->
    for_each weeks add_week (a, d)
    = (Ok tt, (a + total (map (int_field_or_0 "a") weeks),
               d + total (map (int_field_or_0 "d") weeks))).
Proof.
  induction weeks as [|week weeks IH]; intros a d H.
  - cbn. unfold ret. now rewrite !Z.add_0_r.
  - inversion H as [|? ? [Ha Hd] H']; subst.
    destruct (int_field "a" week) as [na|] eqn:Ea; [|now elim Ha].
    destruct (int_field "d" week) as [nd|] eqn:Ed; [|now elim Hd].
    cbn [for_each]. erewrite bind_Ok by (apply add_week_adds; eassumption).
    rewrite IH by exact H'. cbn [map total fold_right].
    unfold int_field_or_0 at 3 5. rewrite Ea, Ed.
    unfold total. f_equal. f_equal; lia.
Qed.

Lemma add_author_adds username author_obj a d :
  match author_login author_obj with
  | Some (JStr _) =>
      written_by username author_obj = true ->
      Forall (fun week => int_field "a" week <> None
                          /\ int_field "d" week <> None)
             (weeks_of author_obj)
  | Some _ => False
  | None => True
  end ->
  add_author username author_obj (a, d)
  = (Ok tt,
     if written_by username author_obj then
       (a + total (map (int_field_or_0 "a") (weeks_of author_obj)),
        d + total (map (int_field_or_0 "d") (weeks_of author_obj)))
     else (a, d)).
Proof.
  unfold add_author, written_by, author_login, weeks_of.
  destruct author_obj as [| | | | |fields]; cbn [is_dict negb];
    try reflexivity.
  cbn [get]. rewrite bind_lift_Ok.
  destruct (match lookup "author" fields with
            | Some a0 => a0
            | None => empty_dict
            end) as [| | | | |author]; cbn [is_dict negb]; try reflexivity.
  rewrite !bind_lift_Ok. cbn [get]. rewrite bind_lift_Ok.
  destruct (match lookup "login" author with
            | Some login => login
            | None => JStr ""
            end) as [| | |login| |]; try (intros F; now elim F).
  cbn [str_lower]. rewrite bind_lift_Ok.
  destruct (String.eqb (lower login) (lower username)); cbn [negb];
    [|reflexivity].
  intros H. specialize (H eq_refl). rewrite bind_lift_Ok.
  destruct (lookup "weeks" fields) as [[| | | |weeks|]|];
    try (unfold ret; cbn; now rewrite !Z.add_0_r).
  now apply add_weeks_add.
Qed.

Lemma add_authors_add username (authors : list json) :
  forall a d,
    tidy_lines username (JArr authors) ->
    for_each authors (add_author username) (a, d)
    = (Ok tt, (a + lines "a" username (JArr authors),
               d + lines "d" username (JArr authors))).
Proof.
  unfold tidy_lines, lines.
  induction authors as [|author_obj authors IH]; intros a d H.
  - cbn. unfold ret. now rewrite !Z.add_0_r.
  - inversion H as [|? ? H1 H']; subst.
    cbn [for_each]. erewrite bind_Ok by (apply add_author_adds; exact H1).
    cbn [filter].
    destruct (written_by username author_obj).
    + rewrite IH by exact H'. cbn [flat_map].
      rewrite !map_app, !total_app. f_equal. f_equal; lia.
    + now rewrite IH by exact H'.
Qed.

Lemma lines_of_repo_sums repo a d s w answer w1 :
  Queries.query_rest ("/repos/" ++ str_of repo ++ "/stats/contributors")%string
    None w = (Ok answer, w1) ->
  tidy_lines (username s) answer ->
  exists w',
    lines_of_repo repo (a, d) (s, w)
    = (Ok (a + lines "a" (username s) answer,
           d + lines "d" (username s) answer), (s, w')).
Proof.
  intros Q H. unfold lines_of_repo. mstep.
  erewrite bind_io_Ok by exact Q. fields.
  destruct answer as [| | | |[|x l]|];
    try (mstep; unfold ret, lines; cbn; rewrite !Z.add_0_r; solve [eauto]).
  rewrite (add_authors_add (username s) (x :: l) a d H). unfold ret. eauto.
Qed.

Lemma lines_loop_sums (answer : json -> json) (s : Self) (repos : list json) :
  (forall repo w0,
     In repo repos ->
     exists w1,
       Queries.query_rest
         ("/repos/" ++ str_of repo ++ "/stats/contributors")%string None w0
       = (Ok (answer repo), w1)) ->
  (forall repo, In repo repos -> tidy_lines (username s) (answer repo)) ->
  forall a d w,
  exists w',
    lines_loop repos (a, d) (s, w)
    = (Ok (a + total (map (fun repo => lines "a" (username s) (answer repo))
                        repos),
           d + total (map (fun repo => lines "d" (username s) (answer repo))
                        repos)), (s, w')).
Proof.
  induction repos as [|repo repos IH]; intros Hq Ht a d w.
  - cbn. unfold ret. rewrite !Z.add_0_r. eauto.
  - destruct (Hq repo w (or_introl eq_refl)) as (w1 & Q).
    destruct (lines_of_repo_sums repo a d s w _ w1 Q
                (Ht repo (or_introl eq_refl))) as (w2 & E).
    cbn [lines_loop]. erewrite bind_Ok by exact E.
    destruct (IH (fun r w0 H => Hq r w0 (or_intror H))
                (fun r H => Ht r (or_intror H))
                (a + lines "a" (username s) (answer repo))
                (d + lines "d" (username s) (answer repo)) w2) as (w' & E').
    exists w'. rewrite E'. cbn [map total fold_right]. unfold total.
    f_equal. f_equal. f_equal; lia.
Qed.

(** X8.  With the repositories known and every answer to the contributors
    request well formed, [lines_changed] is, for additions and for
    deletions, the sum over the repositories of the weeks of the entries
    whose login is the user name up to case; entries of other logins,
    entries and weeks that are not dicts and answers that are not lists
    count for nothing.  The pair is stored in [_lines_changed]. *)
Theorem lines_changed_sums
    (fuel : nat) (answer : json -> json) (s : Self) (w : World)
    (repos : list json) :
  _lines_changed s = None ->
  _repos s = Some repos ->
  (forall repo w0,
     In repo repos ->
     exists w1,
       Queries.query_rest
         ("/repos/" ++ str_of repo ++ "/stats/contributors")%string None w0
       = (Ok (answer repo), w1)) ->
  (forall repo, In repo repos -> tidy_lines (username s) (answer repo)) ->
  let added :=
    total (map (fun repo => lines "a" (username s) (answer repo)) repos) in
  let deleted :=
    total (map (fun repo => lines "d" (username s) (answer repo)) repos) in
  exists w',
    lines_changed fuel (s, w)
    = (Ok (added, deleted),
       (set_lines_changed (Some (added, deleted)) s, w')).
Proof.
  intros Hl Hr Hq Ht added deleted.
  destruct (lines_loop_sums answer s repos Hq Ht 0 0 w) as (w' & E).
  exists w'. unfold lines_changed. mstep. rewrite Hl.
  unfold Stats.repos. mstep. rewrite Hr. mstep.
  erewrite bind_Ok by exact E. now mstep.
Qed.

Lemma add_view_adds day total0 n :
  int_field "count" day = Some n ->
  add_view day total0 = (Ok tt, total0 + n).
Proof.
  unfold add_view, int_field.
  destruct day as [| | | | |fields]; cbn [is_dict];
    try (intros [= <-]; unfold ret; now rewrite Z.add_0_r).
  intros H. cbn [get]. unfold int_iadd.
  rewrite bind_lift_Ok, bind_gets.
  destruct (lookup "count" fields) as [v|];
    [rewrite H|injection H as <-; cbn [int_of]];
    rewrite bind_lift_Ok; reflexivity.
Qed.

Lemma add_views_add (days : list json) :
  forall total0,
    Forall (fun day => int_field "count" day <> None) days ->
    for_each days add_view total0
    = (Ok tt, total0 + total (map (int_field_or_0 "count") days)).
Proof.
  induction days as [|day days IH]; intros total0 H.
  - cbn. unfold ret. now rewrite Z.add_0_r.
  - inversion H as [|? ? Hc H']; subst.
    destruct (int_field "count" day) as [n|] eqn:E; [|now elim Hc].
    cbn [for_each]. erewrite bind_Ok by (apply add_view_adds; exact E).
    rewrite IH by exact H'. cbn [map total fold_right].
    unfold int_field_or_0 at 2. rewrite E. unfold total. f_equal. lia.
Qed.

Lemma views_of_repo_sums repo total0 s w answer w1 :
  Queries.query_rest ("/repos/" ++ str_of repo ++ "/traffic/views")%string
    None w = (Ok answer, w1) ->
  tidy_views answer ->
  exists w',
    views_of_repo repo total0 (s, w)
    = (Ok (total0 + views_in answer), (s, w')).
Proof.
  intros Q H. unfold views_of_repo.
  erewrite bind_io_Ok by exact Q. fields.
  destruct answer as [| | | | |[|x l]];
    try (mstep; unfold ret, views_in; cbn; rewrite ?Z.add_0_r; solve [eauto]).
  unfold views_in, tidy_views in *. cbn [get]. rewrite bind_lift_Ok.
  destruct (lookup "views" (x :: l)) as [[| | | |days|]|];
    try (unfold ret; rewrite Z.add_0_r; solve [eauto]).
  rewrite (add_views_add days total0 H). unfold ret. eauto.
Qed.

Lemma views_loop_sums (answer : json -> json) (s : Self) (repos : list json) :
  (forall repo w0,
     In repo repos ->
     exists w1,
       Queries.query_rest
         ("/repos/" ++ str_of repo ++ "/traffic/views")%string None w0
       = (Ok (answer repo), w1)) ->
  (forall repo, In repo repos -> tidy_views (answer repo)) ->
  forall total0 w,
  exists w',
    views_loop repos total0 (s, w)
    = (Ok (total0 + total (map (fun repo => views_in (answer repo)) repos)),
       (s, w')).
Proof.
  induction repos as [|repo repos IH]; intros Hq Ht total0 w.
  - cbn. unfold ret. rewrite Z.add_0_r. eauto.
  - destruct (Hq repo w (or_introl eq_refl)) as (w1 & Q).
    destruct (views_of_repo_sums repo total0 s w _ w1 Q
                (Ht repo (or_introl eq_refl))) as (w2 & E).
    cbn [views_loop]. erewrite bind_Ok by exact E.
    destruct (IH (fun r w0 H => Hq r w0 (or_intror H))
                (fun r H => Ht r (or_intror H))
                (total0 + views_in (answer repo)) w2) as (w' & E').
    exists w'. rewrite E'. cbn [map total fold_right]. unfold total.
    f_equal. f_equal. lia.
Qed.

(** X9.  With the repositories known and every answer to the traffic
    request well formed, [views] is the sum over the repositories of the
    [count] of the entries of [views]; answers that are not dicts, or whose
    [views] is no list, count for nothing.  The sum is stored in
    [_views]. *)
Theorem views_sums
    (fuel : nat) (answer : json -> json) (s : Self) (w : World)
    (repos : list json) :
  _views s = None ->
  _repos s = Some repos ->
  (forall repo w0,
     In repo repos ->
     exists w1,
       Queries.query_rest
         ("/repos/" ++ str_of repo ++ "/traffic/views")%string None w0
       = (Ok (answer repo), w1)) ->
  (forall repo, In repo repos -> tidy_views (answer repo)) ->
  let seen := total (map (fun repo => views_in (answer repo)) repos) in
  exists w',
    views fuel (s, w) = (Ok seen, (set_views (Some seen) s, w')).
Proof.
  intros Hv Hr Hq Ht seen.
  destruct (views_loop_sums answer s repos Hq Ht 0 w) as (w' & E).
  exists w'. unfold views. mstep. rewrite Hv.
  unfold Stats.repos. mstep. rewrite Hr. mstep.
  erewrite bind_Ok by exact E. now mstep.
Qed.

End LineFacts.

(** ** Statuses and the end of the retries *)

Section StatusFacts.
Import Wire.
Context {T : Transport} {U : Unicode}.
Local Open Scope list_scope.

(** X17.  The status of an answer is looked at for 202, 403 and 404 only
    on the session: any other answer whose body decodes to something other
    than [null] is returned as the result, whatever its status.  On the
    fallback client the same answer is returned for status 200 only; for
    another status the turn ends without a result and the loop goes on. *)
Theorem status_is_checked_on_fallback_only
    (k : nat) (attempt : Z) (path : string) (params : list (string * json))
    (w : World) (status : Z) (body : json) :
  status <> 202 -> status <> 403 -> status <> 404 ->
  is_None body = false ->
  let sent_path := Queries.strip_slash path in
  let cloak := is_substring "/search/commits" path in
  (forall n,
     session_get sent_path cloak params (net w)
     = (GetResponse status (Some body), n) ->
     Queries.query_rest_loop (S k) attempt path params w
     = (Ok body, mkWorld n (trace w ++ [Get sent_path cloak])))
  /\ (forall n n',
        session_get sent_path cloak params (net w) = (GetFailed, n) ->
        requests_get sent_path cloak params n
        = (GetResponse status (Some body), n') ->
        let w' :=
          mkWorld n'
            (trace w ++ [Get sent_path cloak;
                         Print (AiohttpFailedRest sent_path);
                         GetSync sent_path cloak]) in
        Queries.query_rest_loop (S k) attempt path params w
        = if Z.eqb status 200 then (Ok body, w')
          else Queries.query_rest_loop k (attempt + 1) sent_path params w').
Proof.
  intros N1 N2 N3 Hb sent_path cloak.
  apply Z.eqb_neq in N1, N2, N3.
  split.
  - intros n H. rewrite query_rest_loop_S.
    unfold Queries.rest_attempt, exchange. fold sent_path cloak. rewrite H.
    cbn beta iota zeta. now rewrite N1, N2, N3, Hb.
  - intros n n' H1 H2 w'. rewrite query_rest_loop_S.
    unfold Queries.rest_attempt, exchange. fold sent_path cloak. rewrite H1.
    cbn beta iota zeta.
    unfold Queries.rest_fallback, exchange, emit. cbn [net trace]. rewrite H2.
    cbn beta iota zeta. rewrite N1, N2, N3.
    unfold w'. rewrite <- !app_assoc. cbn [app].
    destruct (Z.eqb status 200); [now rewrite Hb|reflexivity].
Qed.

Lemma trace_emit e (w : World) : trace (emit e w) = trace w ++ [e].
Proof. reflexivity. Qed.

(** The loop on a session that answers 202 to everything. *)
Lemma query_rest_loop_busy (k : nat) :
  (forall path cloak params n,
     exists body n',
       session_get path cloak params n = (GetResponse 202 body, n')) ->
  forall attempt path params w,
  exists w' added,
    Queries.query_rest_loop k attempt path params w = (Ok empty_dict, w')
    /\ trace w' = trace w ++ added
    /\ sent is_get added = k
    /\ sent is_get_sync added = 0%nat
    /\ slept added = 2 * Z.of_nat k
    /\ exists p, last added (Sleep 0) = Print (TooManyRetries p).
Proof.
  intros Hbusy. induction k as [|k IH]; intros attempt path params w.
  - cbn [Queries.query_rest_loop]. do 2 eexists. split; [reflexivity|].
    rewrite trace_emit. split; [reflexivity|]. cbn. eauto 10.
  - rewrite query_rest_loop_S.
    destruct (Hbusy (Queries.strip_slash path)
                (is_substring "/search/commits" path) params (net w))
      as (body & n' & H).
    unfold Queries.rest_attempt, exchange. rewrite H.
    cbn beta iota zeta. change (Z.eqb 202 202) with true. cbn iota.
    match goal with
    | |- context [Queries.query_rest_loop k ?a ?p params ?w1] =>
        destruct (IH a p params w1) as (w' & added & E & Tr & G & S & Z & L)
    end.
    rewrite E. do 2 eexists. split; [reflexivity|].
    rewrite Tr, !trace_emit. cbn [trace]. rewrite <- !app_assoc.
    split; [reflexivity|]. cbn [app].
    unfold sent in *. unfold slept in *. cbn [filter map fold_right is_get is_get_sync List.length].
    rewrite G, S, Z. repeat split; try lia.
    destruct L as (p & L). exists p.
    destruct added as [|e added]; [discriminate L|]. exact L.
Qed.

(** X18.  When the session answers 202 to every GET, [query_rest] gives up
    after 60 GETs and 120 seconds of sleep: it prints that the data will
    be incomplete and returns the empty dict, which its callers count as a
    repository without data. *)
Theorem busy_service_exhausts_the_retries
    (path : string) (params : option (list (string * json))) (w : World) :
  (forall path cloak params n,
     exists body n',
       session_get path cloak params n = (GetResponse 202 body, n')) ->
  exists w' added,
    Queries.query_rest path params w = (Ok empty_dict, w')
    /\ trace w' = trace w ++ added
    /\ sent is_get added = 60%nat
    /\ sent is_get_sync added = 0%nat
    /\ slept added = 120
    /\ exists p, last added (Sleep 0) = Print (TooManyRetries p).
Proof.
  intros Hbusy. unfold Queries.query_rest.
  destruct (query_rest_loop_busy 60 Hbusy 0 path
              (match params with Some p => p | None => [] end) w)
    as (w' & added & E & Tr & G & S & Z & L).
  exists w', added. repeat split; assumption.
Qed.

End StatusFacts.

(** ** Commits of all years *)

Section AllTimeFacts.
Import Stats Spec Tally.
Context {T : Transport} {U : Unicode}.
Local Open Scope list_scope.

Lemma all_time_turn (answer : json) (total0 : Z) (k : Z -> M St Z) st :
  tidy_year answer ->
  (ok <- (if truthy answer then lift (contains_str "data" answer)
          else ret false) ;;
   if (ok : bool) then
     data <- lift (get answer "data" empty_dict) ;;
     viewer <- lift (get data "viewer" empty_dict) ;;
     contrib <- lift (get viewer "contributionsCollection" empty_dict) ;;
     counted <- lift (get contrib "totalCommitContributions" (JNum 0)) ;;
     restricted <-
       lift (get contrib "restrictedContributionsCount" (JNum 0)) ;;
     year_commits <- lift (add counted restricted) ;;
     total_commits' <- lift (int_iadd total0 year_commits) ;;
     k total_commits'
   else k total0) st
  = k (total0 + year_commits answer) st.
Proof.
  unfold tidy_year, year_commits, sub.
  destruct answer as [| | | | |fields]; try (intros F; now elim F).
  destruct fields as [|f fields].
  { intros _. cbn. now rewrite Z.add_0_r. }
  cbn [truthy]. unfold contains_str. rewrite bind_lift_Ok.
  destruct (lookup "data" (f :: fields)) as [data|] eqn:D.
  2: { intros _. now rewrite Z.add_0_r. }
  destruct data as [| | | | |data]; try (intros F; now elim F).
  cbn [get]. rewrite D. rewrite !bind_lift_Ok. cbn [get]. rewrite bind_lift_Ok.
  destruct (match lookup "viewer" data with
            | Some v => v
            | None => empty_dict
            end) as [| | | | |viewer]; try (intros F; now elim F).
  cbn [get]. rewrite bind_lift_Ok.
  destruct (match lookup "contributionsCollection" viewer with
            | Some v => v
            | None => empty_dict
            end) as [| | | | |contrib]; try (intros F; now elim F).
  unfold int_field_or_0, int_field. cbn [get]. rewrite !bind_lift_Ok.
  intros [Ha Hb].
  destruct (match lookup "totalCommitContributions" contrib with
            | Some n => int_of n
            | None => Some 0
            end) as [a|] eqn:A; [|now elim Ha].
  destruct (match lookup "restrictedContributionsCount" contrib with
            | Some n => int_of n
            | None => Some 0
            end) as [b|] eqn:B; [|now elim Hb].
  assert (add match lookup "totalCommitContributions" contrib with
              | Some v => v
              | None => JNum 0
              end
              match lookup "restrictedContributionsCount" contrib with
              | Some v => v
              | None => JNum 0
              end = Ok (JNum (a + b))) as ->.
  { destruct (lookup "totalCommitContributions" contrib) as [va|];
      destruct (lookup "restrictedContributionsCount" contrib) as [vb|];
      try injection A as <-; try injection B as <-.
    - destruct va, vb; try discriminate; cbn in *;
        try injection A as <-; try injection B as <-; reflexivity.
    - destruct va; try discriminate; cbn in *; injection A as <-; reflexivity.
    - destruct vb; try discriminate; cbn in *; injection B as <-; reflexivity.
    - reflexivity. }
  rewrite bind_lift_Ok. cbn [int_iadd int_of]. rewrite bind_lift_Ok.
  reflexivity.
Qed.

Lemma all_time_loop_sums (answer : json -> json) (s : Self)
    (years : list json) :
  (forall year,
     In year years ->
     exists document,
       year_commits_query year = Ok document
       /\ forall w0, exists w1,
            Queries.query document w0 = (Ok (answer year), w1)) ->
  (forall year, In year years -> tidy_year (answer year)) ->
  forall total0 w,
  exists w',
    all_time_loop years total0 (s, w)
    = (Ok (total0 + total (map (fun year => year_commits (answer year)) years)),
       (s, w')).
Proof.
  induction years as [|year years IH]; intros Hq Ht total0 w.
  - cbn. unfold ret. rewrite Z.add_0_r. eauto.
  - destruct (Hq year (or_introl eq_refl)) as (document & D & Q).
    destruct (Q w) as (w1 & Q1).
    cbn [all_time_loop]. rewrite D, bind_lift_Ok.
    erewrite bind_io_Ok by exact Q1. cbn [fst].
    rewrite (all_time_turn (answer year) total0
               (fun t => all_time_loop years t) (s, w1)
               (Ht year (or_introl eq_refl))).
    destruct (IH (fun y H => Hq y (or_intror H))
                (fun y H => Ht y (or_intror H))
                (total0 + year_commits (answer year)) w1) as (w' & E).
    exists w'. rewrite E. cbn [map total fold_right]. unfold total.
    f_equal. f_equal. lia.
Qed.

(** X14.  [get_all_time_commits] asks for the contribution years, then
    sends one query for each year and stores in [_total_commits] the sum
    over the years of the counted and the restricted commits, an answer
    without [data] counting for nothing. *)
Theorem all_time_commits_sums
    (answer : json -> json) (s : Self) (w w0 : World) (r : json)
    (years : list json) :
  Queries.query Queries.contrib_years w = (Ok r, w0) ->
  years_of r = Ok (JArr years) ->
  (forall year,
     In year years ->
     exists document,
       year_commits_query year = Ok document
       /\ forall w1, exists w2,
            Queries.query document w1 = (Ok (answer year), w2)) ->
  (forall year, In year years -> tidy_year (answer year)) ->
  exists w',
    get_all_time_commits (s, w)
    = (Ok tt,
       (set_total_commits
          (Some (total (map (fun year => year_commits (answer year)) years)))
          s, w')).
Proof.
  intros Q Y Hq Ht.
  destruct (all_time_loop_sums answer s years Hq Ht 0 w0) as (w' & E).
  exists w'. unfold get_all_time_commits.
  erewrite bind_io_Ok by exact Q. cbn [fst].
  unfold years_of in Y.
  destruct (viewer_of r) as [v| |]; try discriminate. rewrite bind_lift_Ok.
  destruct (get v "contributionsCollection" empty_dict) as [cc| |];
    try discriminate.
  rewrite bind_lift_Ok, Y, bind_lift_Ok. cbn [iter]. rewrite bind_lift_Ok.
  erewrite bind_Ok by exact E. reflexivity.
Qed.

End AllTimeFacts.

(** ** The configuration *)

Section ConfigurationFacts.
Import Stats Images.
Local Open Scope list_scope.
Context {U : Unicode}.

Lemma set_of_In (x : string) (xs : list string) : In x (set_of xs) <-> In x xs.
Proof.
  induction xs as [|y xs IH]; cbn [set_of]; [tauto|].
  cbn [In]. rewrite filter_In, IH.
  destruct (String.eqb_spec x y) as [->|N]; cbn; intuition congruence.
Qed.

Lemma set_of_NoDup (xs : list string) : NoDup (set_of xs).
Proof.
  induction xs as [|y xs IH]; cbn [set_of]; constructor.
  - rewrite filter_In. intros [_ H]. now rewrite String.eqb_refl in H.
  - now apply NoDup_filter.
Qed.

Lemma split_not_nil sep s : split sep s <> [].
Proof.
  destruct s as [|c s]; cbn [split]; [discriminate|].
  destruct (Ascii.eqb c sep); [discriminate|].
  destruct (split sep s); discriminate.
Qed.

(** No piece holds the separator. *)
Lemma split_pieces sep (s : string) :
  forall piece, In piece (split sep s) ->
                ~ In sep (list_ascii_of_string piece).
Proof.
  induction s as [|c s IH]; cbn [split]; intros piece H.
  - destruct H as [<-|[]]. intros [].
  - destruct (Ascii.eqb_spec c sep) as [->|N].
    + destruct H as [<-|H]; [intros []|now apply IH].
    + destruct (split sep s) as [|p ps] eqn:E; [now elim (split_not_nil sep s)|].
      destruct H as [<-|H].
      * cbn. intros [C|C]; [congruence|]. revert C. apply IH. now left.
      * apply IH. now right.
Qed.

Lemma list_ascii_app (a b : string) :
  list_ascii_of_string (a ++ b)
  = (list_ascii_of_string a ++ list_ascii_of_string b)%list.
Proof. induction a as [|c a IH]; cbn; [reflexivity|]. now rewrite IH. Qed.

Lemma strip_incl (s : string) c :
  In c (list_ascii_of_string (str_strip s)) -> In c (list_ascii_of_string s).
Proof.
  destruct (strip_part s) as (a & b & E). intros H.
  rewrite E, !list_ascii_app, !in_app_iff. tauto.
Qed.

Lemma stripped_set_spec raw :
  trimmed_pieces raw
    (match stripped_set raw with Some names => names | None => [] end)
  /\ (stripped_set raw = None <-> raw = None \/ raw = Some ""%string).
Proof.
  unfold stripped_set, trimmed_pieces. destruct raw as [[|c text]|].
  - split; [split; [constructor|]|].
    + intros x. split; [intros []|].
      intros (text & piece & [= <-] & N & _). now elim N.
    + split; auto.
  - split; [split; [apply set_of_NoDup|]|].
    + intros x. rewrite set_of_In, in_map_iff. split.
      * intros (piece & <- & H). exists (String c text), piece.
        repeat split; try assumption. discriminate.
      * intros (text' & piece & [= <-] & _ & H & ->). eauto.
    + split; [discriminate|]. intros [H|H]; discriminate H.
  - split; [split; [constructor|]|].
    + intros x. split; [intros []|]. intros (text & piece & H & _).
      discriminate H.
    + split; auto.
Qed.

(** X15.  The sets [main] builds from [EXCLUDED], [EXCLUDED_LANGS] and
    [GIT_EMAILS] hold the pieces between the commas of the variable,
    stripped, each once; an unset or empty variable gives no set.  A name
    in the excluded set therefore has no comma and is left alone by
    [strip], and a repository that the service lists under such a name is
    skipped by [get_stats], whatever surrounds the name in the variable. *)
Theorem excluded_names_are_trimmed
    (getenv : string -> option string) (s : Self) :
  configure getenv = inr s ->
  trimmed_pieces (getenv "EXCLUDED") (_exclude_repos s)
  /\ trimmed_pieces (getenv "EXCLUDED_LANGS") (_exclude_langs s)
  /\ trimmed_pieces (getenv "GIT_EMAILS")
       (match _emails s with Some emails => emails | None => [] end)
  /\ (_emails s = None
      <-> getenv "GIT_EMAILS" = None \/ getenv "GIT_EMAILS" = Some ""%string)
  /\ (forall x,
        In x (_exclude_repos s) ->
        str_strip x = x /\ ~ In ","%char (list_ascii_of_string x))
  /\ (forall (T : Transport) x excl repo rs (s1 : Self) (w : World),
        In x (_exclude_repos s) ->
        get repo "nameWithOwner" JNull = Ok (JStr x) ->
        _exclude_repos s1 = _exclude_repos s ->
        _repos s1 = Some rs ->
        add_repo excl repo (s1, w) = (Ok tt, (s1, w))).
Proof.
  unfold configure.
  destruct (getenv "ACCESS_TOKEN") as [[|c token]|]; try discriminate.
  destruct (getenv "GITHUB_ACTOR") as [user|]; try discriminate.
  intros [= <-]. unfold init. cbn [_exclude_repos _exclude_langs _emails].
  pose proof (stripped_set_spec (getenv "EXCLUDED")) as [R _].
  pose proof (stripped_set_spec (getenv "EXCLUDED_LANGS")) as [L _].
  pose proof (stripped_set_spec (getenv "GIT_EMAILS")) as [E N].
  split; [exact R|]. split; [exact L|]. split; [exact E|].
  split; [exact N|]. split.
  - intros x H. apply R in H as (text & piece & _ & _ & H & ->).
    split; [apply strip_again|].
    intros C. apply strip_incl in C. exact (split_pieces _ _ _ H C).
  - intros T x excl repo rs s1 w Hx Hn He Hr.
    unfold add_repo.
    destruct (is_None repo) eqn:K; [destruct repo; discriminate|].
    rewrite Hn. mstep. rewrite Hr. mstep. cbn [set_contains hashable].
    mstep. rewrite He.
    assert (in_strings (JStr x)
              match stripped_set (getenv "EXCLUDED") with
              | Some s0 => s0
              | None => []
              end = true) as ->.
    { cbn [in_strings]. apply existsb_exists. exists x.
      split; [exact Hx|apply String.eqb_refl]. }
    now rewrite orb_true_r.
Qed.

End ConfigurationFacts.

(** ** The display name *)

Section NameFacts.
Import Stats Spec Tally.
Local Open Scope list_scope.
Context {U : Unicode}.

Lemma add_language_name {T : Transport} (x : json) excl lang :
  preserves (fun s => _name s = x) (add_language excl lang).
Proof. unfold add_language. preserves. Qed.

Lemma add_repo_name {T : Transport} (x : json) excl repo :
  preserves (fun s => _name s = x) (add_repo excl repo).
Proof.
  unfold add_repo. preserves.
  - unfold lang_names_entry. preserves.
  - apply add_language_name.
Qed.

Lemma read_page_name {T : Transport} excl raw no nc s w r s' w' :
  read_page excl raw no nc (s, w) = (Ok r, (s', w')) ->
  display_name (page_of raw) = Ok (_name s').
Proof.
  unfold read_page, display_name. fold (page_of raw).
  generalize (page_of raw) as page. intros page.
  mcase as v V. mcase as n N. cbn [and_then].
  destruct (is_None n) eqn:E.
  - mcase as l L.
    match goal with
    | |- ?m ?st = _ -> _ =>
        assert (K : preserves (fun x => _name x = l) m)
          by (preserves; apply add_repo_name);
        specialize (K st)
    end.
    intros H. rewrite H in K. cbn [fst snd] in K.
    rewrite K by (now destruct s).
    rewrite ?N; cbn [and_then]; rewrite ?E, ?L; reflexivity.
  - mstep.
    match goal with
    | |- ?m ?st = _ -> _ =>
        assert (K : preserves (fun x => _name x = n) m)
          by (preserves; apply add_repo_name);
        specialize (K st)
    end.
    intros H. rewrite H in K. cbn [fst snd] in K.
    rewrite K by (now destruct s).
    rewrite ?N; cbn [and_then]; rewrite ?E; reflexivity.
Qed.

Lemma name_run (fuel : nat) :
  forall (pages : list json) (excl : list string) (no nc : json)
         (s : Self) (w : World (T:=scripted)) (s' : Self) (w' : World (T:=scripted)),
    async_posts (net w) = map PostDecoded pages ->
    sync_posts (net w) = [] ->
    fetch_pages (T:=scripted) fuel excl no nc (s, w) = (Ok tt, (s', w')) ->
    exists before page rest,
      pages = before ++ page :: rest
      /\ async_posts (net w') = map PostDecoded rest
      /\ display_name (page_of page) = Ok (_name s').
Proof.
  induction fuel as [|fuel IH];
    intros pages excl no nc s w s' w' Hw Hsync H.
  - discriminate H.
  - cbn [fetch_pages] in H. revert H. mcase as document D.
    destruct pages as [|p ps].
    { intros H. pose proof (scripted_query_none document w Hw Hsync) as Q.
      unfold bind, io in H. cbn [snd] in H.
      destruct (Queries.query document w) as [[r|e|] w1]; cbn in Q;
        congruence. }
    erewrite bind_io_Ok by (apply scripted_query; exact Hw). cbn [fst snd].
    intros H. apply bind_inv in H as (r & [s1 w1] & R & H).
    match type of R with
    | read_page _ _ _ _ ?st = _ =>
        pose proof (read_page_keeps excl (page_of p) no nc st) as Kw
    end.
    rewrite R in Kw. cbn [snd] in Kw. subst w1.
    assert (page_of (page_of p) = page_of p) as Hpp by (now destruct p).
    pose proof (read_page_name _ _ _ _ _ _ _ _ _ R) as Nm.
    rewrite Hpp in Nm.
    destruct r as [[no' nc']|].
    + apply (IH ps) in H as (before & page & rest & -> & A & Nm');
        [|reflexivity|exact Hsync].
      exists (p :: before), page, rest. repeat split; assumption.
    + injection H as <- <-. exists [], p, ps. repeat split; try reflexivity.
      exact Nm.
Qed.

(** X19.  After a fetch that returns, [_name] is what the last page read
    says: its [name], or its [login] when the name is [null] or missing, or
    ["No Name"]; the pages before it have no say. *)
Theorem name_is_of_the_last_page
    (fuel : nat) (s : Self) (w : World (T:=scripted)) (pages : list json)
    (s' : Self) (w' : World (T:=scripted)) :
  _stats_fetched s = false ->
  async_posts (net w) = map PostDecoded pages ->
  sync_posts (net w) = [] ->
  get_stats (T:=scripted) fuel (s, w) = (Ok tt, (s', w')) ->
  exists before page rest,
    pages = before ++ page :: rest
    /\ async_posts (net w') = map PostDecoded rest
    /\ display_name (page_of page) = Ok (_name s').
Proof.
  intros Hf Hw Hsync H.
  apply get_stats_inv in H as ([s1 w1] & H & E); [|discriminate].
  injection E as -> ->. revert H. unfold locked_block. mstep.
  match goal with
  | |- context [_stats_fetched ?x] =>
      replace (_stats_fetched x) with false
        by (destruct (_stats_lock s); [now rewrite Hf|now destruct s])
  end.
  unfold start. mstep. intros H.
  apply bind_inv in H as ([] & [s2 w2] & R & H).
  apply name_run with (pages := pages) in R
    as (before & page & rest & -> & A & Nm); [|exact Hw|exact Hsync].
  apply finish_inv in H as (d & d' & _ & [= -> ->] & _).
  exists before, page, rest. repeat split; assumption.
Qed.

End NameFacts.

(** ** The pages that are read *)

Section PagingFacts.
Import Stats Spec.
Local Open Scope list_scope.
Context {U : Unicode}.

Lemma paging_run (fuel : nat) :
  forall (pages : list json) (k : nat) (page : json) (excl : list string)
         (no nc : json) (s : Self) (w : World (T:=scripted))
         (s' : Self) (w' : World (T:=scripted)),
    async_posts (net w) = map PostDecoded pages ->
    nth_error pages k = Some page ->
    last_page (page_of page) ->
    fetch_pages (T:=scripted) fuel excl no nc (s, w) = (Ok tt, (s', w')) ->
    exists before final rest documents,
      pages = before ++ final :: rest
      /\ Forall (fun p => more_pages (page_of p)) before
      /\ last_page (page_of final)
      /\ (List.length before <= k)%nat
      /\ async_posts (net w') = map PostDecoded rest
      /\ trace w' = trace w ++ map Post documents
      /\ List.length documents = S (List.length before).
Proof.
  induction fuel as [|fuel IH];
    intros pages k page excl no nc s w s' w' Hw Hk Hlast H.
  - discriminate H.
  - cbn [fetch_pages] in H. revert H. mcase as document D.
    destruct pages as [|p ps]; [now destruct k|].
    erewrite bind_io_Ok by (apply scripted_query; exact Hw). cbn [fst snd].
    intros H. apply bind_inv in H as (r & [s1 w1] & R & H).
    match type of R with
    | read_page _ _ _ _ ?st = _ =>
        pose proof (read_page_keeps excl (page_of p) no nc st) as Kw
    end.
    rewrite R in Kw. cbn [snd] in Kw. subst w1.
    assert (page_of (page_of p) = page_of p) as Hpp by (now destruct p).
    apply read_page_inv in R
      as (items & n & bo & bc & _ & _ & Hbo & Hbc & Hr & _).
    rewrite Hpp in Hbo, Hbc.
    destruct r as [[no' nc']|].
    + assert (M : more_pages (page_of p)).
      { unfold more_pages. rewrite Hbo, Hbc.
        destruct bo; [now left|]. destruct bc; [now right|].
        destruct Hr as [_ Hr]. now specialize (Hr (conj eq_refl eq_refl)). }
      destruct k as [|k].
      { injection Hk as ->. destruct Hlast as [Lo Lc].
        destruct M as [M|M]; congruence. }
      cbn [nth_error] in Hk.
      apply (IH ps k page) in H
        as (before & final & rest & documents & -> & B & L & Hlen & A & Tr & Ld);
        [|reflexivity|exact Hk|exact Hlast].
      exists (p :: before), final, rest, (document :: documents).
      split; [reflexivity|]. split; [now constructor|].
      split; [exact L|]. split; [cbn [List.length]; lia|].
      split; [exact A|]. split.
      * rewrite Tr. cbn [trace map]. now rewrite <- app_assoc.
      * cbn [List.length]. now rewrite Ld.
    + injection H as <- <-. destruct Hr as [Hr _].
      destruct (Hr eq_refl) as [-> ->].
      exists [], p, ps, [document].
      split; [reflexivity|]. split; [constructor|].
      split; [split; assumption|]. split; [cbn [List.length]; lia|].
      repeat split; reflexivity.
Qed.

(** C6.  When the answers the service gives in turn reach a page on which
    both connections report no further page, the fetch ends: with that page
    at position [k], any allowance of more than [k] turns of the loop is
    enough for [get_stats] to return or raise.  A fetch that returns has
    sent one query for each page up to the first on which both connections
    report no further page, and none after it: every page it read before
    that one reports a further page on one of the connections.  A turn of
    the loop that ends normally leaves the loop exactly when both
    connections of its page report no further page. *)
Theorem fetch_ends_on_last_page
    (s : Self) (w : World (T:=scripted)) (pages : list json) (k : nat)
    (page : json) :
  _stats_lock s <> Some true ->
  _stats_fetched s = false ->
  async_posts (net w) = map PostDecoded pages ->
  nth_error pages k = Some page ->
  last_page (page_of page) ->
  (forall fuel, (k < fuel)%nat ->
     fst (get_stats (T:=scripted) fuel (s, w)) <> Unfinished)
  /\ (forall fuel s' (w' : World (T:=scripted)),
        get_stats (T:=scripted) fuel (s, w) = (Ok tt, (s', w')) ->
        exists before final rest documents,
          pages = before ++ final :: rest
          /\ Forall (fun p => more_pages (page_of p)) before
          /\ last_page (page_of final)
          /\ (List.length before <= k)%nat
          /\ async_posts (net w') = map PostDecoded rest
          /\ trace w' = trace w ++ map Post documents
          /\ List.length documents = S (List.length before))
  /\ (forall (T : Transport) excl raw no nc st r st',
        read_page (T:=T) excl raw no nc st = (Ok r, st') ->
        exists bo bc,
          has_next_page (page_of raw) "repositories" = Ok bo
          /\ has_next_page (page_of raw) "repositoriesContributedTo" = Ok bc
          /\ (r = None <-> bo = false /\ bc = false)).
Proof.
  intros Hlock Hf Hw Hk Hlast. split; [|split].
  - intros fuel Hfuel. unfold get_stats. mstep.
    destruct (_stats_lock s) as [[|]|] eqn:L; [congruence| |];
      mstep; rewrite ?L; mstep; rewrite try_finally_fst;
      now apply (locked_block_ends _ _ pages k page).
  - intros fuel s' w' H.
    apply get_stats_inv in H as ([s1 w1] & H & E); [|discriminate].
    injection E as -> ->. revert H. unfold locked_block. mstep.
    match goal with
    | |- context [_stats_fetched ?x] =>
        replace (_stats_fetched x) with false
          by (destruct (_stats_lock s); [now rewrite Hf|now destruct s])
    end.
    unfold start. mstep. intros H.
    apply bind_inv in H as ([] & [s2 w2] & R & H).
    apply paging_run with (pages := pages) (k := k) (page := page) in R
      as (before & final & rest & documents & -> & B & L & Hlen & A & Tr & Ld);
      [|exact Hw|exact Hk|exact Hlast].
    apply finish_inv in H as (d & d' & _ & [= -> ->] & _).
    exists before, final, rest, documents.
    split; [reflexivity|]. split; [exact B|]. split; [exact L|].
    split; [exact Hlen|]. split; [exact A|]. split; [exact Tr|exact Ld].
  - intros T excl raw no nc [s0 w0] r st' H.
    apply read_page_inv in H as (_ & _ & bo & bc & _ & _ & Hbo & Hbc & Hr & _).
    eauto.
Qed.

End PagingFacts.

(** ** A service that never reaches a last page *)

Section EndlessFacts.
Import Stats Spec Tally.
Context {T : Transport} {U : Unicode}.
Local Open Scope list_scope.

Lemma get_dict_ok (fields : list (string * json)) key dflt :
  exists v, get (JObj fields) key dflt = Ok v.
Proof. cbn. eauto. Qed.

Lemma read_page_goes_on excl page no nc s w :
  is_None page = false ->
  empty_page_with_next page ->
  cursor_ok no -> cursor_ok nc ->
  exists no' nc' s',
    read_page excl page no nc (s, w) = (Ok (Some (no', nc')), (s', w))
    /\ cursor_ok no' /\ cursor_ok nc'
    /\ _stats_lock s' = _stats_lock s
    /\ _stats_fetched s' = _stats_fetched s.
Proof.
  intros Hn (Hnodes & (bo & bc & Ho & Hc & Hb) & Hcur & Hcur') Hno Hnc.
  destruct (Hcur no Hno) as (no' & Eo & Co).
  destruct (Hcur' nc Hnc) as (nc' & Ec & Cc).
  specialize (Hnodes (_ignore_forked_repos s)).
  exists no', nc'.
  unfold read_page. rewrite Hn.
  unfold has_next_page, end_cursor, page_nodes, connection_of in *.
  destruct (viewer_of page) as [v| |] eqn:V; try discriminate.
  cbn [and_then] in *.
  destruct (get v "repositories" empty_dict) as [owned| |] eqn:Go;
    try discriminate.
  destruct (get v "repositoriesContributedTo" empty_dict) as [contrib| |] eqn:Gc;
    try discriminate.
  cbn [and_then] in *.
  destruct (get_ok_dict _ _ _ _ Go) as [fields ->].
  destruct (get_dict_ok fields "name" JNull) as [n Gn].
  destruct (get_dict_ok fields "login" (JStr "No Name")) as [l Gl].
  destruct (get owned "nodes" (JArr [])) as [repos| |] eqn:Gr;
    try discriminate.
  cbn [and_then] in *.
  destruct (get owned "pageInfo" empty_dict) as [pio| |] eqn:Gpo;
    try discriminate.
  destruct (get contrib "pageInfo" empty_dict) as [pic| |] eqn:Gpc;
    try discriminate.
  cbn [and_then] in *.
  destruct (get pio "hasNextPage" (JBool false)) as [ho| |] eqn:Gho;
    try discriminate.
  destruct (get pic "hasNextPage" (JBool false)) as [hc| |] eqn:Ghc;
    try discriminate.
  cbn [and_then] in *. injection Ho as Ho. injection Hc as Hc.
  assert (Hmore : (if truthy ho then true else truthy hc) = true)
    by (rewrite Ho, Hc; destruct bo; [reflexivity|exact Hb]).
  clear Ho Hc Hb Hcur Hcur' Hno Hnc.
  destruct (_ignore_forked_repos s) eqn:I; cbn [negb and_then] in Hnodes;
    [|destruct (get contrib "nodes" (JArr [])) as [more| |] eqn:Gm;
      try discriminate; cbn [and_then] in Hnodes;
      destruct (iadd repos more) as [x| |] eqn:Gi; try discriminate;
      cbn [and_then] in Hnodes];
    (destruct (is_None n) eqn:Nn;
     [exists (set_name l (set_name n s))|exists (set_name n s)]);
    (split; [|split; [exact Co|split; [exact Cc|now destruct s]]]);
    clear Co Cc;
    repeat (progress
              (repeat match goal with
                      | H : ?lhs = _ |- context [?lhs] => rewrite H
                      end;
               cbn [negb for_each]; mstep));
    destruct (truthy ho); mstep;
    repeat (progress
              (repeat match goal with
                      | H : ?lhs = _ |- context [?lhs] => rewrite H
                      end;
               cbn [negb for_each]; mstep));
    reflexivity.
Qed.

Lemma repos_overview_ok no nc :
  cursor_ok no -> cursor_ok nc ->
  exists document, Queries.repos_overview nc no = Ok document.
Proof.
  intros [->|[a ->]] [->|[b ->]]; unfold Queries.repos_overview; cbn; eauto.
Qed.

Lemma fetch_pages_goes_on (page : json) (fuel : nat) :
  is_None page = false ->
  empty_page_with_next page ->
  (forall document w0, exists w1,
     Queries.query document w0 = (Ok page, w1)) ->
  forall excl no nc s w,
    cursor_ok no -> cursor_ok nc ->
    fst (fetch_pages fuel excl no nc (s, w)) = Unfinished.
Proof.
  intros Hn Hp Hq. induction fuel as [|fuel IH];
    intros excl no nc s w Hno Hnc; [reflexivity|].
  cbn [fetch_pages].
  destruct (repos_overview_ok no nc Hno Hnc) as (document & D).
  rewrite D, bind_lift_Ok.
  destruct (Hq document w) as (w1 & Q).
  erewrite bind_io_Ok by exact Q. cbn [fst].
  destruct (read_page_goes_on excl page no nc s w1 Hn Hp Hno Hnc)
    as (no' & nc' & s' & R & Co & Cc & _).
  erewrite bind_Ok by exact R. now apply IH.
Qed.

(** X20.  The loop of [get_stats] has no bound of its own.  With a service
    that answers every query with a page that lists no repository and
    reports a next page, no number of turns is enough: the call neither
    returns nor raises. *)
Theorem fetch_has_no_page_bound (page : json) :
  is_None page = false ->
  empty_page_with_next page ->
  (forall document w0, exists w1,
     Queries.query document w0 = (Ok page, w1)) ->
  forall fuel s w,
    _stats_lock s <> Some true ->
    _stats_fetched s = false ->
    fst (get_stats fuel (s, w)) = Unfinished.
Proof.
  intros Hn Hp Hq fuel s w Hl Hf.
  unfold get_stats. mstep.
  assert (C : cursor_ok JNull) by (now left).
  destruct (_stats_lock s) as [[|]|] eqn:L; [now elim Hl| |];
    mstep; rewrite ?L; mstep;
    unfold try_finally, locked_block; mstep; rewrite Hf;
    unfold start; mstep;
    match goal with
    | |- context [bind (fetch_pages fuel ?excl JNull JNull) ?k ?st] =>
        pose proof (fetch_pages_goes_on page fuel Hn Hp Hq excl JNull JNull
                      (fst st) (snd st) C C) as Uf;
        cbn [fst snd] in Uf;
        unfold bind at 1;
        destruct (fetch_pages fuel excl JNull JNull st) as [[[]|e|] st1];
        cbn [fst] in Uf; try discriminate Uf; reflexivity
    end.
Qed.

End EndlessFacts.

(** ** Instances *)

Section Instances.
Import Examples.

(** A search answered 202, then 404. *)
Lemma retry_header_witness :
  let w := mkWorld (T:=scripted)
             (mkScript [] [] [GetResponse 202 None; GetResponse 404 None] [])
             [] in
  is_substring "/search/commits" "search/commits?q=x" = false
  /\ session_get (Transport:=scripted) "search/commits?q=x" true [] (net w)
     = (GetResponse 202 None, mkScript [] [] [GetResponse 404 None] [])
  /\ exists more,
       trace (snd (Queries.query_rest (T:=scripted) "/search/commits?q=x" None w))
       = (trace w
          ++ [Get "search/commits?q=x" true;
              Print (Rest202 "search/commits?q=x" 1); Sleep 2;
              Get "search/commits?q=x" false]
          ++ more)%list.
Proof.
  intros w. split; [reflexivity|]. split; [reflexivity|].
  exact (retry_drops_search_header (T:=scripted) "?q=x" None w None
           (mkScript [] [] [GetResponse 404 None] []) eq_refl eq_refl).
Defined.

(** One summary answer, with 7 pull requests and 3 issues. *)
Lemma summary_witness :
  let s := Examples.octocat in
  let w := Examples.answers [Examples.summary (JNum 7) (JNum 3)] in
  let after_prs := Stats.prs (T:=scripted) (s, w) in
  let after_issues := Stats.issues (T:=scripted) (snd after_prs) in
  is_None (Stats._prs s) = true
  /\ fst after_prs = Ok (JNum 7)
  /\ fst after_issues = Ok (JNum 3)
  /\ trace (snd (snd after_issues)) = [Post Queries.summary_query]
  /\ (forall v s' w',
        Stats.prs (T:=scripted) (s, w) = (Ok v, (s', w')) ->
        exists raw viewer pr iss,
          Queries.query Queries.summary_query w = (Ok raw, w')
          /\ Stats.viewer_of raw = Ok viewer
          /\ truthy viewer = true
          /\ get viewer "pullRequests" empty_dict = Ok pr
          /\ get pr "totalCount" (JNum 0) = Ok v
          /\ get viewer "issues" empty_dict = Ok iss
          /\ get iss "totalCount" (JNum 0) = Ok (Stats._issues s')
          /\ Stats._prs s' = v
          /\ (is_None (Stats._name s) = false -> Stats._name s' = Stats._name s)
          /\ (is_None (Stats._issues s') = false ->
              Stats.issues (s', w') = (Ok (Stats._issues s'), (s', w')))).
Proof.
  intros s w after_prs after_issues.
  split; [reflexivity|]. split; [vm_compute; reflexivity|].
  split; [vm_compute; reflexivity|]. split; [vm_compute; reflexivity|].
  exact (proj1 (summary_serves_prs_and_issues (T:=scripted) s w eq_refl)).
Defined.

(** Two pages of forks, with 7 on the first and 9 on the second. *)
Lemma forks_made_witness :
  let s := Examples.octocat in
  let first := Examples.forks_answer (JNum 7) true (JStr "c1") in
  let second := Examples.forks_answer (JNum 9) false JNull in
  let w := Examples.answers [first; second] in
  is_None (Stats._forks_made s) = true
  /\ async_posts (net w) = (map PostDecoded [first; second] ++ [])%list
  /\ Forall Tally.leads_on (removelast [first; second])
  /\ (List.length [second] < 2)%nat
  /\ Tally.forks_page (Spec.page_of first) = Some (JNum 7, true, JStr "c1")
  /\ is_None (JNum 7) = false
  /\ (exists tl cl,
        Tally.forks_page (Spec.page_of (last [first; second] first))
        = Some (tl, false, cl))
  /\ exists w' : World (T:=scripted),
       Stats.forks_made (T:=scripted) 2 (s, w)
       = (Ok (JNum 7), (Stats.set_forks_made (JNum 7) s, w'))
       /\ async_posts (net w') = [].
Proof.
  intros s first second w.
  assert (L : Forall Tally.leads_on (removelast [first; second])).
  { constructor; [|constructor]. exists (JNum 7), "c1". reflexivity. }
  assert (F : exists tl cl,
             Tally.forks_page (Spec.page_of (last [first; second] first))
             = Some (tl, false, cl)).
  { exists (JNum 9), JNull. reflexivity. }
  split; [reflexivity|]. split; [reflexivity|]. split; [exact L|].
  split; [apply le_n|]. split; [reflexivity|]. split; [reflexivity|].
  split; [exact F|].
  exact (proj1 (forks_made_counts_first_page 2 s w first [second] []
                  (JNum 7) true (JStr "c1")
                  eq_refl eq_refl L (le_n 2) eq_refl eq_refl) F).
Defined.

(** One repository: 11 lines added and 6 deleted by the user. *)
Lemma lines_changed_witness :
  let T := rest_service contributors in
  let s := octocat_with_repo in
  let w := mkWorld (T:=T) tt [] in
  let answer := fun _ : json => contributors in
  Stats._lines_changed s = None
  /\ Stats._repos s = Some [JStr "octocat/hello"]
  /\ (forall repo (w0 : World (T:=T)),
        In repo [JStr "octocat/hello"] ->
        exists w1,
          Queries.query_rest (T:=T)
            ("/repos/" ++ str_of repo ++ "/stats/contributors") None w0
          = (Ok (answer repo), w1))
  /\ (forall repo,
        In repo [JStr "octocat/hello"] ->
        Tally.tidy_lines (Stats.username s) (answer repo))
  /\ exists w',
       Stats.lines_changed (T:=T) 0 (s, w)
       = (Ok (11, 6), (Stats.set_lines_changed (Some (11, 6)) s, w')).
Proof.
  intros T s w answer.
  assert (Q : forall repo (w0 : World (T:=T)),
             In repo [JStr "octocat/hello"] ->
             exists w1,
               Queries.query_rest (T:=T)
                 ("/repos/" ++ str_of repo ++ "/stats/contributors") None w0
               = (Ok (answer repo), w1)).
  { intros repo w0 [<-|[]]. eexists. reflexivity. }
  assert (D : forall repo,
             In repo [JStr "octocat/hello"] ->
             Tally.tidy_lines (Stats.username s) (answer repo)).
  { intros repo _. cbn. repeat constructor; discriminate. }
  split; [reflexivity|]. split; [reflexivity|]. split; [exact Q|].
  split; [exact D|].
  exact (lines_changed_sums (T:=T) 0 answer s w [JStr "octocat/hello"]
           eq_refl eq_refl Q D).
Defined.

(** One repository with 5 and 7 views. *)
Lemma views_witness :
  let T := rest_service traffic in
  let s := octocat_with_repo in
  let w := mkWorld (T:=T) tt [] in
  let answer := fun _ : json => traffic in
  Stats._views s = None
  /\ Stats._repos s = Some [JStr "octocat/hello"]
  /\ (forall repo (w0 : World (T:=T)),
        In repo [JStr "octocat/hello"] ->
        exists w1,
          Queries.query_rest (T:=T)
            ("/repos/" ++ str_of repo ++ "/traffic/views") None w0
          = (Ok (answer repo), w1))
  /\ (forall repo,
        In repo [JStr "octocat/hello"] -> Tally.tidy_views (answer repo))
  /\ exists w',
       Stats.views (T:=T) 0 (s, w) = (Ok 12, (Stats.set_views (Some 12) s, w')).
Proof.
  intros T s w answer.
  assert (Q : forall repo (w0 : World (T:=T)),
             In repo [JStr "octocat/hello"] ->
             exists w1,
               Queries.query_rest (T:=T)
                 ("/repos/" ++ str_of repo ++ "/traffic/views") None w0
               = (Ok (answer repo), w1)).
  { intros repo w0 [<-|[]]. eexists. reflexivity. }
  assert (D : forall repo,
             In repo [JStr "octocat/hello"] -> Tally.tidy_views (answer repo)).
  { intros repo _. cbn. repeat constructor; discriminate. }
  split; [reflexivity|]. split; [reflexivity|]. split; [exact Q|].
  split; [exact D|].
  exact (views_sums (T:=T) 0 answer s w [JStr "octocat/hello"]
           eq_refl eq_refl Q D).
Defined.

(** The answer for an unknown user. *)
Lemma null_user_witness :
  let s := Examples.octocat in
  let w := Examples.answers [unknown_user] in
  let w' := mkWorld (T:=scripted) (mkScript [] [] [] [])
              [Post (Stats.commits_query_username "octocat")] in
  Queries.query (T:=scripted) (Tally.first_commits_query s) w
  = (Ok (JObj [("data", JObj [("user", JNull)])]), w')
  /\ lookup "data" [("data", JObj [("user", JNull)])]
     = Some (JObj [("user", JNull)])
  /\ lookup "user" [("user", JNull)] = Some JNull
  /\ Stats.total_commits (T:=scripted) (s, w) = (Raise TypeError, (s, w')).
Proof.
  intros s w w'. split; [reflexivity|]. split; [reflexivity|].
  split; [reflexivity|].
  exact (total_commits_null_user (T:=scripted) s w
           [("data", JObj [("user", JNull)])] [("user", JNull)] w'
           eq_refl eq_refl eq_refl).
Defined.

(** A fetch of one page, and a second call. *)
Lemma get_stats_runs_once_witness :
  let s := Examples.octocat in
  let w := Examples.answers [Examples.one_page] in
  exists s' w',
    Stats.get_stats (T:=scripted) 1 (s, w) = (Ok tt, (s', w'))
    /\ trace w' = trace (snd (snd (Stats.get_stats (T:=scripted) 1 (s', w'))))
    /\ Stats._stats_lock s' = Some false
    /\ Stats._stats_fetched s' = true
    /\ forall fuel', Stats.get_stats (T:=scripted) fuel' (s', w') = (Ok tt, (s', w')).
Proof.
  intros s w. eexists _, _.
  split; [vm_compute; reflexivity|].
  split; [vm_compute; reflexivity|].
  eapply (get_stats_runs_once (T:=scripted) 1 s w).
  vm_compute. reflexivity.
Defined.

(** A fetch that fails on its second repository. *)
Lemma failed_fetch_witness :
  let s := Examples.octocat in
  let w := Examples.answers [broken_page] in
  exists s' w',
    Stats.get_stats (T:=scripted) 1 (s, w) = (Raise AttributeError, (s', w'))
    /\ Stats.stargazers (T:=scripted) 1 (s', w') = (Ok 5, (s', w'))
    /\ Stats.repos (T:=scripted) 1 (s', w')
       = (Ok [JStr "octocat/hello"; JStr "octocat/odd"], (s', w'))
    /\ Stats._stats_lock s' = Some false
    /\ Stats._stats_fetched s' = false
    /\ exists n r d,
         Stats._stargazers s' = Some n /\ Stats._repos s' = Some r
         /\ Stats._languages s' = Some d
         /\ forall fuel',
              Stats.stargazers fuel' (s', w') = (Ok n, (s', w'))
              /\ Stats.repos fuel' (s', w') = (Ok r, (s', w'))
              /\ Stats.languages fuel' (s', w') = (Ok d, (s', w')).
Proof.
  intros s w. eexists _, _.
  split; [vm_compute; reflexivity|].
  split; [vm_compute; reflexivity|].
  split; [vm_compute; reflexivity|].
  eapply (failed_fetch_leaves_partial_totals (T:=scripted) 1 s w AttributeError).
  vm_compute. reflexivity.
Defined.

(** A year that is no number makes the second query fail. *)
Lemma failed_total_contributions_witness :
  let s := Examples.octocat in
  let w := Examples.answers [Examples.years_answer [JStr "x"]] in
  exists s' w',
    Stats.total_contributions (T:=scripted) (s, w) = (Raise ValueError, (s', w'))
    /\ Stats.total_contributions (T:=scripted) (s', w') = (Ok 0, (s', w'))
    /\ exists n,
         Stats._total_contributions s' = Some n
         /\ Stats.total_contributions (s', w') = (Ok n, (s', w')).
Proof.
  intros s w. eexists _, _.
  split; [vm_compute; reflexivity|].
  split; [vm_compute; reflexivity|].
  eapply (failed_total_contributions_is_kept (T:=scripted) s w ValueError).
  vm_compute. reflexivity.
Defined.

(** Two years with 30 counted and 4 restricted commits each. *)
Lemma all_time_commits_witness :
  let T := yearly_service in
  let s := Examples.octocat in
  let w := mkWorld (T:=T) tt [] in
  let w0 := mkWorld (T:=T) tt [Post Queries.contrib_years] in
  let r := Examples.years_answer [JNum 2020; JNum 2021] in
  let answer := fun _ : json => year_answer 30 4 in
  Queries.query (T:=T) Queries.contrib_years w = (Ok r, w0)
  /\ Spec.years_of r = Ok (JArr [JNum 2020; JNum 2021])
  /\ (forall year,
        In year [JNum 2020; JNum 2021] ->
        exists document,
          Stats.year_commits_query year = Ok document
          /\ forall w1 : World (T:=T), exists w2,
               Queries.query (T:=T) document w1 = (Ok (answer year), w2))
  /\ (forall year,
        In year [JNum 2020; JNum 2021] -> Tally.tidy_year (answer year))
  /\ exists w',
       Stats.get_all_time_commits (T:=T) (s, w)
       = (Ok tt, (Stats.set_total_commits (Some 68) s, w')).
Proof.
  intros T s w w0 r answer.
  assert (Q : forall year,
             In year [JNum 2020; JNum 2021] ->
             exists document,
               Stats.year_commits_query year = Ok document
               /\ forall w1 : World (T:=T), exists w2,
                    Queries.query (T:=T) document w1 = (Ok (answer year), w2)).
  { intros year [<-|[<-|[]]]; eexists; (split; [reflexivity|]);
      intros w1; eexists; reflexivity. }
  assert (D : forall year,
             In year [JNum 2020; JNum 2021] -> Tally.tidy_year (answer year)).
  { intros year _. cbn. split; discriminate. }
  split; [reflexivity|]. split; [reflexivity|]. split; [exact Q|].
  split; [exact D|].
  exact (all_time_commits_sums (T:=T) answer s w w0 r [JNum 2020; JNum 2021]
           eq_refl eq_refl Q D).
Defined.

(** An environment with blanks around an excluded name and an email given
    twice. *)
Lemma excluded_names_witness :
  let s := Stats.init "octocat" (Some ["octocat/secret"; "a/b"]) None false
             (Some ["a@b.c"]) in
  Images.configure (U:=ascii_only) environment = inr s
  /\ Images.trimmed_pieces (U:=ascii_only) (environment "EXCLUDED")
       ["octocat/secret"; "a/b"]
  /\ Images.trimmed_pieces (U:=ascii_only) (environment "EXCLUDED_LANGS") []
  /\ Images.trimmed_pieces (U:=ascii_only) (environment "GIT_EMAILS")
       ["a@b.c"]
  /\ (forall x,
        In x ["octocat/secret"; "a/b"] ->
        ascii_strip x = x /\ ~ In ","%char (list_ascii_of_string x))
  /\ (forall (T : Transport) excl rs (s1 : Stats.Self) (w : World),
        Stats._exclude_repos s1 = ["octocat/secret"; "a/b"] ->
        Stats._repos s1 = Some rs ->
        Stats.add_repo (U:=ascii_only) excl (repo "octocat/secret" 100 50 [])
          (s1, w)
        = (Ok tt, (s1, w))).
Proof.
  intros s.
  pose proof (excluded_names_are_trimmed (U:=ascii_only) environment s
                eq_refl) as (R & L & E & _ & P & K).
  split; [reflexivity|]. split; [exact R|]. split; [exact L|].
  split; [exact E|]. split; [exact P|].
  intros T excl rs s1 w He Hr.
  exact (K T "octocat/secret" excl (repo "octocat/secret" 100 50 []) rs s1 w
           (or_introl eq_refl) eq_refl He Hr).
Defined.

(** An internal error of the service, with a body that decodes. *)
Lemma status_witness :
  let body := JObj [("message", JStr "Server Error")] in
  let w := mkWorld (T:=scripted)
             (mkScript [] [] [GetResponse 500 (Some body)] []) [] in
  500 <> 202 /\ 500 <> 403 /\ 500 <> 404
  /\ is_None body = false
  /\ Queries.query_rest (T:=scripted) "/repos/octocat/hello/traffic/views" None w
     = (Ok body,
        mkWorld (T:=scripted) (mkScript [] [] [] [])
          [Get "repos/octocat/hello/traffic/views" false]).
Proof.
  intros body w.
  assert (N1 : 500 <> 202) by discriminate.
  assert (N2 : 500 <> 403) by discriminate.
  assert (N3 : 500 <> 404) by discriminate.
  split; [exact N1|]. split; [exact N2|]. split; [exact N3|].
  split; [reflexivity|].
  exact (proj1 (status_is_checked_on_fallback_only (T:=scripted) 59 0
                  "/repos/octocat/hello/traffic/views" [] w 500 body
                  N1 N2 N3 eq_refl)
           (mkScript [] [] [] []) eq_refl).
Defined.

(** A service that never gets done. *)
Lemma busy_service_witness :
  let T := busy_service in
  let w := mkWorld (T:=T) tt [] in
  (forall path cloak params (n : Net (Transport:=T)),
     exists body n',
       session_get (Transport:=T) path cloak params n = (GetResponse 202 body, n'))
  /\ exists w' added,
       Queries.query_rest (T:=T) "/repos/octocat/hello/stats/contributors" None w
       = (Ok empty_dict, w')
       /\ trace w' = (trace w ++ added)%list
       /\ Wire.sent Wire.is_get added = 60%nat
       /\ Wire.sent Wire.is_get_sync added = 0%nat
       /\ Wire.slept added = 120
       /\ exists p, last added (Sleep 0) = Print (TooManyRetries p).
Proof.
  intros T w.
  assert (B : forall path cloak params (n : Net (Transport:=T)),
             exists body n',
               session_get (Transport:=T) path cloak params n
               = (GetResponse 202 body, n')).
  { intros path cloak params n. exists None, n. reflexivity. }
  split; [exact B|].
  exact (busy_service_exhausts_the_retries (T:=T)
           "/repos/octocat/hello/stats/contributors" None w B).
Defined.

(** The single page of the example gives the login for a name. *)
Lemma name_witness :
  let s := Examples.octocat in
  let w := Examples.answers [Examples.one_page] in
  exists s' w',
    Stats.get_stats (T:=scripted) 1 (s, w) = (Ok tt, (s', w'))
    /\ Stats._name s' = JStr "octocat"
    /\ Stats._stats_fetched s = false
    /\ async_posts (net w) = map PostDecoded [Examples.one_page]
    /\ sync_posts (net w) = []
    /\ exists before page rest,
         [Examples.one_page] = (before ++ page :: rest)%list
         /\ async_posts (net w') = map PostDecoded rest
         /\ Tally.display_name (Spec.page_of page) = Ok (Stats._name s').
Proof.
  intros s w. eexists _, _.
  split; [vm_compute; reflexivity|].
  split; [vm_compute; reflexivity|].
  split; [reflexivity|]. split; [reflexivity|]. split; [reflexivity|].
  eapply (name_is_of_the_last_page 1 s w [Examples.one_page]);
    [reflexivity | reflexivity | reflexivity | vm_compute; reflexivity].
Defined.

(** A service that always reports one more page. *)
Lemma no_page_bound_witness :
  let T := idle_service in
  is_None idle_page = false
  /\ Tally.empty_page_with_next idle_page
  /\ (forall document (w0 : World (T:=T)), exists w1,
        Queries.query (T:=T) document w0 = (Ok idle_page, w1))
  /\ Stats._stats_lock Examples.octocat <> Some true
  /\ Stats._stats_fetched Examples.octocat = false
  /\ forall fuel,
       fst (Stats.get_stats (T:=T) fuel (Examples.octocat, mkWorld (T:=T) tt []))
       = Unfinished.
Proof.
  intros T.
  assert (P : Tally.empty_page_with_next idle_page).
  { split; [intros []; reflexivity|].
    split; [exists true, false; repeat split|].
    split; intros dflt C; eexists; (split; [reflexivity|]).
    - right. now exists "c1".
    - now left. }
  assert (Q : forall document (w0 : World (T:=T)), exists w1,
             Queries.query (T:=T) document w0 = (Ok idle_page, w1)).
  { intros document w0. eexists. reflexivity. }
  assert (L : Stats._stats_lock Examples.octocat <> Some true)
    by discriminate.
  split; [reflexivity|]. split; [exact P|]. split; [exact Q|].
  split; [exact L|]. split; [reflexivity|].
  intros fuel.
  exact (fetch_has_no_page_bound (T:=T) idle_page eq_refl P Q fuel
           Examples.octocat (mkWorld (T:=T) tt []) L eq_refl).
Defined.

(** The session is down and the fallback client decodes [null]. *)
Lemma query_fallback_witness :
  let document := "query { viewer { login } }" in
  let w := mkWorld (T:=scripted) (mkScript [] [PostDecoded JNull] [] []) [] in
  Queries.query (T:=scripted) document w
  = (Ok empty_dict,
     mkWorld (T:=scripted) (mkScript [] [] [] [])
       [Post document; Print AiohttpFailedGraphQL; PostSync document]).
Proof.
  intros document w.
  exact (proj1 (proj2 (query_posts_once_or_twice (T:=scripted) document w))
           (mkScript [] [PostDecoded JNull] [] []) JNull
           (mkScript [] [] [] []) eq_refl eq_refl).
Defined.

(** Three answers are ready: a page that reports a next page, a last
    page, and a page that is never asked for. *)
Lemma fetch_ends_witness :
  let pages := [idle_page; one_page; crowded_page] in
  let w := answers pages in
  Stats._stats_lock octocat <> Some true
  /\ Stats._stats_fetched octocat = false
  /\ async_posts (net w) = map PostDecoded pages
  /\ nth_error pages 1 = Some one_page
  /\ Spec.last_page (Spec.page_of one_page)
  /\ exists s' (w' : World (T:=scripted)),
       Stats.get_stats (T:=scripted) 2 (octocat, w) = (Ok tt, (s', w'))
       /\ exists before final rest documents,
            pages = (before ++ final :: rest)%list
            /\ Forall (fun p => Spec.more_pages (Spec.page_of p)) before
            /\ Spec.last_page (Spec.page_of final)
            /\ (List.length before <= 1)%nat
            /\ async_posts (net w') = map PostDecoded rest
            /\ trace w' = (trace w ++ map Post documents)%list
            /\ List.length documents = S (List.length before).
Proof.
  intros pages w.
  split; [discriminate|]. split; [reflexivity|]. split; [reflexivity|].
  split; [reflexivity|]. split; [split; reflexivity|].
  eexists _, _. split; [vm_compute; reflexivity|].
  eapply (proj1 (proj2 (fetch_ends_on_last_page octocat w pages 1 one_page
                          _ eq_refl eq_refl eq_refl
                          (conj eq_refl eq_refl))) 2%nat).
  vm_compute. reflexivity.
  Unshelve. discriminate.
Defined.

End Instances.
